(** * dspy-go: signatures, type introspection, validation and schema synthesis

    A shallow embedding of
      - [pkg/core/signature.go]        (legacy signatures, shorthand parser),
      - [pkg/core/typed_signature.go]  (introspector, validator, registry),
      - the schema synthesizer of package [utils],
    together with the fragments of Go's [strings], [reflect] and
    [encoding/json] packages those files call.

    Go strings are modelled as byte strings ([string] of [ascii]); the
    Unicode-aware library functions ([strings.ToLower], [strings.TrimSpace])
    are modelled on their ASCII behaviour. *)

From Stdlib Require Import String Ascii List Bool Arith ZArith Lia Permutation.
Import ListNotations.
Open Scope list_scope.
Open Scope string_scope.

Set Warnings "-register-all".

(* ================================================================== *)
(** * Package [strings] *)
(* ================================================================== *)

Module strings.

(** [strings.HasPrefix(s, prefix)]. *)
Fixpoint HasPrefix (s prefix : string) {struct prefix} : bool :=
  match prefix, s with
  | EmptyString, _ => true
  | String _ _, EmptyString => false
  | String p prefix', String c s' => Ascii.eqb c p && HasPrefix s' prefix'
  end.

(** [strings.Split(s, sep)] splits at the leftmost non-overlapping
    occurrences of [sep].  Go's loop finds the first index of [sep], cuts
    there and resumes after the separator; [scan] walks the bytes once:
    [skip] counts the bytes of a separator that was just matched and is
    still being consumed, [cur] is the piece collected so far. *)
Fixpoint scan (sep : string) (skip : nat) (cur s : string) : list string :=
  match s with
  | EmptyString => [cur]
  | String c rest =>
      match skip with
      | S k => scan sep k cur rest
      | O =>
          if HasPrefix s sep
          then cur :: scan sep (String.length sep - 1) "" rest
          else scan sep 0 (cur ++ String c "") rest
      end
  end.

(** With an empty separator Go explodes the string into its characters. *)
Fixpoint explode (s : string) : list string :=
  match s with
  | EmptyString => []
  | String c rest => String c "" :: explode rest
  end.

Definition Split (s sep : string) : list string :=
  match sep with
  | EmptyString => explode s
  | _ => scan sep 0 "" s
  end.

(** [strings.TrimSpace] on ASCII text, where it removes six bytes at
    either end: tab, line feed, vertical tab, form feed, carriage return,
    space.  (Where the text holds other bytes Go decodes UTF-8 and also
    removes the white space of Unicode, U+00A0 for one; that is not
    modelled.) *)
Definition isSpace (c : ascii) : bool :=
  let n := nat_of_ascii c in
  ((n =? 9) || (n =? 10) || (n =? 11) || (n =? 12) || (n =? 13)
   || (n =? 32))%nat.

Fixpoint TrimLeft (s : string) : string :=
  match s with
  | EmptyString => ""
  | String c rest => if isSpace c then TrimLeft rest else s
  end.

Fixpoint TrimRight (s : string) : string :=
  match s with
  | EmptyString => ""
  | String c rest =>
      match TrimRight rest with
      | EmptyString => if isSpace c then "" else String c ""
      | r => String c r
      end
  end.

Definition TrimSpace (s : string) : string := TrimRight (TrimLeft s).

(** [strings.ToLower] on ASCII text: the letters [A] to [Z].  (Go also
    maps the upper-case letters of Unicode; that is not modelled.) *)
Definition lowerByte (c : ascii) : ascii :=
  let n := nat_of_ascii c in
  if ((65 <=? n) && (n <=? 90))%nat then ascii_of_nat (n + 32) else c.

Fixpoint ToLower (s : string) : string :=
  match s with
  | EmptyString => ""
  | String c rest => String (lowerByte c) (ToLower rest)
  end.

(** Text within the ASCII range. *)
Fixpoint isASCII (s : string) : bool :=
  match s with
  | EmptyString => true
  | String c rest => Nat.ltb (nat_of_ascii c) 128 && isASCII rest
  end.

(** Number of positions of [s] at which [sub] occurs. *)
Fixpoint occurrences (sub s : string) : nat :=
  match s with
  | EmptyString => 0
  | String _ rest =>
      (if HasPrefix s sub then 1 else 0) + occurrences sub rest
  end.

End strings.

(* ================================================================== *)
(** * Go maps with string keys *)
(* ================================================================== *)

(** A [map[string]V] as an association list without repeated keys.
    Assignment [m[k] = v] replaces the entry of [k] or adds one.  Go leaves
    the order in which [range] visits a map unspecified: the order of the
    list stands for one such order, and what depends on it is stated up to
    [Permutation]. *)
Module gomap.

Definition t (V : Type) : Type := list (string * V).

Fixpoint set {V : Type} (m : t V) (k : string) (v : V) : t V :=
  match m with
  | [] => [(k, v)]
  | (k', v') :: m' =>
      if String.eqb k' k then (k, v) :: m' else (k', v') :: set m' k v
  end.

Fixpoint get {V : Type} (m : t V) (k : string) : option V :=
  match m with
  | [] => None
  | (k', v') :: m' => if String.eqb k' k then Some v' else get m' k
  end.

Definition keys {V : Type} (m : t V) : list string := map fst m.
Definition values {V : Type} (m : t V) : list V := map snd m.

End gomap.

(* ================================================================== *)
(** * Slices and their backing arrays *)
(* ================================================================== *)

(** A Go slice is a header (array, offset, length, capacity) over a backing
    array that other headers may share.  The heap lists the arrays
    allocated so far; an array's address is its index. *)
Module slice.

Local Open Scope list_scope.

Record t : Type := mk {
  array  : nat;
  offset : nat;
  len    : nat;
  cap    : nat
}.

(** The nil slice. *)
Definition nil : t := mk 0 0 0 0.

Definition heap (A : Type) : Type := list (list A).

Section Ops.
Context {A : Type}.

(** The zero value of the element type. *)
Variable zero : A.

(** The capacity the runtime's [growslice] picks for a slice of
    capacity [old] that has to hold [needed] elements. *)
Variable growCap : nat -> nat -> nat.

(** The elements a header gives access to. *)
Definition elems (h : heap A) (s : t) : list A :=
  firstn (len s) (skipn (offset s) (nth (array s) h [])).

Definition wf (h : heap A) (s : t) : Prop :=
  len s <= cap s /\ offset s + cap s <= length (nth (array s) h []).

(** Overwrite the cells of [arr] from index [i] on with [xs]. *)
Definition store (arr : list A) (i : nat) (xs : list A) : list A :=
  firstn i arr ++ xs ++ skipn (i + length xs) arr.

Fixpoint update (h : heap A) (a : nat) (f : list A -> list A)
  : heap A :=
  match h, a with
  | [], _ => []
  | arr :: h', O => f arr :: h'
  | arr :: h', S a' => arr :: update h' a' f
  end.

(** [append(s, xs...)]: in place when the capacity suffices, into a
    fresh array otherwise. *)
Definition append (h : heap A) (s : t) (xs : list A) : heap A * t :=
  let n := len s + length xs in
  if Nat.leb n (cap s) then
    (update h (array s) (fun arr => store arr (offset s + len s) xs),
     mk (array s) (offset s) n (cap s))
  else
    let c := growCap (cap s) n in
    (h ++ [elems h s ++ xs ++ repeat zero (c - n)],
     mk (length h) 0 n c).

(** The composite literal [[]A{x1, ..., xn}]. *)
Definition literal (h : heap A) (xs : list A) : heap A * t :=
  (h ++ [xs], mk (length h) 0 (length xs) (length xs)).
End Ops.

End slice.

(* ================================================================== *)
(** * Package [reflect] *)
(* ================================================================== *)

Module reflect.

(** [reflect.Kind]. *)
Module Kind.
Inductive integer : Type :=
| Int | Int8 | Int16 | Int32 | Int64
| Uint | Uint8 | Uint16 | Uint32 | Uint64 | Uintptr.
Inductive float : Type := Float32 | Float64 | Complex64 | Complex128.
Inductive t : Type :=
| Invalid | Bool | Integer (i : integer) | Float (f : float) | String
| Array | Chan | Func | Interface | Map | Pointer | Slice | Struct
| UnsafePointer.

Definition eqb (a b : t) : bool :=
  match a, b with
  | Invalid, Invalid | Bool, Bool | String, String | Array, Array
  | Chan, Chan | Func, Func | Interface, Interface | Map, Map
  | Pointer, Pointer | Slice, Slice | Struct, Struct
  | UnsafePointer, UnsafePointer => true
  | Integer i, Integer j =>
      match i, j with
      | Int, Int | Int8, Int8 | Int16, Int16 | Int32, Int32
      | Int64, Int64 | Uint, Uint | Uint8, Uint8 | Uint16, Uint16
      | Uint32, Uint32 | Uint64, Uint64 | Uintptr, Uintptr => true
      | _, _ => false
      end
  | Float f, Float g =>
      match f, g with
      | Float32, Float32 | Float64, Float64 | Complex64, Complex64
      | Complex128, Complex128 => true
      | _, _ => false
      end
  | _, _ => false
  end.
End Kind.

(** [reflect.StructTag], already split into its [key:"value"] pairs. *)
Definition StructTag : Type := list (string * string).

(** [reflect.Type]: a type declaration.  Every type may be a defined
    (named) type; [name] is what [Type.Name()] returns, the empty string
    for a type literal such as [[]string] or [*T]. *)
Inductive Type_ : Type :=
| BoolType (name : string)
| IntegerType (name : string) (i : Kind.integer)
| FloatType (name : string) (f : Kind.float)
| StringType (name : string)
| InterfaceType (name : string)
| FuncType (name : string)
| UnsafePointerType (name : string)
| PointerTo (name : string) (elem : Type_)
| SliceOf (name : string) (elem : Type_)
| ArrayOf (name : string) (len : nat) (elem : Type_)
| ChanOf (name : string) (elem : Type_)
| MapOf (name : string) (key elem : Type_)
| StructOf (name : string) (fields : list StructField)
with StructField : Type :=
| mkStructField (Name PkgPath : string) (Type__ : Type_) (Tag : StructTag).

Module StructField.
Definition Name (f : StructField) : string :=
  let (n, _, _, _) := f in n.
Definition PkgPath (f : StructField) : string :=
  let (_, p, _, _) := f in p.
Definition Type_ (f : StructField) : Type_ :=
  let (_, _, t, _) := f in t.
Definition Tag (f : StructField) : StructTag :=
  let (_, _, _, g) := f in g.
(** [IsExported] reports whether [PkgPath] is empty. *)
Definition IsExported (f : StructField) : bool :=
  String.eqb (PkgPath f) "".
End StructField.

(** [StructTag.Get]: the value of the first pair with that key, or the
    empty string. *)
Fixpoint Get (tag : StructTag) (key : string) : string :=
  match tag with
  | [] => ""
  | (k, v) :: tag' => if String.eqb k key then v else Get tag' key
  end.

Definition Kind (t : Type_) : Kind.t :=
  match t with
  | BoolType _ => Kind.Bool
  | IntegerType _ i => Kind.Integer i
  | FloatType _ f => Kind.Float f
  | StringType _ => Kind.String
  | InterfaceType _ => Kind.Interface
  | FuncType _ => Kind.Func
  | UnsafePointerType _ => Kind.UnsafePointer
  | PointerTo _ _ => Kind.Pointer
  | SliceOf _ _ => Kind.Slice
  | ArrayOf _ _ _ => Kind.Array
  | ChanOf _ _ => Kind.Chan
  | MapOf _ _ _ => Kind.Map
  | StructOf _ _ => Kind.Struct
  end.

Definition Name (t : Type_) : string :=
  match t with
  | BoolType n | IntegerType n _ | FloatType n _ | StringType n
  | InterfaceType n | FuncType n | UnsafePointerType n | PointerTo n _
  | SliceOf n _ | ArrayOf n _ _ | ChanOf n _ | MapOf n _ _
  | StructOf n _ => n
  end.

(** [Type.Elem()]: defined for array, chan, map, pointer and slice types;
    [None] where Go panics. *)
Definition Elem (t : Type_) : option Type_ :=
  match t with
  | PointerTo _ e | SliceOf _ e | ArrayOf _ _ e | ChanOf _ e
  | MapOf _ _ e => Some e
  | _ => None
  end.

(** The idiom [if t.Kind() == reflect.Ptr { t = t.Elem() }]. *)
Definition derefOnce (t : Type_) : Type_ :=
  match t with
  | PointerTo _ e => e
  | _ => t
  end.

(** The fields [t.Field(0)], ..., [t.Field(t.NumField()-1)] of a struct
    type, in declaration order. *)
Definition Fields (t : Type_) : list StructField :=
  match t with
  | StructOf _ fs => fs
  | _ => []
  end.

(** [reflect.Value]: a runtime value.  Nil pointers, slices, maps and
    interfaces are [None]; a struct lists its fields with their names
    and whether the name is exported. *)
Inductive Value : Type :=
| VBool (b : bool)
| VInteger (i : Kind.integer) (n : Z)
| VFloat (f : Kind.float) (bits : Z)
| VString (s : string)
| VPointer (elem : option Value)
| VInterface (elem : option Value)
| VSlice (elems : option (list Value))
| VArray (elems : list Value)
| VMap (entries : option (list (Value * Value)))
| VStruct (fields : list (string * bool * Value))
| VChan (isNil : bool)
| VFunc (isNil : bool)
| VUnsafePointer (isNil : bool).

Definition ValueKind (v : Value) : Kind.t :=
  match v with
  | VBool _ => Kind.Bool
  | VInteger i _ => Kind.Integer i
  | VFloat f _ => Kind.Float f
  | VString _ => Kind.String
  | VPointer _ => Kind.Pointer
  | VInterface _ => Kind.Interface
  | VSlice _ => Kind.Slice
  | VArray _ => Kind.Array
  | VMap _ => Kind.Map
  | VStruct _ => Kind.Struct
  | VChan _ => Kind.Chan
  | VFunc _ => Kind.Func
  | VUnsafePointer _ => Kind.UnsafePointer
  end.

(** The bit patterns that compare equal to zero: plus and minus zero for
    a float, and for a complex number a zero of either sign in the real
    and in the imaginary half. *)
Definition zeroBits (f : Kind.float) : list Z :=
  match f with
  | Kind.Float32 => [0; 2 ^ 31]
  | Kind.Float64 => [0; 2 ^ 63]
  | Kind.Complex64 => [0; 2 ^ 31; 2 ^ 63; 2 ^ 63 + 2 ^ 31]
  | Kind.Complex128 => [0; 2 ^ 63; 2 ^ 127; 2 ^ 127 + 2 ^ 63]
  end%Z.

(** [Value.IsZero], as of Go 1.22 the comparison of the value with the
    zero value of its type: numbers compare with zero (a float by
    [v.Float() == 0], so both the positive and the negative zero are
    zero), a string by its length, an array element by element, a struct
    field by field with the blank fields [_] left out, and pointers,
    interfaces, slices, maps, channels and functions by [IsNil].  A slice
    or map that is empty but not nil is therefore not zero. *)
Fixpoint IsZero (v : Value) : bool :=
  match v with
  | VBool b => negb b
  | VInteger _ n => Z.eqb n 0
  | VFloat f bits => existsb (Z.eqb bits) (zeroBits f)
  | VString s => String.eqb s ""
  | VPointer None | VInterface None | VSlice None | VMap None => true
  | VPointer (Some _) | VInterface (Some _) | VSlice (Some _)
  | VMap (Some _) => false
  | VArray elems => forallb IsZero elems
  | VStruct fields =>
      forallb (fun f => String.eqb (fst (fst f)) "_" || IsZero (snd f))
              fields
  | VChan isNil | VFunc isNil | VUnsafePointer isNil => isNil
  end.

(** [Value.FieldByName] on a struct value, for the names of the struct's
    own fields and for structs without embedded fields: the field with
    that name, with its exported flag, or [None] for the invalid Value
    returned when there is none.  An own field is what Go finds first ("quick
    check for top-level name"); the search through embedded structs that
    follows when no own field has the name, and its panic on a nil
    embedded pointer, are not modelled.  The statements on validation
    below are therefore about a value of a type and the descriptors of
    that type ([hasType]), where every name looked up is an own
    field's. *)
Fixpoint lookupField (fields : list (string * bool * Value))
         (name : string) : option (bool * Value) :=
  match fields with
  | [] => None
  | (n, exported, v) :: rest =>
      if String.eqb n name then Some (exported, v)
      else lookupField rest name
  end.

Definition FieldByName (v : Value) (name : string)
  : option (bool * Value) :=
  match v with
  | VStruct fields => lookupField fields name
  | _ => None
  end.

(** [Value.Interface] of a field that may be read: the value itself, or
    for a field of interface kind the value it holds ([None]: nil). *)
Definition Interface (v : Value) : option Value :=
  match v with
  | VInterface elem => elem
  | _ => Some v
  end.

(** An exported field's name is the name of no other field of the struct:
    the compiler refuses a struct type with two fields of one name, the
    blank name [_] apart, which is not exported. *)
Definition exportedNamesOnce (fields : list StructField) : bool :=
  forallb
    (fun f =>
       negb (StructField.IsExported f)
       || Nat.eqb (count_occ string_dec (map StructField.Name fields)
                             (StructField.Name f)) 1)
    fields.

(** [hasType v t]: [v] is a value of the type [t], as the compiler
    guarantees it of the argument of a method with a parameter of type
    [t], and [reflect] of the fields of a struct value: the kinds agree,
    a struct value has the fields of its type in declaration order, each
    with the name and the exported flag of the type's field and a value of
    that field's type, and the elements of pointers, slices, arrays and
    maps are of the element type.  An interface holds a value of any
    type. *)
Fixpoint hasType (v : Value) (t : Type_) {struct v} : bool :=
  match v, t with
  | VBool _, BoolType _ => true
  | VInteger i _, IntegerType _ j => Kind.eqb (Kind.Integer i) (Kind.Integer j)
  | VFloat f _, FloatType _ g => Kind.eqb (Kind.Float f) (Kind.Float g)
  | VString _, StringType _ => true
  | VPointer None, PointerTo _ _ => true
  | VPointer (Some elem), PointerTo _ te => hasType elem te
  | VInterface _, InterfaceType _ => true
  | VSlice None, SliceOf _ _ => true
  | VSlice (Some elems), SliceOf _ te =>
      forallb (fun e => hasType e te) elems
  | VArray elems, ArrayOf _ len te =>
      Nat.eqb (length elems) len && forallb (fun e => hasType e te) elems
  | VMap None, MapOf _ _ _ => true
  | VMap (Some entries), MapOf _ tk te =>
      forallb (fun kv => hasType (fst kv) tk && hasType (snd kv) te) entries
  | VStruct fields, StructOf _ tfields =>
      exportedNamesOnce tfields
      && (fix each (fields : list (string * bool * Value))
              (tfields : list StructField) {struct fields} : bool :=
            match fields, tfields with
            | [], [] => true
            | (n, exported, fv) :: fields', tf :: tfields' =>
                String.eqb n (StructField.Name tf)
                && Bool.eqb exported (StructField.IsExported tf)
                && hasType fv (StructField.Type_ tf)
                && each fields' tfields'
            | _, _ => false
            end) fields tfields
  | VChan _, ChanOf _ _ => true
  | VFunc _, FuncType _ => true
  | VUnsafePointer _, UnsafePointerType _ => true
  | _, _ => false
  end.

End reflect.

(* ================================================================== *)
(** * Package [core], file [signature.go] *)
(* ================================================================== *)

Module core.

(** [type FieldType string] and its constants. *)
Definition FieldType := string.
Definition FieldTypeText   : FieldType := "text".
Definition FieldTypeImage  : FieldType := "image".
Definition FieldTypeAudio  : FieldType := "audio".
Definition FieldTypeInt    : FieldType := "int".
Definition FieldTypeBool   : FieldType := "bool".
Definition FieldTypeString : FieldType := "string".
Definition FieldTypeArray  : FieldType := "array".
Definition FieldTypeObject : FieldType := "object".

(** The errors of the package.  Go builds them with [fmt.Errorf]; the
    constructors keep the arguments of the format string and [Error]
    renders the message. *)
Inductive error : Type :=
| MalformedSignature (signatureStr : string)
| EmptyValue (fieldType : string)
| NotAStruct (fieldType : string)
| RequiredFieldMissing (fieldType name : string).

Definition Error (e : error) : string :=
  match e with
  | MalformedSignature s => "invalid signature format: " ++ s
  | EmptyValue ft => ft ++ " cannot be nil"
  | NotAStruct ft => ft ++ " must be struct"
  | RequiredFieldMissing ft n =>
      "required " ++ ft ++ " field '" ++ n ++ "' cannot be empty"
  end.

(** [type Field struct].  A nil pointer or nil map is [None]. *)
Module Field.
Inductive t : Type := mk {
  Name        : string;
  Description : string;
  Prefix      : string;
  Type_       : FieldType;
  Items       : option t;
  Properties  : option (list (string * t))
}.
(** The composite literal [Field{Name: name}]: every other field zero. *)
Definition named (name : string) : t := mk name "" "" "" None None.
End Field.

Module InputField.
Record t : Type := mk { Field : Field.t }.
End InputField.

Module OutputField.
Record t : Type := mk { Field : Field.t }.
End OutputField.

Module Signature.
Record t : Type := mk {
  Inputs      : list InputField.t;
  Outputs     : list OutputField.t;
  Instruction : string
}.
End Signature.

Definition NewSignature (inputs : list InputField.t)
           (outputs : list OutputField.t) : Signature.t :=
  Signature.mk inputs outputs "".

Definition WithInstruction (s : Signature.t) (instruction : string)
  : Signature.t :=
  Signature.mk (Signature.Inputs s) (Signature.Outputs s) instruction.

Definition parseInputFields (fieldsStr : string) : list InputField.t :=
  map (fun fieldStr =>
         InputField.mk (Field.named (strings.TrimSpace fieldStr)))
      (strings.Split fieldsStr ",").

Definition parseOutputFields (fieldsStr : string) : list OutputField.t :=
  map (fun fieldStr =>
         OutputField.mk (Field.named (strings.TrimSpace fieldStr)))
      (strings.Split fieldsStr ",").

Definition ParseSignature (signatureStr : string)
  : Signature.t + error :=
  match strings.Split signatureStr "->" with
  | [p0; p1] =>
      inl (NewSignature (parseInputFields (strings.TrimSpace p0))
                        (parseOutputFields (strings.TrimSpace p1)))
  | _ => inr (MalformedSignature signatureStr)
  end.

Definition ShorthandNotation (notation : string) : Signature.t + error :=
  ParseSignature notation.

(** *** Field constructors

    A [FieldOption] is a function that updates, through a pointer, the
    field under construction. *)
Definition FieldOption : Type := Field.t -> Field.t.

Definition WithDescription (desc : string) : FieldOption :=
  fun f => Field.mk (Field.Name f) desc (Field.Prefix f) (Field.Type_ f)
                    (Field.Items f) (Field.Properties f).

Definition WithCustomPrefix (prefix : string) : FieldOption :=
  fun f => Field.mk (Field.Name f) (Field.Description f) prefix
                    (Field.Type_ f) (Field.Items f) (Field.Properties f).

Definition WithNoPrefix : FieldOption :=
  fun f => Field.mk (Field.Name f) (Field.Description f) ""
                    (Field.Type_ f) (Field.Items f) (Field.Properties f).

Definition WithFieldType (fieldType : FieldType) : FieldOption :=
  fun f => Field.mk (Field.Name f) (Field.Description f) (Field.Prefix f)
                    fieldType (Field.Items f) (Field.Properties f).

Definition WithArrayType (itemType : option Field.t) : FieldOption :=
  fun f => Field.mk (Field.Name f) (Field.Description f) (Field.Prefix f)
                    FieldTypeArray itemType (Field.Properties f).

Definition WithObjectType (properties : option (list (string * Field.t)))
  : FieldOption :=
  fun f => Field.mk (Field.Name f) (Field.Description f) (Field.Prefix f)
                    FieldTypeObject (Field.Items f) properties.

(** [NewField(name, opts...)]: the defaults, then the options in order. *)
Definition NewField (name : string) (opts : list FieldOption) : Field.t :=
  fold_left (fun f opt => opt f) opts
            (Field.mk name "" (name ++ ":") FieldTypeText None None).

Definition NewIntField (name : string) (opts : list FieldOption) : Field.t :=
  NewField name (opts ++ [WithFieldType FieldTypeInt])%list.

Definition NewBoolField (name : string) (opts : list FieldOption) : Field.t :=
  NewField name (opts ++ [WithFieldType FieldTypeBool])%list.

Definition NewStringField (name : string) (opts : list FieldOption)
  : Field.t :=
  NewField name (opts ++ [WithFieldType FieldTypeString])%list.

Definition NewArrayField (name : string) (itemType : option Field.t)
           (opts : list FieldOption) : Field.t :=
  NewField name (opts ++ [WithArrayType itemType])%list.

Definition NewObjectField (name : string)
           (properties : option (list (string * Field.t)))
           (opts : list FieldOption) : Field.t :=
  NewField name (opts ++ [WithObjectType properties])%list.

(** [Signature.String]: the canonical text. *)
Definition fieldLine (f : Field.t) : string :=
  let typeStr :=
    if String.eqb (Field.Type_ f) FieldTypeText then ""
    else " [" ++ Field.Type_ f ++ "]" in
  "  - " ++ Field.Name f ++ typeStr ++ " (" ++ Field.Description f ++ ")"
    ++ String (ascii_of_nat 10) "".

Definition String_ (s : Signature.t) : string :=
  "Inputs:" ++ String (ascii_of_nat 10) ""
    ++ String.concat "" (map (fun i => fieldLine (InputField.Field i))
                             (Signature.Inputs s))
    ++ "Outputs:" ++ String (ascii_of_nat 10) ""
    ++ String.concat "" (map (fun o => fieldLine (OutputField.Field o))
                             (Signature.Outputs s))
    ++ (if String.eqb (Signature.Instruction s) "" then ""
        else "Instruction: " ++ Signature.Instruction s
               ++ String (ascii_of_nat 10) "").

(** *** Signatures in memory

    [Signature.t] above is a signature by content.  [AppendInput] and
    [PrependOutput] have value receivers: they copy the three words of
    each slice header, not the arrays, and [append] may write into an
    array the caller's signature shares.  [mem.Signature] is the struct as
    Go stores it and [mem.load] the content it denotes in a heap. *)
Module mem.
Record Signature : Type := mkSignature {
  Inputs      : slice.t;
  Outputs     : slice.t;
  Instruction : string
}.

Record Heap : Type := mkHeap {
  inputArrays  : slice.heap InputField.t;
  outputArrays : slice.heap OutputField.t
}.

Definition load (h : Heap) (s : Signature) : Signature.t :=
  Signature.mk (slice.elems (inputArrays h) (Inputs s))
               (slice.elems (outputArrays h) (Outputs s))
               (Instruction s).

Definition wf (h : Heap) (s : Signature) : Prop :=
  slice.wf (inputArrays h) (Inputs s)
  /\ slice.wf (outputArrays h) (Outputs s).
End mem.

Section Append.
Variable growCap : nat -> nat -> nat.

Definition AppendInput (h : mem.Heap) (s : mem.Signature)
           (name prefix description : string)
  : mem.Heap * mem.Signature :=
  let newInput :=
    InputField.mk (Field.mk name description prefix "" None None) in
  let (arrays, inputs) :=
    slice.append (InputField.mk (Field.named "")) growCap
                 (mem.inputArrays h) (mem.Inputs s) [newInput] in
  (mem.mkHeap arrays (mem.outputArrays h),
   mem.mkSignature inputs (mem.Outputs s) (mem.Instruction s)).

Definition PrependOutput (h : mem.Heap) (s : mem.Signature)
           (name prefix description : string)
  : mem.Heap * mem.Signature :=
  let newOutput :=
    OutputField.mk (Field.mk name description prefix "" None None) in
  let (arrays1, lit) := slice.literal (mem.outputArrays h) [newOutput] in
  let (arrays2, outputs) :=
    slice.append (OutputField.mk (Field.named "")) growCap
                 arrays1 lit
                 (slice.elems (mem.outputArrays h) (mem.Outputs s)) in
  (mem.mkHeap (mem.inputArrays h) arrays2,
   mem.mkSignature (mem.Inputs s) outputs (mem.Instruction s)).
End Append.

(* ---------------------------------------------------------------- *)
(** ** File [typed_signature.go] *)
(* ---------------------------------------------------------------- *)

Module FieldMetadata.
Inductive t : Type := mk {
  Name        : string;
  GoFieldName : string;
  Required    : bool;
  Description : string;
  Prefix      : string;
  Type_       : FieldType;
  GoType      : reflect.Type_;
  Item        : option t;
  Properties  : option (gomap.t t)
}.
End FieldMetadata.

Module SignatureMetadata.
Record t : Type := mk {
  Inputs      : list FieldMetadata.t;
  Outputs     : list FieldMetadata.t;
  Instruction : string
}.
End SignatureMetadata.

Definition inferFieldType (t : reflect.Type_) : FieldType :=
  let t := reflect.derefOnce t in
  match t with
  | reflect.StringType _ => FieldTypeString
  | reflect.BoolType _ => FieldTypeBool
  | reflect.IntegerType _
      (reflect.Kind.Int | reflect.Kind.Int8 | reflect.Kind.Int16
      | reflect.Kind.Int32 | reflect.Kind.Int64) => FieldTypeInt
  | reflect.SliceOf _ elem =>
      if reflect.Kind.eqb (reflect.Kind elem)
           (reflect.Kind.Integer reflect.Kind.Uint8)
      then FieldTypeImage
      else FieldTypeArray
  | reflect.MapOf _ _ _ | reflect.StructOf _ _ => FieldTypeObject
  | _ => FieldTypeText
  end.

(** The statements of [parseFieldMetadataRecursive] before its nesting
    switch: name, required flag, description and prefix from the field
    and its tag. *)
Definition tagName (fieldName : string) (tag : reflect.StructTag)
  : string :=
  let dspy := reflect.Get tag "dspy" in
  if String.eqb dspy "" then strings.ToLower fieldName
  else match strings.Split dspy "," with
       | p0 :: _ =>
           if String.eqb p0 "" then strings.ToLower fieldName else p0
       | [] => strings.ToLower fieldName
       end.

Definition tagRequired (tag : reflect.StructTag) : bool :=
  let dspy := reflect.Get tag "dspy" in
  if String.eqb dspy "" then false
  else existsb (fun p => String.eqb (strings.TrimSpace p) "required")
               (tl (strings.Split dspy ",")).

Definition tagDescription (fieldName : string) (tag : reflect.StructTag)
  : string :=
  let desc := reflect.Get tag "description" in
  if String.eqb desc "" then fieldName else desc.

Definition tagPrefix (name : string) (tag : reflect.StructTag)
           (isInput : bool) : string :=
  let pfx := reflect.Get tag "prefix" in
  if String.eqb pfx "" then (if isInput then "" else name ++ ":")
  else pfx.

(** [parseFieldMetadataRecursive], [parseObjectProperties] and
    [parseArrayElement] call one another, each time on a type that lies
    inside the type of the field at hand ([parseArrayElement] wraps the
    element type in a synthetic field with the element type's name and an
    empty tag).  [describeField] is that recursion on the field's type;
    the three functions are defined from it below under their own names,
    and the unfolding lemmas of the proof part give them back the shape
    they have in the source. *)
Fixpoint describeField (fieldName : string) (fieldTag : reflect.StructTag)
         (fieldType : reflect.Type_) (isInput : bool) {struct fieldType}
  : FieldMetadata.t :=
  let name := tagName fieldName fieldTag in
  let type := inferFieldType fieldType in
  FieldMetadata.mk
    name fieldName (tagRequired fieldTag)
    (tagDescription fieldName fieldTag)
    (tagPrefix name fieldTag isInput)
    type fieldType
    (if String.eqb type FieldTypeArray then
       match fieldType with
       | reflect.PointerTo _ elem | reflect.SliceOf _ elem
       | reflect.ArrayOf _ _ elem | reflect.ChanOf _ elem
       | reflect.MapOf _ _ elem =>
           Some (describeField (reflect.Name elem) [] elem true)
       | _ => None
       end
     else None)
    (if String.eqb type FieldTypeObject then
       Some
         match fieldType with
         | reflect.PointerTo _ (reflect.StructOf _ fields)
         | reflect.StructOf _ fields =>
             fold_left
               (fun props sf =>
                  if reflect.StructField.IsExported sf then
                    let child :=
                      describeField (reflect.StructField.Name sf)
                                    (reflect.StructField.Tag sf)
                                    (reflect.StructField.Type_ sf) true in
                    gomap.set props (FieldMetadata.Name child) child
                  else props)
               fields []
         | _ => []
         end
     else None).

Definition parseFieldMetadataRecursive (field : reflect.StructField)
           (isInput : bool) : FieldMetadata.t :=
  describeField (reflect.StructField.Name field)
                (reflect.StructField.Tag field)
                (reflect.StructField.Type_ field) isInput.

Definition parseObjectProperties (t : reflect.Type_)
  : gomap.t FieldMetadata.t :=
  let t := reflect.derefOnce t in
  fold_left
    (fun props sf =>
       if reflect.StructField.IsExported sf then
         let child := parseFieldMetadataRecursive sf true in
         gomap.set props (FieldMetadata.Name child) child
       else props)
    (reflect.Fields t) [].

(** [None] stands for the panic of [t.Elem()] on a type without element
    type; the caller only passes slices and pointers. *)
Definition parseArrayElement (t : reflect.Type_)
  : option FieldMetadata.t :=
  match reflect.Elem t with
  | Some elem =>
      let fakeField := reflect.mkStructField (reflect.Name elem) "" elem [] in
      Some (parseFieldMetadataRecursive fakeField true)
  | None => None
  end.

(** A nil [reflect.Type] is [None]. *)
Definition parseStructFields (t : option reflect.Type_) (isInput : bool)
  : list FieldMetadata.t :=
  match t with
  | Some (reflect.StructOf _ fields) =>
      map (fun sf => parseFieldMetadataRecursive sf isInput)
          (filter reflect.StructField.IsExported fields)
  | _ => []
  end.

(** *** Validation *)

(** What a call of [validateStruct] does: return nil, return an error, or
    panic ([Value.Interface] on a field reached through an unexported
    name). *)
Inductive outcome : Type :=
| Ok
| Err (e : error)
| Panic.

(** [flatten]: the descriptors of a map in the order [range] visits
    them, here the order of the list; Go may take another order at each
    call. *)
Definition flatten (m : option (gomap.t FieldMetadata.t))
  : list FieldMetadata.t :=
  match m with
  | Some props => gomap.values props
  | None => []
  end.

(** One round of the loop of [validateStruct] over [expected], for the
    struct value [v]: the lookup of the field, then the test of
    [Required], in the order of the source; [Ok] means the loop goes on.
    The nested call
    [validateStruct(field.Interface(), flatten(Properties), path)] is
    written out (nil test, one dereference, struct test, loop over the
    properties) so that the recursion follows the descriptor tree. *)
Fixpoint validateField (v : reflect.Value) (fieldType : string)
         (expectedField : FieldMetadata.t) {struct expectedField}
  : outcome :=
  let field :=
    reflect.FieldByName v (FieldMetadata.GoFieldName expectedField) in
  if negb (FieldMetadata.Required expectedField) then Ok
  else
    match field with
    | None =>
        Err (RequiredFieldMissing fieldType
               (FieldMetadata.Name expectedField))
    | Some (exported, field) =>
        if reflect.IsZero field then
          Err (RequiredFieldMissing fieldType
                 (FieldMetadata.Name expectedField))
        else if String.eqb (FieldMetadata.Type_ expectedField)
                           FieldTypeObject
        then
          if negb exported then Panic
          else
            let path :=
              fieldType ++ "." ++ FieldMetadata.Name expectedField in
            match reflect.Interface field with
            | None => Err (EmptyValue path)
            | Some value =>
                let target :=
                  match value with
                  | reflect.VPointer elem => elem
                  | _ => Some value
                  end in
                match target with
                | Some (reflect.VStruct fs) =>
                    match FieldMetadata.Properties expectedField with
                    | Some props =>
                        (fix loop (props : gomap.t FieldMetadata.t)
                           : outcome :=
                           match props with
                           | [] => Ok
                           | (_, p) :: rest =>
                               match
                                 validateField (reflect.VStruct fs) path p
                               with
                               | Ok => loop rest
                               | r => r
                               end
                           end) props
                    | None => Ok
                    end
                | _ => Err (NotAStruct path)
                end
            end
        else Ok
    end.

Fixpoint validateFields (v : reflect.Value) (fieldType : string)
         (expected : list FieldMetadata.t) : outcome :=
  match expected with
  | [] => Ok
  | expectedField :: rest =>
      match validateField v fieldType expectedField with
      | Ok => validateFields v fieldType rest
      | r => r
      end
  end.

(** [validateStruct(value any, expected, fieldType)]; a nil [value] is
    [None]. *)
Definition validateStruct (value : option reflect.Value)
           (expected : list FieldMetadata.t) (fieldType : string)
  : outcome :=
  match value with
  | None => Err (EmptyValue fieldType)
  | Some value =>
      let v :=
        match value with
        | reflect.VPointer elem => elem
        | _ => Some value
        end in
      match v with
      | Some (reflect.VStruct fs) =>
          validateFields (reflect.VStruct fs) fieldType expected
      | _ => Err (NotAStruct fieldType)
      end
  end.

(** *** Typed signatures *)

Module typedSignatureImpl.
Record t : Type := mk {
  inputType  : option reflect.Type_;
  outputType : option reflect.Type_;
  metadata   : SignatureMetadata.t
}.
End typedSignatureImpl.

Definition createTypedSignatureImpl
           (inputType outputType : option reflect.Type_)
  : typedSignatureImpl.t :=
  typedSignatureImpl.mk inputType outputType
    (SignatureMetadata.mk (parseStructFields inputType true)
                          (parseStructFields outputType false) "").

(** [reflect.TypeOf] of the zero value of a type parameter: nil when the
    parameter is an interface type, the type itself otherwise. *)
Definition typeOfZero (T : reflect.Type_) : option reflect.Type_ :=
  match T with
  | reflect.InterfaceType _ => None
  | _ => Some T
  end.

Definition getReflectTypes (TInput TOutput : reflect.Type_)
  : option reflect.Type_ * option reflect.Type_ :=
  (option_map reflect.derefOnce (typeOfZero TInput),
   option_map reflect.derefOnce (typeOfZero TOutput)).

Definition NewTypedSignature (TInput TOutput : reflect.Type_)
  : typedSignatureImpl.t :=
  let (inputType, outputType) := getReflectTypes TInput TOutput in
  createTypedSignatureImpl inputType outputType.

Definition ValidateInput (ts : typedSignatureImpl.t)
           (input : option reflect.Value) : outcome :=
  validateStruct input
    (SignatureMetadata.Inputs (typedSignatureImpl.metadata ts)) "input".

Definition ValidateOutput (ts : typedSignatureImpl.t)
           (output : option reflect.Value) : outcome :=
  validateStruct output
    (SignatureMetadata.Outputs (typedSignatureImpl.metadata ts)) "output".

Definition ToLegacySignature (ts : typedSignatureImpl.t) : Signature.t :=
  let md := typedSignatureImpl.metadata ts in
  let legacy (field : FieldMetadata.t) : Field.t :=
    Field.mk (FieldMetadata.Name field) (FieldMetadata.Description field)
             "" (FieldMetadata.Type_ field) None None in
  let signature :=
    NewSignature
      (map (fun f => InputField.mk (legacy f)) (SignatureMetadata.Inputs md))
      (map (fun f => OutputField.mk (legacy f))
           (SignatureMetadata.Outputs md)) in
  if String.eqb (SignatureMetadata.Instruction md) "" then signature
  else WithInstruction signature (SignatureMetadata.Instruction md).

(** [typedSignatureImpl.WithInstruction]: the same types and fields with a
    new instruction. *)
Definition WithInstructionTyped (ts : typedSignatureImpl.t)
           (instruction : string) : typedSignatureImpl.t :=
  typedSignatureImpl.mk
    (typedSignatureImpl.inputType ts) (typedSignatureImpl.outputType ts)
    (SignatureMetadata.mk
       (SignatureMetadata.Inputs (typedSignatureImpl.metadata ts))
       (SignatureMetadata.Outputs (typedSignatureImpl.metadata ts))
       instruction).

(** [parseFieldMetadata]: the parser of a single field without nesting,
    statement by statement. *)
Definition parseFieldMetadata (field : reflect.StructField)
           (isInput : bool) : FieldMetadata.t :=
  let Name0 := strings.ToLower (reflect.StructField.Name field) in
  let dspyTag := reflect.Get (reflect.StructField.Tag field) "dspy" in
  let parts := strings.Split dspyTag "," in
  let Name1 :=
    if String.eqb dspyTag "" then Name0
    else if Nat.ltb 0 (List.length parts)
                    && negb (String.eqb (hd "" parts) "")
         then hd "" parts
         else Name0 in
  let Required1 :=
    if String.eqb dspyTag "" then false
    else fold_left
           (fun required part =>
              if String.eqb (strings.TrimSpace part) "required" then true
              else required)
           (tl parts) false in
  let desc := reflect.Get (reflect.StructField.Tag field) "description" in
  let Description1 :=
    if String.eqb desc "" then reflect.StructField.Name field else desc in
  let Prefix1 := if isInput then "" else Name1 ++ ":" in
  let prefix := reflect.Get (reflect.StructField.Tag field) "prefix" in
  let Prefix2 := if String.eqb prefix "" then Prefix1 else prefix in
  FieldMetadata.mk Name1 (reflect.StructField.Name field) Required1
                   Description1 Prefix2
                   (inferFieldType (reflect.StructField.Type_ field))
                   (reflect.StructField.Type_ field) None None.

(** [reflect.TypeOf("")] and [reflect.TypeOf(map[string]any{})]. *)
Definition stringType : reflect.Type_ := reflect.StringType "string".
Definition mapStringAnyType : reflect.Type_ :=
  reflect.MapOf "" (reflect.StringType "string") (reflect.InterfaceType "").

(** [FromLegacySignature]: a typed signature over maps from an untyped
    one. *)
Definition FromLegacySignature (sig : Signature.t) : typedSignatureImpl.t :=
  let upgrade (f : Field.t) : FieldMetadata.t :=
    FieldMetadata.mk (Field.Name f) (Field.Name f) false
                     (Field.Description f) (Field.Prefix f) (Field.Type_ f)
                     stringType None None in
  typedSignatureImpl.mk
    (Some mapStringAnyType) (Some mapStringAnyType)
    (SignatureMetadata.mk
       (map (fun input => upgrade (InputField.Field input))
            (Signature.Inputs sig))
       (map (fun output => upgrade (OutputField.Field output))
            (Signature.Outputs sig))
       (Signature.Instruction sig)).

(** *** The signature registry

    [typedSignatureCache] is a [sync.Map]: [Load] and [LoadOrStore] are
    atomic.  A call of [NewTypedSignatureCached[TInput, TOutput]] is a
    small machine that performs one of them per step; concurrent calls
    interleave their steps. *)

(** A [*typedSignatureImpl[TInput, TOutput]]: [address] identifies the
    instance the pointer refers to. *)
Record instance : Type := mkInstance {
  address : nat;
  TIn     : reflect.Type_;
  TOut    : reflect.Type_;
  impl    : typedSignatureImpl.t
}.

Definition signatureCacheKey : Type :=
  (option reflect.Type_ * option reflect.Type_)%type.

(** The type assertion [x.(TypedSignature[TInput, TOutput])] holds for
    the instances of [typedSignatureImpl[TInput, TOutput]]: only their
    methods take a [TInput] and a [TOutput]. *)
Definition implements (x : instance) (TInput TOutput : reflect.Type_)
  : Prop :=
  TIn x = TInput /\ TOut x = TOutput.

Inductive call : Type :=
| AtLoad (TInput TOutput : reflect.Type_)
| AtLoadOrStore (TInput TOutput : reflect.Type_) (signature : instance)
| Returned (TInput TOutput : reflect.Type_) (result : instance)
| Panicked (TInput TOutput : reflect.Type_).

Definition cache : Type := list (signatureCacheKey * instance).

Definition absent (m : cache) (key : signatureCacheKey) : Prop :=
  forall x, ~ In (key, x) m.

(** One step of one call: the cache and the allocation counter before,
    the call, and the three after. *)
Inductive callStep
  : cache -> nat -> call -> cache -> nat -> call -> Prop :=
| LoadHit m n TInput TOutput cached :
    In (getReflectTypes TInput TOutput, cached) m ->
    implements cached TInput TOutput ->
    callStep m n (AtLoad TInput TOutput)
             m n (Returned TInput TOutput cached)
| LoadHitAssertFails m n TInput TOutput cached :
    In (getReflectTypes TInput TOutput, cached) m ->
    ~ implements cached TInput TOutput ->
    callStep m n (AtLoad TInput TOutput) m n (Panicked TInput TOutput)
| LoadMiss m n TInput TOutput :
    absent m (getReflectTypes TInput TOutput) ->
    callStep m n (AtLoad TInput TOutput)
             m (S n)
             (AtLoadOrStore TInput TOutput
                (mkInstance n TInput TOutput
                   (let (inputType, outputType) :=
                      getReflectTypes TInput TOutput in
                    createTypedSignatureImpl inputType outputType)))
| Stored m n TInput TOutput signature :
    absent m (getReflectTypes TInput TOutput) ->
    callStep m n (AtLoadOrStore TInput TOutput signature)
             ((getReflectTypes TInput TOutput, signature) :: m) n
             (Returned TInput TOutput signature)
| Loaded m n TInput TOutput signature actual :
    In (getReflectTypes TInput TOutput, actual) m ->
    implements actual TInput TOutput ->
    callStep m n (AtLoadOrStore TInput TOutput signature)
             m n (Returned TInput TOutput actual)
| LoadedAssertFails m n TInput TOutput signature actual :
    In (getReflectTypes TInput TOutput, actual) m ->
    ~ implements actual TInput TOutput ->
    callStep m n (AtLoadOrStore TInput TOutput signature)
             m n (Panicked TInput TOutput).

Record world : Type := mkWorld {
  typedSignatureCache : cache;
  allocated           : nat;
  calls               : list call
}.

(** One of the concurrent calls takes a step. *)
Inductive step : world -> world -> Prop :=
| StepCall m n before c after m' n' c' :
    callStep m n c m' n' c' ->
    step (mkWorld m n (before ++ c :: after)%list)
         (mkWorld m' n' (before ++ c' :: after)%list).

Inductive steps : world -> world -> Prop :=
| StepsRefl w : steps w w
| StepsCons w1 w2 w3 : step w1 w2 -> steps w2 w3 -> steps w1 w3.

Definition running (c : call) : bool :=
  match c with
  | AtLoad _ _ | AtLoadOrStore _ _ _ => true
  | Returned _ _ _ | Panicked _ _ => false
  end.

End core.

(* ================================================================== *)
(** * Package [encoding/json]: documents *)
(* ================================================================== *)

(** A JSON document after lexing; an object keeps its members in the order
    of the text. *)
Module json.
Inductive Value : Type :=
| JNull
| JBool (b : bool)
| JNumber (literal : string)
| JString (s : string)
| JArray (elems : list Value)
| JObject (members : list (string * Value)).
End json.

(* ================================================================== *)
(** * Package [utils]: the schema synthesizer *)
(* ================================================================== *)

Module utils.

Definition TypeString  : string := "STRING".
Definition TypeInteger : string := "INTEGER".
Definition TypeNumber  : string := "NUMBER".
Definition TypeBoolean : string := "BOOLEAN".
Definition TypeObject  : string := "OBJECT".
Definition TypeArray   : string := "ARRAY".

(** [type TypeSchema struct], with the four fields the synthesizer
    writes.  The other eighteen (description, enum, bounds, ...) are
    written only by the JSON decoder; see [BuildSchemaFromJson]. *)
Module TypeSchema.
Inductive t : Type := mk {
  Type_      : string;
  Properties : option (gomap.t t);
  Items      : option t;
  Required   : list string
}.
(** [&TypeSchema{}]. *)
Definition zero : t := mk "" None None [].
Definition withType (s : t) (ty : string) : t :=
  mk ty (Properties s) (Items s) (Required s).
Definition withProperties (s : t) (p : option (gomap.t t)) : t :=
  mk (Type_ s) p (Items s) (Required s).
Definition withItems (s : t) (i : option t) : t :=
  mk (Type_ s) (Properties s) i (Required s).
Definition withRequired (s : t) (r : list string) : t :=
  mk (Type_ s) (Properties s) (Items s) r.
End TypeSchema.

Fixpoint baseType (t : reflect.Type_) : reflect.Type_ :=
  match t with
  | reflect.PointerTo _ elem => baseType elem
  | _ => t
  end.

(** The locals [fieldName] and [isOmitempty] of the loop of
    [buildSchemaFromType] over the fields of a struct. *)
Definition fieldName (f : reflect.StructField) : string :=
  let jsonTag := reflect.Get (reflect.StructField.Tag f) "json" in
  let parts := strings.Split jsonTag "," in
  if String.eqb (hd "" parts) "" then reflect.StructField.Name f
  else hd "" parts.

Definition isOmitempty (f : reflect.StructField) : bool :=
  let jsonTag := reflect.Get (reflect.StructField.Tag f) "json" in
  let parts := strings.Split jsonTag "," in
  existsb (fun opt => String.eqb opt "omitempty") (tl parts).

(** [s.Properties[k] = v] and [s.Required = append(s.Required, k)]. *)
Definition setProperty (s : TypeSchema.t) (k : string) (v : TypeSchema.t)
  : TypeSchema.t :=
  TypeSchema.withProperties s
    (Some (gomap.set match TypeSchema.Properties s with
                     | Some m => m
                     | None => []
                     end k v)).

Definition appendRequired (s : TypeSchema.t) (k : string) : TypeSchema.t :=
  TypeSchema.withRequired s (TypeSchema.Required s ++ [k])%list.

Fixpoint buildSchemaFromType (t : reflect.Type_) : TypeSchema.t :=
  match t with
  | reflect.StructOf _ fields =>
      fold_left
        (fun s f =>
           if negb (String.eqb (reflect.StructField.PkgPath f) "")
           then s
           else
             let fieldSchema :=
               buildSchemaFromType
                 (baseType (reflect.StructField.Type_ f)) in
             let s := setProperty s (fieldName f) fieldSchema in
             if negb (isOmitempty f) then appendRequired s (fieldName f)
             else s)
        fields
        (TypeSchema.mk TypeObject (Some []) None [])
  | reflect.SliceOf _ elem | reflect.ArrayOf _ _ elem =>
      TypeSchema.mk TypeArray None
                    (Some (buildSchemaFromType (baseType elem))) []
  | reflect.StringType _ => TypeSchema.withType TypeSchema.zero TypeString
  | reflect.BoolType _ => TypeSchema.withType TypeSchema.zero TypeBoolean
  | reflect.IntegerType _
      (reflect.Kind.Int | reflect.Kind.Int8 | reflect.Kind.Int16
      | reflect.Kind.Int32 | reflect.Kind.Int64) =>
      TypeSchema.withType TypeSchema.zero TypeInteger
  | reflect.FloatType _ (reflect.Kind.Float32 | reflect.Kind.Float64) =>
      TypeSchema.withType TypeSchema.zero TypeNumber
  | _ => TypeSchema.withType TypeSchema.zero TypeString
  end.

(** The invariant of a schema node: every name of [Required] is a key of
    [Properties], in the node and in every node below it. *)
Fixpoint requiredDeclared (s : TypeSchema.t) : bool :=
  match TypeSchema.Properties s with
  | Some props =>
      forallb (fun r => existsb (String.eqb r) (gomap.keys props))
              (TypeSchema.Required s)
      && forallb (fun kv => requiredDeclared (snd kv)) props
  | None =>
      match TypeSchema.Required s with
      | [] => true
      | _ :: _ => false
      end
  end
  && match TypeSchema.Items s with
     | Some i => requiredDeclared i
     | None => true
     end.

(** [BuildSchemaFromStruct[T](t T)], from the dynamic type of [t]. *)
Definition BuildSchemaFromStruct (T : reflect.Type_) : TypeSchema.t :=
  buildSchemaFromType T.

(** *** Decoding a pre-authored schema

    [json.Unmarshal] into a [TypeSchema], on lexed documents.  Members
    are matched with the struct's JSON names without regard to ASCII
    case and decoded in the order of the text into the value built so
    far; [null] leaves or resets a field; a member the struct does not
    declare is skipped.  [Unmodelled] marks the documents this model does
    not follow: those that use one of the eighteen members left out of
    [TypeSchema.t]; those that put [null] where a property's schema stands
    (Go stores a nil pointer in the map); those with a member name outside
    ASCII (Go matches names under Unicode case folding); and those that
    decode a [null] element into a [required] list that an earlier member
    of the same name has filled (Go decodes into the slice it has and
    [null] leaves the old element). *)
Inductive decoded (A : Type) : Type :=
| Decoded (a : A)
| SchemaDecodeFailed
| Unmodelled.
Arguments Decoded {A} a.
Arguments SchemaDecodeFailed {A}.
Arguments Unmodelled {A}.

Definition otherMembers : list string :=
  ["anyof"; "default"; "description"; "enum"; "example"; "format";
   "maxitems"; "maxlength"; "maxproperties"; "maximum"; "minitems";
   "minlength"; "minproperties"; "minimum"; "nullable"; "pattern";
   "propertyordering"; "title"].

(** A JSON array decoded into a [[]string]. *)
Fixpoint stringsOf (elems : list json.Value) : option (list string) :=
  match elems with
  | [] => Some []
  | json.JString x :: rest => option_map (cons x) (stringsOf rest)
  | json.JNull :: rest => option_map (cons "") (stringsOf rest)
  | _ :: _ => None
  end.

Definition isNull (v : json.Value) : bool :=
  match v with
  | json.JNull => true
  | _ => false
  end.

Fixpoint unmarshal (into : TypeSchema.t) (doc : json.Value) {struct doc}
  : decoded TypeSchema.t :=
  match doc with
  | json.JNull => Decoded into
  | json.JObject members =>
      (fix object (into : TypeSchema.t)
           (members : list (string * json.Value)) {struct members}
         : decoded TypeSchema.t :=
         match members with
         | [] => Decoded into
         | (k, v) :: rest =>
             let key := strings.ToLower k in
             if negb (strings.isASCII k) then Unmodelled
             else if String.eqb key "type" then
               match v with
               | json.JString x => object (TypeSchema.withType into x) rest
               | json.JNull => object into rest
               | _ => SchemaDecodeFailed
               end
             else if String.eqb key "required" then
               match v with
               | json.JNull => object (TypeSchema.withRequired into []) rest
               | json.JArray elems =>
                   match stringsOf elems with
                   | Some l =>
                       match TypeSchema.Required into with
                       | _ :: _ =>
                           if existsb isNull elems then Unmodelled
                           else object (TypeSchema.withRequired into l) rest
                       | [] => object (TypeSchema.withRequired into l) rest
                       end
                   | None => SchemaDecodeFailed
                   end
               | _ => SchemaDecodeFailed
               end
             else if String.eqb key "items" then
               match v with
               | json.JNull => object (TypeSchema.withItems into None) rest
               | _ =>
                   match
                     unmarshal
                       match TypeSchema.Items into with
                       | Some i => i
                       | None => TypeSchema.zero
                       end v
                   with
                   | Decoded i =>
                       object (TypeSchema.withItems into (Some i)) rest
                   | r => r
                   end
               end
             else if String.eqb key "properties" then
               match v with
               | json.JNull =>
                   object (TypeSchema.withProperties into None) rest
               | json.JObject props =>
                   match
                     (fix entries (m : gomap.t TypeSchema.t)
                          (props : list (string * json.Value))
                          {struct props}
                        : decoded (gomap.t TypeSchema.t) :=
                        match props with
                        | [] => Decoded m
                        | (pk, json.JNull) :: _ => Unmodelled
                        | (pk, pv) :: props' =>
                            match unmarshal TypeSchema.zero pv with
                            | Decoded child =>
                                entries (gomap.set m pk child) props'
                            | SchemaDecodeFailed => SchemaDecodeFailed
                            | Unmodelled => Unmodelled
                            end
                        end)
                       match TypeSchema.Properties into with
                       | Some m => m
                       | None => []
                       end props
                   with
                   | Decoded m =>
                       object (TypeSchema.withProperties into (Some m)) rest
                   | SchemaDecodeFailed => SchemaDecodeFailed
                   | Unmodelled => Unmodelled
                   end
               | _ => SchemaDecodeFailed
               end
             else if existsb (String.eqb key) otherMembers then Unmodelled
             else object into rest
         end) into members
  | _ => SchemaDecodeFailed
  end.

Definition BuildSchemaFromJson (v : json.Value) : decoded TypeSchema.t :=
  unmarshal TypeSchema.zero v.

End utils.


(* ================================================================== *)
(** * Notions the statements use *)
(* ================================================================== *)

(** [d] lies below [m] in a descriptor tree: it is the [Item] of [m], one
    of its [Properties], or lies below one of those. *)
Inductive nestedIn : core.FieldMetadata.t -> core.FieldMetadata.t -> Prop :=
| nested_item m i :
    core.FieldMetadata.Item m = Some i -> nestedIn i m
| nested_property m props k p :
    core.FieldMetadata.Properties m = Some props ->
    In (k, p) props -> nestedIn p m
| nested_trans d c m :
    nestedIn d c -> nestedIn c m -> nestedIn d m.

(** The struct a value is, directly or behind one pointer. *)
Definition structBehind (value : option reflect.Value)
  : option (list (string * bool * reflect.Value)) :=
  match value with
  | Some (reflect.VStruct fs)
  | Some (reflect.VPointer (Some (reflect.VStruct fs))) => Some fs
  | _ => None
  end.


(** The [dspy] directive of a field marks it required: [required], up to
    white space around it, is one of the options that follow the name. *)
Definition markedRequired (tag : reflect.StructTag) : Prop :=
  exists opt,
    In opt (tl (strings.Split (reflect.Get tag "dspy") ","))
    /\ strings.TrimSpace opt = "required".

(** What a validator of a typed signature hands to [validateStruct] for
    an argument of the type parameter [T]: a value of [T]; when [T] is an
    interface type, the value the interface holds, of whatever type, or
    nil. *)
Definition argumentOf (value : option reflect.Value) (T : reflect.Type_)
  : Prop :=
  match T with
  | reflect.InterfaceType _ => True
  | _ => exists v, value = Some v /\ reflect.hasType v T = true
  end.

(** The path an error reports. *)
Definition errorPath (e : core.error) : string :=
  match e with
  | core.MalformedSignature _ => ""
  | core.EmptyValue ft | core.NotAStruct ft
  | core.RequiredFieldMissing ft _ => ft
  end.

(** The kinds both classifiers handle by a common rule: after at most one
    pointer, a string, a boolean, a signed integer, a struct, or a slice
    whose elements are not bytes. *)
Definition commonRule (t : reflect.Type_) : bool :=
  match reflect.derefOnce t with
  | reflect.StringType _ | reflect.BoolType _ | reflect.StructOf _ _ => true
  | reflect.IntegerType _
      (reflect.Kind.Int | reflect.Kind.Int8 | reflect.Kind.Int16
      | reflect.Kind.Int32 | reflect.Kind.Int64) => true
  | reflect.SliceOf _ elem =>
      negb (reflect.Kind.eqb (reflect.Kind elem)
                             (reflect.Kind.Integer reflect.Kind.Uint8))
  | _ => false
  end.

(** The schema tag that goes with a semantic type. *)
Definition corresponds (ft : core.FieldType) (tag : string) : Prop :=
  In (ft, tag)
     [(core.FieldTypeString, utils.TypeString);
      (core.FieldTypeBool, utils.TypeBoolean);
      (core.FieldTypeInt, utils.TypeInteger);
      (core.FieldTypeArray, utils.TypeArray);
      (core.FieldTypeObject, utils.TypeObject)].

(** The fields the synthesizer's loop does not skip, and among them those
    not marked [omitempty]. *)
Definition visible (fields : list reflect.StructField)
  : list reflect.StructField :=
  filter (fun f => String.eqb (reflect.StructField.PkgPath f) "") fields.

Definition notOptional (fields : list reflect.StructField)
  : list reflect.StructField :=
  filter (fun f => negb (utils.isOmitempty f)) (visible fields).





(** An instance as a call for the type parameters [TInput], [TOutput]
    creates it. *)
Definition built (TInput TOutput : reflect.Type_) (x : core.instance)
  : Prop :=
  core.implements x TInput TOutput
  /\ core.impl x = core.NewTypedSignature TInput TOutput.

(** What holds of the registry while only calls for one pair of type
    parameters run: what is published under their key was built by such a
    call and is one instance; a call either has not loaded yet, or holds an
    instance it built, or has returned the published instance. *)
Definition registryInv (TInput TOutput : reflect.Type_) (w : core.world)
  : Prop :=
  let key := core.getReflectTypes TInput TOutput in
  (forall x, In (key, x) (core.typedSignatureCache w) ->
             built TInput TOutput x)
  /\ (forall x y,
         In (key, x) (core.typedSignatureCache w) ->
         In (key, y) (core.typedSignatureCache w) -> x = y)
  /\ (forall c,
         In c (core.calls w) ->
         c = core.AtLoad TInput TOutput
         \/ (exists signature,
                c = core.AtLoadOrStore TInput TOutput signature
                /\ built TInput TOutput signature)
         \/ (exists result,
                c = core.Returned TInput TOutput result
                /\ In (key, result) (core.typedSignatureCache w))).

(** The steps the calls of a world have left at most: two for a call that
    has not loaded yet, one for a call about to store. *)
Definition stepsLeft (w : core.world) : nat :=
  list_sum
    (List.map (fun c =>
                 match c with
                 | core.AtLoad _ _ => 2
                 | core.AtLoadOrStore _ _ _ => 1
                 | _ => 0
                 end) (core.calls w)).

(** The loop over the fields of a struct in closed form: each visible
    field sets its property, and each visible field not marked
    [omitempty] appends its name to the required list. *)
Definition propertiesLoop (fields : list reflect.StructField)
           (m : gomap.t utils.TypeSchema.t) : gomap.t utils.TypeSchema.t :=
  fold_left
    (fun m f =>
       gomap.set m (utils.fieldName f)
                 (utils.buildSchemaFromType
                    (utils.baseType (reflect.StructField.Type_ f))))
    fields m.

(** The options the package offers. *)
Inductive standardOption : core.FieldOption -> Prop :=
| std_description desc : standardOption (core.WithDescription desc)
| std_custom_prefix prefix : standardOption (core.WithCustomPrefix prefix)
| std_no_prefix : standardOption core.WithNoPrefix
| std_field_type ty : standardOption (core.WithFieldType ty)
| std_array_type item : standardOption (core.WithArrayType item)
| std_object_type props : standardOption (core.WithObjectType props).

(** The first and the last byte of a string. *)
Definition firstByte (s : string) : option ascii :=
  match s with
  | EmptyString => None
  | String c _ => Some c
  end.

Fixpoint lastByte (s : string) : option ascii :=
  match s with
  | EmptyString => None
  | String c EmptyString => Some c
  | String _ rest => lastByte rest
  end.

(** Bytes of a string that satisfy a test. *)
Fixpoint countBytes (p : ascii -> bool) (s : string) : nat :=
  match s with
  | EmptyString => 0
  | String c rest => (if p c then 1 else 0) + countBytes p rest
  end.

Definition isComma (c : ascii) : bool := Ascii.eqb c ",".
Definition isNewline (c : ascii) : bool := Ascii.eqb c (ascii_of_nat 10).

(** A legacy field none of whose rendered parts holds a line break. *)
Definition oneLine (f : core.Field.t) : bool :=
  Nat.eqb (countBytes isNewline (core.Field.Name f)) 0
  && Nat.eqb (countBytes isNewline (core.Field.Type_ f)) 0
  && Nat.eqb (countBytes isNewline (core.Field.Description f)) 0.

(** The name of a legacy field, input or output. *)
Definition inputNames (sig : core.Signature.t) : list string :=
  List.map (fun i => core.Field.Name (core.InputField.Field i))
           (core.Signature.Inputs sig).

Definition outputNames (sig : core.Signature.t) : list string :=
  List.map (fun o => core.Field.Name (core.OutputField.Field o))
           (core.Signature.Outputs sig).

Definition isGreater (c : ascii) : bool := Ascii.eqb c ">".

(** A byte above the ASCII range: part of the encoding of a character
    that is not an ASCII character. *)
Definition isNotASCII (c : ascii) : bool := Nat.leb 128 (nat_of_ascii c).

(** A name as the shorthand notation is meant to carry it: not empty, free
    of commas and of [>], without whitespace at either end, and written in
    ASCII (where white space is the six bytes of [strings.isSpace]). *)
Definition cleanName (n : string) : bool :=
  negb (String.eqb n "")
  && Nat.eqb (countBytes isComma n) 0
  && Nat.eqb (countBytes isGreater n) 0
  && match firstByte n with
     | Some c => negb (strings.isSpace c)
     | None => true
     end
  && match lastByte n with
     | Some c => negb (strings.isSpace c)
     | None => true
     end
  && Nat.eqb (countBytes isNotASCII n) 0.

(** The shape of a descriptor tree: an array descriptor has an item and no
    properties, an object descriptor has properties, each filed under the
    name of its descriptor, and no item, any other descriptor has
    neither; the semantic type is one of the seven the introspector uses;
    and the same holds below. *)
Fixpoint wellShaped (m : core.FieldMetadata.t) : bool :=
  existsb (String.eqb (core.FieldMetadata.Type_ m))
          [core.FieldTypeString; core.FieldTypeBool; core.FieldTypeInt;
           core.FieldTypeImage; core.FieldTypeArray; core.FieldTypeObject;
           core.FieldTypeText]
  && match core.FieldMetadata.Item m with
     | Some i =>
         String.eqb (core.FieldMetadata.Type_ m) core.FieldTypeArray
         && wellShaped i
     | None =>
         negb (String.eqb (core.FieldMetadata.Type_ m) core.FieldTypeArray)
     end
  && match core.FieldMetadata.Properties m with
     | Some props =>
         String.eqb (core.FieldMetadata.Type_ m) core.FieldTypeObject
         && forallb (fun kv =>
                       String.eqb (fst kv) (core.FieldMetadata.Name (snd kv))
                       && wellShaped (snd kv)) props
     | None =>
         negb (String.eqb (core.FieldMetadata.Type_ m) core.FieldTypeObject)
     end.

(** The shape of a schema: an OBJECT node has properties and no items, an
    ARRAY node has items, no properties and no required names, a STRING,
    INTEGER, NUMBER or BOOLEAN node has none of the three, there is no
    other tag, and the same holds below. *)
Fixpoint schemaShaped (s : utils.TypeSchema.t) : bool :=
  match utils.TypeSchema.Properties s with
  | Some props =>
      String.eqb (utils.TypeSchema.Type_ s) utils.TypeObject
      && forallb (fun kv => schemaShaped (snd kv)) props
      && match utils.TypeSchema.Items s with
         | Some _ => false
         | None => true
         end
  | None =>
      match utils.TypeSchema.Items s with
      | Some i =>
          String.eqb (utils.TypeSchema.Type_ s) utils.TypeArray
          && schemaShaped i
      | None =>
          existsb (String.eqb (utils.TypeSchema.Type_ s))
                  [utils.TypeString; utils.TypeInteger; utils.TypeNumber;
                   utils.TypeBoolean]
      end
      && match utils.TypeSchema.Required s with
         | [] => true
         | _ :: _ => false
         end
  end.

(** [k] pointer levels around a type. *)
Fixpoint pointers (k : nat) (t : reflect.Type_) : reflect.Type_ :=
  match k with
  | O => t
  | S k' => reflect.PointerTo "" (pointers k' t)
  end.

(** A legacy field as the typed representation keeps it: name,
    description and type. *)
Definition eraseField (f : core.Field.t) : core.Field.t :=
  core.Field.mk (core.Field.Name f) (core.Field.Description f) ""
                (core.Field.Type_ f) None None.

Definition eraseSignature (sig : core.Signature.t) : core.Signature.t :=
  core.Signature.mk
    (List.map (fun i => core.InputField.mk
                          (eraseField (core.InputField.Field i)))
              (core.Signature.Inputs sig))
    (List.map (fun o => core.OutputField.mk
                          (eraseField (core.OutputField.Field o)))
              (core.Signature.Outputs sig))
    (core.Signature.Instruction sig).

(** A descriptor without what is nested in it. *)
Definition withoutNesting (m : core.FieldMetadata.t) : core.FieldMetadata.t :=
  core.FieldMetadata.mk
    (core.FieldMetadata.Name m) (core.FieldMetadata.GoFieldName m)
    (core.FieldMetadata.Required m) (core.FieldMetadata.Description m)
    (core.FieldMetadata.Prefix m) (core.FieldMetadata.Type_ m)
    (core.FieldMetadata.GoType m) None None.

(** Pairs of type parameters that never share a key unless they are the
    same pair. *)
Definition keyCompatible (P : reflect.Type_ -> reflect.Type_ -> Prop) : Prop :=
  forall a b c d,
    P a b -> P c d ->
    core.getReflectTypes a b = core.getReflectTypes c d ->
    a = c /\ b = d.

(** What holds of the registry while calls for the pairs of [P] run:
    every published instance was built for a pair of [P] and sits under
    that pair's key, a key has one instance, and every call is for a pair
    of [P] and has not loaded yet, or holds an instance it built, or has
    returned the instance published under its key. *)
Definition registryInvAll (P : reflect.Type_ -> reflect.Type_ -> Prop)
           (w : core.world) : Prop :=
  (forall k x,
      In (k, x) (core.typedSignatureCache w) ->
      P (core.TIn x) (core.TOut x)
      /\ k = core.getReflectTypes (core.TIn x) (core.TOut x)
      /\ core.impl x = core.NewTypedSignature (core.TIn x) (core.TOut x))
  /\ (forall k x y,
         In (k, x) (core.typedSignatureCache w) ->
         In (k, y) (core.typedSignatureCache w) -> x = y)
  /\ (forall c,
         In c (core.calls w) ->
         match c with
         | core.AtLoad a b => P a b
         | core.AtLoadOrStore a b signature => P a b /\ built a b signature
         | core.Returned a b result =>
             P a b
             /\ In (core.getReflectTypes a b, result)
                   (core.typedSignatureCache w)
             /\ built a b result
         | core.Panicked _ _ => False
         end).

(* ================================================================== *)
(** * Sample data *)
(* ================================================================== *)

(** A signature whose input slice has spare capacity: [append] writes the
    new field into the shared array. *)
Definition sharedHeap : core.mem.Heap :=
  core.mem.mkHeap
    [[core.InputField.mk (core.Field.named "question");
      core.InputField.mk (core.Field.named "")]]
    [[core.OutputField.mk (core.Field.named "answer")]].

Definition sharedSignature : core.mem.Signature :=
  core.mem.mkSignature (slice.mk 0 0 1 2) (slice.mk 0 0 1 1) "Answer.".

(** [struct { Tags []string `dspy:"tags,required"` }] and a value of it
    whose [Tags] is the empty, non-nil slice [[]string{}]. *)
Definition tArticle : reflect.Type_ :=
  reflect.StructOf "Article"
    [reflect.mkStructField "Tags" ""
       (reflect.SliceOf "" (reflect.StringType "string"))
       [("dspy", "tags,required")]].

Definition articleWithoutTags : reflect.Value :=
  reflect.VStruct [("Tags", true, reflect.VSlice (Some []))].

(** Three levels of structs:
    [struct { A struct { B struct { C string `dspy:"c,required"`; D int }
    `dspy:"b,required"` } `dspy:"a,required"` }], and a value of it whose
    [C] is empty and [D] is 1. *)
Definition tInner : reflect.Type_ :=
  reflect.StructOf "Inner"
    [reflect.mkStructField "C" "" (reflect.StringType "string")
       [("dspy", "c,required")];
     reflect.mkStructField "D" ""
       (reflect.IntegerType "int" reflect.Kind.Int) []].

Definition tMiddle : reflect.Type_ :=
  reflect.StructOf "Middle"
    [reflect.mkStructField "B" "" tInner [("dspy", "b,required")]].

Definition tOuter : reflect.Type_ :=
  reflect.StructOf "Outer"
    [reflect.mkStructField "A" "" tMiddle [("dspy", "a,required")]].

Definition outerValue (c : string) : reflect.Value :=
  reflect.VStruct
    [("A", true,
      reflect.VStruct
        [("B", true,
          reflect.VStruct
            [("C", true, reflect.VString c);
             ("D", true, reflect.VInteger reflect.Kind.Int 1%Z)])])].

(** [struct { Open Inner `dspy:"open,required"`; hidden Inner }] in
    package [main], and a value of it. *)
Definition tGuarded : reflect.Type_ :=
  reflect.StructOf "Guarded"
    [reflect.mkStructField "Open" "" tInner [("dspy", "open,required")];
     reflect.mkStructField "hidden" "main" tInner []].

Definition guardedValue : reflect.Value :=
  reflect.VStruct
    [("Open", true,
      reflect.VStruct
        [("C", true, reflect.VString "c");
         ("D", true, reflect.VInteger reflect.Kind.Int 0%Z)]);
     ("hidden", false,
      reflect.VStruct
        [("C", true, reflect.VString "");
         ("D", true, reflect.VInteger reflect.Kind.Int 0%Z)])].


(** [struct { Meta map[string]string `dspy:"meta,required"` }] and a value
    whose [Meta] is a map with one entry. *)
Definition tTagged : reflect.Type_ :=
  reflect.StructOf "Tagged"
    [reflect.mkStructField "Meta" ""
       (reflect.MapOf "" (reflect.StringType "string")
                      (reflect.StringType "string"))
       [("dspy", "meta,required")]].

Definition taggedValue : reflect.Value :=
  reflect.VStruct
    [("Meta", true,
      reflect.VMap (Some [(reflect.VString "k", reflect.VString "v")]))].

(** The document [{"type": "OBJECT", "required": ["x"]}]. *)
Definition strayRequired : json.Value :=
  json.JObject [("type", json.JString "OBJECT");
                ("required", json.JArray [json.JString "x"])].

(** [struct { Question string; Hits []int `dspy:"hits"` }] and its zero
    value. *)
Definition tPlain : reflect.Type_ :=
  reflect.StructOf "Plain"
    [reflect.mkStructField "Question" "" (reflect.StringType "string") [];
     reflect.mkStructField "Hits" ""
       (reflect.SliceOf "" (reflect.IntegerType "int" reflect.Kind.Int))
       [("dspy", "hits")]].

Definition plainZero : reflect.Value :=
  reflect.VStruct [("Question", true, reflect.VString "");
                   ("Hits", true, reflect.VSlice None)].

Definition tBytes : reflect.Type_ :=
  reflect.SliceOf "" (reflect.IntegerType "uint8" reflect.Kind.Uint8).

Definition tStrings : reflect.Type_ :=
  reflect.SliceOf "" (reflect.StringType "string").

Definition tIntPtrPtr : reflect.Type_ :=
  reflect.PointerTo ""
    (reflect.PointerTo "" (reflect.IntegerType "int" reflect.Kind.Int)).

Definition tStringPtrPtr : reflect.Type_ :=
  reflect.PointerTo "" (reflect.PointerTo "" (reflect.StringType "string")).

(** Two concurrent first calls for the same pair of type parameters, and
    the world after both missed on [Load], the second stored its instance
    and the first got that instance back from [LoadOrStore]. *)
Definition raceInstance (n : nat) : core.instance :=
  core.mkInstance n tArticle tOuter (core.NewTypedSignature tArticle tOuter).

Definition raceStart : core.world :=
  core.mkWorld [] 0 (repeat (core.AtLoad tArticle tOuter) 2).

Definition raceEnd : core.world :=
  core.mkWorld
    [(core.getReflectTypes tArticle tOuter, raceInstance 1)] 2
    [core.Returned tArticle tOuter (raceInstance 1);
     core.Returned tArticle tOuter (raceInstance 1)].

(** Two required string descriptors and a struct in which both fields are
    empty. *)
Definition descX : core.FieldMetadata.t :=
  core.parseFieldMetadataRecursive
    (reflect.mkStructField "X" "" (reflect.StringType "string")
       [("dspy", "x,required")]) true.

Definition descY : core.FieldMetadata.t :=
  core.parseFieldMetadataRecursive
    (reflect.mkStructField "Y" "" (reflect.StringType "string")
       [("dspy", "y,required")]) true.

Definition bothEmpty : reflect.Value :=
  reflect.VStruct [("X", true, reflect.VString "");
                   ("Y", true, reflect.VString "")].

(** Two calls for one pair of type parameters and one for another. *)
Definition mixedCalls : list core.call :=
  [core.AtLoad tArticle tOuter; core.AtLoad tOuter tArticle;
   core.AtLoad tArticle tOuter].

(* ================================================================== *)
(** * The shorthand parser *)
(* ================================================================== *)

Section Shorthand.

Import strings.

Lemma HasPrefix_arrow (s : string) :
  HasPrefix s "->" = true <->
  exists rest, s = String "-" (String ">" rest).
Proof.
  split.
  - destruct s as [|c [|d rest]]; cbn [HasPrefix]; try discriminate.
    + destruct (Ascii.eqb c "-"); discriminate.
    + destruct (Ascii.eqb c "-") eqn:Hc; [|discriminate].
      destruct (Ascii.eqb d ">") eqn:Hd; [|discriminate].
      apply Ascii.eqb_eq in Hc, Hd. subst. now exists rest.
  - intros [rest ->]. reflexivity.
Qed.

(** The pieces [scan] cuts: one more than there are arrows, whether the
    scan starts on a fresh byte or on the second byte of an arrow. *)
Lemma scan_arrow_length (s : string) :
  (forall cur, List.length (scan "->" 0 cur s) = S (occurrences "->" s))
  /\ (forall cur,
         List.length (scan "->" 1 cur s)
         = S (occurrences "->" (match s with
                                 | EmptyString => ""
                                 | String _ rest => rest
                                 end))).
Proof.
  induction s as [|c rest [IH0 IH1]].
  - split; reflexivity.
  - split; intros cur.
    + cbn [scan occurrences].
      destruct (HasPrefix (String c rest) "->") eqn:Hp.
      * apply HasPrefix_arrow in Hp as [rest' Hs].
        injection Hs as -> ->.
        cbn [List.length String.length Nat.sub].
        rewrite IH1. cbn [occurrences].
        replace (HasPrefix (String ">" rest') "->") with false
          by reflexivity.
        reflexivity.
      * rewrite IH0. reflexivity.
    + cbn [scan]. apply IH0.
Qed.

Lemma Split_arrow_length (s : string) :
  List.length (Split s "->") = S (occurrences "->" s).
Proof. apply (proj1 (scan_arrow_length s)). Qed.

Lemma ParseSignature_cases (s : string) :
  (List.length (Split s "->") = 2
   /\ exists sig, core.ParseSignature s = inl sig)
  \/ (List.length (Split s "->") <> 2
      /\ core.ParseSignature s = inr (core.MalformedSignature s)).
Proof.
  unfold core.ParseSignature.
  destruct (Split s "->") as [|p0 [|p1 [|p2 l]]]; cbn [List.length].
  - right. split; [lia | reflexivity].
  - right. split; [lia | reflexivity].
  - left. split; [reflexivity | eauto].
  - right. split; [lia | reflexivity].
Qed.

End Shorthand.

(** C4: [ParseSignature] fails, with [MalformedSignature], exactly when the
    arrow does not occur exactly once in the text; when it occurs exactly
    once the parse succeeds, so there is no other failure. *)
Theorem C4_parse_fails_iff_not_one_arrow (s : string) :
  (core.ParseSignature s = inr (core.MalformedSignature s)
   <-> strings.occurrences "->" s <> 1)
  /\ ((exists sig, core.ParseSignature s = inl sig)
      <-> strings.occurrences "->" s = 1)
  /\ (forall e, core.ParseSignature s = inr e
                -> e = core.MalformedSignature s).
Proof.
  pose proof (Split_arrow_length s) as Hlen.
  destruct (ParseSignature_cases s) as [[H2 [sig Hs]] | [H2 He]];
    rewrite Hlen in H2.
  - repeat split.
    + rewrite Hs. discriminate.
    + intros Hn. exfalso. apply Hn. lia.
    + intros _. lia.
    + intros _. now exists sig.
    + intros e. rewrite Hs. discriminate.
  - repeat split.
    + intros _ Hn. apply H2. lia.
    + intros _. exact He.
    + intros [sig Hs]. rewrite He in Hs. discriminate.
    + intros Hn. exfalso. apply H2. lia.
    + intros e. rewrite He. now intros [= <-].
Qed.

(** C5 (what the code does at the claim's own example): the shorthand
    ["a, b -> c"] parses into the inputs [a], [b] and the output [c] with
    empty description and prefix, but the [Type] of each field is the empty
    [FieldType], not [FieldTypeText], and the canonical text therefore shows
    an empty bracketed type for each field. *)
Theorem C5_shorthand_type_is_not_text :
  core.ParseSignature "a, b -> c"
  = inl (core.Signature.mk
           [core.InputField.mk (core.Field.mk "a" "" "" "" None None);
            core.InputField.mk (core.Field.mk "b" "" "" "" None None)]
           [core.OutputField.mk (core.Field.mk "c" "" "" "" None None)]
           "")
  /\ core.Field.Type_ (core.Field.named "a") <> core.FieldTypeText
  /\ core.fieldLine (core.Field.named "a")
     = "  - a [] ()" ++ String (ascii_of_nat 10) "".
Proof.
  repeat split.
  discriminate.
Qed.

(* ================================================================== *)
(** * Slices: what [append] changes and what it leaves alone *)
(* ================================================================== *)

Section SliceFacts.

Context {A : Type}.
Variable zero : A.
Variable growCap : nat -> nat -> nat.

Local Open Scope list_scope.

Implicit Types (h : slice.heap A) (s : slice.t) (xs arr : list A).

Lemma elems_length h s :
  slice.wf h s -> List.length (slice.elems h s) = slice.len s.
Proof.
  intros [Hlen Hcap]. unfold slice.elems.
  rewrite length_firstn, length_skipn. lia.
Qed.

Lemma nth_update h a (f : list A -> list A) b :
  nth b (slice.update h a f) []
  = if Nat.eqb a b then
      (if Nat.ltb a (List.length h) then f (nth a h []) else [])
    else nth b h [].
Proof.
  revert a b. induction h as [|arr h IH]; intros a b.
  - cbn. destruct (Nat.eqb a b); destruct b; reflexivity.
  - destruct a as [|a], b as [|b]; cbn [slice.update nth Nat.eqb];
      try reflexivity.
    rewrite IH. cbn [List.length].
    change (Nat.ltb (S a) (S (List.length h)))
      with (Nat.ltb a (List.length h)).
    reflexivity.
Qed.

Lemma firstn_skipn_prefix (l1 l2 : list A) off n :
  off + n <= List.length l1 ->
  firstn n (skipn off (l1 ++ l2)) = firstn n (skipn off l1).
Proof.
  intros Hn. rewrite skipn_app, firstn_app, length_skipn.
  replace (n - (List.length l1 - off)) with 0 by lia.
  cbn [firstn]. apply app_nil_r.
Qed.

Lemma firstn_skipn_of_prefix arr i off n :
  off + n <= i -> i <= List.length arr ->
  firstn n (skipn off arr) = firstn n (skipn off (firstn i arr)).
Proof.
  intros Hn Hi.
  rewrite <- (firstn_skipn i arr) at 1.
  apply firstn_skipn_prefix. rewrite length_firstn. lia.
Qed.

(** Writing [xs] at index [i] leaves the cells before [i] alone. *)
Lemma store_before arr i xs off n :
  off + n <= i -> i <= List.length arr ->
  firstn n (skipn off (slice.store arr i xs)) = firstn n (skipn off arr).
Proof.
  intros Hn Hi. unfold slice.store.
  rewrite firstn_skipn_prefix by (rewrite length_firstn; lia).
  symmetry. now apply firstn_skipn_of_prefix.
Qed.

(** ... and puts [xs] right behind them. *)
Lemma store_at arr i xs off n :
  off + n = i -> i + List.length xs <= List.length arr ->
  firstn (n + List.length xs) (skipn off (slice.store arr i xs))
  = firstn n (skipn off arr) ++ xs.
Proof.
  intros Hn Hi. unfold slice.store.
  rewrite app_assoc.
  rewrite firstn_skipn_prefix
    by (rewrite length_app, length_firstn; lia).
  rewrite (firstn_skipn_of_prefix arr i off n) by lia.
  rewrite skipn_app, length_firstn.
  replace (off - Nat.min i (List.length arr)) with 0 by lia.
  cbn [skipn].
  rewrite firstn_all2
    by (rewrite length_app, length_skipn, length_firstn; lia).
  rewrite (firstn_all2 (n := n))
    by (rewrite length_skipn, length_firstn; lia).
  reflexivity.
Qed.

(** A slice of the old heap reads the same in an extended heap. *)
Lemma elems_extend h more s :
  slice.wf h s -> slice.elems (h ++ more) s = slice.elems h s.
Proof.
  intros [Hlen Hcap]. unfold slice.elems.
  destruct (Nat.lt_ge_cases (slice.array s) (List.length h)) as [Hin|Hout].
  - now rewrite app_nth1.
  - rewrite (nth_overflow h) in * by exact Hout.
    cbn [List.length] in Hcap.
    replace (slice.len s) with 0 by lia. reflexivity.
Qed.

Lemma wf_extend h more s :
  slice.wf h s -> slice.wf (h ++ more) s.
Proof.
  intros [Hlen Hcap]. split; [exact Hlen|].
  destruct (Nat.lt_ge_cases (slice.array s) (List.length h)) as [Hin|Hout].
  - now rewrite app_nth1.
  - rewrite (nth_overflow h) in Hcap by exact Hout.
    cbn [List.length] in Hcap. lia.
Qed.

(** [append] returns a slice that reads as the old elements followed by
    the new ones. *)
Lemma append_elems h s xs :
  slice.wf h s ->
  slice.elems (fst (slice.append zero growCap h s xs))
              (snd (slice.append zero growCap h s xs))
  = slice.elems h s ++ xs.
Proof.
  intros Hwf. pose proof Hwf as [Hlen Hcap]. unfold slice.append.
  destruct (Nat.leb (slice.len s + List.length xs) (slice.cap s)) eqn:Hfit;
    cbn [fst snd].
  - apply Nat.leb_le in Hfit.
    unfold slice.elems.
    cbn [slice.array slice.offset slice.len].
    rewrite nth_update, Nat.eqb_refl.
    destruct (Nat.ltb (slice.array s) (List.length h)) eqn:Hin.
    + apply store_at; lia.
    + apply Nat.ltb_ge in Hin.
      rewrite (nth_overflow h) in * by exact Hin.
      cbn [List.length] in Hcap.
      assert (List.length xs = 0) as Hxs by lia.
      destruct xs; [|discriminate].
      replace (slice.len s) with 0 by lia. reflexivity.
  - unfold slice.elems at 1.
    cbn [slice.array slice.offset slice.len skipn].
    rewrite nth_middle.
    rewrite app_assoc, firstn_app.
    rewrite length_app, (elems_length h s Hwf), Nat.sub_diag.
    cbn [firstn]. rewrite app_nil_r.
    apply firstn_all2. rewrite length_app, (elems_length h s Hwf). lia.
Qed.

(** The frame: a slice keeps its elements when [append] writes behind
    its last element, or into another array. *)
Lemma append_frame h s xs s2 :
  slice.wf h s -> slice.wf h s2 ->
  slice.array s2 <> slice.array s
  \/ slice.offset s2 + slice.len s2 <= slice.offset s + slice.len s ->
  slice.elems (fst (slice.append zero growCap h s xs)) s2
  = slice.elems h s2.
Proof.
  intros [Hlen Hcap] Hwf2 Hsep. unfold slice.append.
  destruct (Nat.leb (slice.len s + List.length xs) (slice.cap s)) eqn:Hfit;
    cbn [fst].
  - apply Nat.leb_le in Hfit. unfold slice.elems.
    rewrite nth_update.
    destruct (Nat.eqb (slice.array s) (slice.array s2)) eqn:Heq;
      [|reflexivity].
    apply Nat.eqb_eq in Heq.
    destruct Hsep as [Hne | Hbefore]; [congruence|].
    destruct (Nat.ltb (slice.array s) (List.length h)) eqn:Hin.
    + rewrite <- Heq. apply store_before; lia.
    + apply Nat.ltb_ge in Hin. rewrite <- Heq.
      now rewrite (nth_overflow h) by exact Hin.
  - now apply elems_extend.
Qed.

End SliceFacts.

(* ================================================================== *)
(** * [AppendInput] and [PrependOutput] *)
(* ================================================================== *)

Section AppendPrepend.

Variable growCap : nat -> nat -> nat.

Local Open Scope list_scope.

Lemma AppendInput_load h s name prefix description :
  core.mem.wf h s ->
  let r := core.AppendInput growCap h s name prefix description in
  core.mem.load (fst r) (snd r)
  = core.Signature.mk
      (core.Signature.Inputs (core.mem.load h s)
         ++ [core.InputField.mk
               (core.Field.mk name description prefix "" None None)])
      (core.Signature.Outputs (core.mem.load h s))
      (core.Signature.Instruction (core.mem.load h s))
  /\ core.mem.load (fst r) s = core.mem.load h s.
Proof.
  intros [Hin Hout]. unfold core.AppendInput.
  set (zero := core.InputField.mk (core.Field.named "")).
  set (new := core.InputField.mk _).
  pose proof (append_elems zero growCap (core.mem.inputArrays h)
                (core.mem.Inputs s) [new] Hin) as Hnew.
  pose proof (append_frame zero growCap (core.mem.inputArrays h)
                (core.mem.Inputs s) [new] (core.mem.Inputs s) Hin Hin
                (or_intror (Nat.le_refl _))) as Hold.
  destruct (slice.append zero growCap (core.mem.inputArrays h)
              (core.mem.Inputs s) [new]) as [arrays inputs].
  cbn [fst snd] in *. unfold core.mem.load.
  cbn [core.mem.inputArrays core.mem.outputArrays core.mem.Inputs
       core.mem.Outputs core.mem.Instruction core.Signature.Inputs
       core.Signature.Outputs core.Signature.Instruction].
  rewrite Hnew, Hold. split; reflexivity.
Qed.

Lemma PrependOutput_load h s name prefix description :
  core.mem.wf h s ->
  let r := core.PrependOutput growCap h s name prefix description in
  core.mem.load (fst r) (snd r)
  = core.Signature.mk
      (core.Signature.Inputs (core.mem.load h s))
      (core.OutputField.mk
         (core.Field.mk name description prefix "" None None)
         :: core.Signature.Outputs (core.mem.load h s))
      (core.Signature.Instruction (core.mem.load h s))
  /\ core.mem.load (fst r) s = core.mem.load h s.
Proof.
  intros [Hin Hout]. unfold core.PrependOutput, slice.literal.
  set (zero := core.OutputField.mk (core.Field.named "")).
  set (new := core.OutputField.mk _).
  set (arrays1 := core.mem.outputArrays h ++ [[new]]).
  set (lit := slice.mk _ 0 _ _).
  set (old := slice.elems (core.mem.outputArrays h) (core.mem.Outputs s)).
  assert (slice.wf arrays1 lit) as Hlit.
  { unfold slice.wf, lit, arrays1.
    cbn [slice.len slice.cap slice.offset slice.array List.length].
    rewrite nth_middle. cbn [List.length]. lia. }
  assert (slice.elems arrays1 lit = [new]) as Hlit_elems.
  { unfold slice.elems, lit, arrays1.
    cbn [slice.len slice.cap slice.offset slice.array List.length].
    now rewrite nth_middle. }
  pose proof (append_elems zero growCap arrays1 lit old Hlit) as Hnew.
  assert (slice.elems (fst (slice.append zero growCap arrays1 lit old))
                      (core.mem.Outputs s) = old) as Hold.
  { rewrite append_frame.
    - apply elems_extend, Hout.
    - exact Hlit.
    - apply wf_extend, Hout.
    - destruct (Nat.eq_dec (slice.array (core.mem.Outputs s))
                           (slice.array lit)) as [Heq|Hne];
        [right | now left].
      destruct Hout as [Hlen Hcap].
      unfold lit in Heq. cbn [slice.array] in Heq.
      rewrite nth_overflow in Hcap by lia.
      cbn [List.length] in Hcap.
      unfold lit. cbn [slice.offset slice.len]. lia. }
  destruct (slice.append zero growCap arrays1 lit old)
    as [arrays2 outputs].
  cbn [fst snd] in *. unfold core.mem.load.
  cbn [core.mem.inputArrays core.mem.outputArrays core.mem.Inputs
       core.mem.Outputs core.mem.Instruction core.Signature.Inputs
       core.Signature.Outputs core.Signature.Instruction].
  rewrite Hnew, Hold, Hlit_elems. split; reflexivity.
Qed.

End AppendPrepend.

(** C9: in any heap, [AppendInput] returns a signature that reads as the
    receiver with the new field behind its inputs, and [PrependOutput] one
    that reads as the receiver with the new field before its outputs; the
    receiver itself reads in the heap afterwards exactly as it did before
    (inputs, outputs and instruction), even when [append] wrote into an
    array the two signatures share. *)
Theorem C9_append_prepend_frame
        (growCap : nat -> nat -> nat) (h : core.mem.Heap)
        (s : core.mem.Signature) (name prefix description : string) :
  core.mem.wf h s ->
  (core.mem.load
     (fst (core.AppendInput growCap h s name prefix description))
     (snd (core.AppendInput growCap h s name prefix description))
   = core.Signature.mk
       (core.Signature.Inputs (core.mem.load h s)
          ++ [core.InputField.mk
                (core.Field.mk name description prefix "" None None)])%list
       (core.Signature.Outputs (core.mem.load h s))
       (core.Signature.Instruction (core.mem.load h s))
   /\ core.mem.load
        (fst (core.AppendInput growCap h s name prefix description)) s
      = core.mem.load h s)
  /\ (core.mem.load
        (fst (core.PrependOutput growCap h s name prefix description))
        (snd (core.PrependOutput growCap h s name prefix description))
      = core.Signature.mk
          (core.Signature.Inputs (core.mem.load h s))
          (core.OutputField.mk
             (core.Field.mk name description prefix "" None None)
             :: core.Signature.Outputs (core.mem.load h s))
          (core.Signature.Instruction (core.mem.load h s))
      /\ core.mem.load
           (fst (core.PrependOutput growCap h s name prefix description)) s
         = core.mem.load h s).
Proof.
  intros Hwf. split.
  - apply (AppendInput_load growCap h s name prefix description Hwf).
  - apply (PrependOutput_load growCap h s name prefix description Hwf).
Qed.

Lemma C9_append_prepend_frame_witness :
  core.mem.inputArrays
    (fst (core.AppendInput (fun _ needed => needed) sharedHeap
            sharedSignature "context" "" "facts"))
  = [[core.InputField.mk (core.Field.named "question");
      core.InputField.mk (core.Field.mk "context" "facts" "" "" None None)]]
  /\ core.mem.load
       (fst (core.AppendInput (fun _ needed => needed) sharedHeap
               sharedSignature "context" "" "facts")) sharedSignature
     = core.mem.load sharedHeap sharedSignature.
Proof.
  split.
  - reflexivity.
  - apply (C9_append_prepend_frame (fun _ needed => needed) sharedHeap
             sharedSignature "context" "" "facts").
    unfold core.mem.wf, slice.wf; simpl; lia.
Defined.

(* ================================================================== *)
(** * Go maps *)
(* ================================================================== *)

Section GoMapFacts.

Context {V : Type}.
Implicit Types (m : gomap.t V) (k : string) (v : V).

Lemma set_In m k v k' v' :
  In (k', v') (gomap.set m k v) -> (k', v') = (k, v) \/ In (k', v') m.
Proof.
  induction m as [|[k0 v0] m IH]; cbn [gomap.set].
  - intros [H|[]]. now left.
  - destruct (String.eqb k0 k).
    + intros [H|H]; [now left | right; now right].
    + intros [H|H]; [right; now left |].
      destruct (IH H) as [E|E]; [now left | right; now right].
Qed.

Lemma keys_set m k v k' :
  In k' (gomap.keys (gomap.set m k v)) <-> k' = k \/ In k' (gomap.keys m).
Proof.
  unfold gomap.keys.
  induction m as [|[k0 v0] m IH]; cbn [gomap.set map In fst].
  - intuition.
  - destruct (String.eqb k0 k) eqn:E; cbn [map In fst].
    + apply String.eqb_eq in E. subst. intuition.
    + rewrite IH. intuition.
Qed.

Lemma set_values m k v v' :
  In v' (gomap.values (gomap.set m k v)) ->
  v' = v \/ In v' (gomap.values m).
Proof.
  unfold gomap.values. intros H.
  apply in_map_iff in H as [[k0 v0] [<- H]].
  apply set_In in H as [[= _ ->]|H]; [now left|].
  right. apply in_map_iff. now exists (k0, v0).
Qed.

End GoMapFacts.

(* ================================================================== *)
(** * The introspector *)
(* ================================================================== *)

(** [parseFieldMetadataRecursive] in the shape of the source: the record
    built from the tag, then the nesting switch on the inferred type. *)
Lemma parseFieldMetadataRecursive_unfold field isInput :
  core.parseFieldMetadataRecursive field isInput
  = let name := core.tagName (reflect.StructField.Name field)
                             (reflect.StructField.Tag field) in
    let type := core.inferFieldType (reflect.StructField.Type_ field) in
    core.FieldMetadata.mk
      name (reflect.StructField.Name field)
      (core.tagRequired (reflect.StructField.Tag field))
      (core.tagDescription (reflect.StructField.Name field)
                           (reflect.StructField.Tag field))
      (core.tagPrefix name (reflect.StructField.Tag field) isInput)
      type (reflect.StructField.Type_ field)
      (if String.eqb type core.FieldTypeArray
       then core.parseArrayElement (reflect.StructField.Type_ field)
       else None)
      (if String.eqb type core.FieldTypeObject
       then Some (core.parseObjectProperties (reflect.StructField.Type_ field))
       else None).
Proof.
  destruct field as [n p ty tag].
  unfold core.parseFieldMetadataRecursive.
  cbn [reflect.StructField.Name reflect.StructField.Tag
       reflect.StructField.Type_].
  destruct ty as [| | | | | | |? e| | | | |]; try reflexivity.
  destruct e; reflexivity.
Qed.

Lemma parseObjectProperties_In t k p :
  In (k, p) (core.parseObjectProperties t) ->
  exists sf,
    In sf (reflect.Fields (reflect.derefOnce t))
    /\ reflect.StructField.IsExported sf = true
    /\ p = core.parseFieldMetadataRecursive sf true
    /\ k = core.FieldMetadata.Name p.
Proof.
  unfold core.parseObjectProperties.
  generalize (reflect.Fields (reflect.derefOnce t)) as fields.
  intros fields.
  assert (forall acc,
             In (k, p) (fold_left
                          (fun props sf =>
                             if reflect.StructField.IsExported sf
                             then gomap.set props
                                    (core.FieldMetadata.Name
                                       (core.parseFieldMetadataRecursive sf true))
                                    (core.parseFieldMetadataRecursive sf true)
                             else props) fields acc) ->
             In (k, p) acc
             \/ exists sf,
                 In sf fields
                 /\ reflect.StructField.IsExported sf = true
                 /\ p = core.parseFieldMetadataRecursive sf true
                 /\ k = core.FieldMetadata.Name p) as H.
  { induction fields as [|sf fields IH]; intros acc; cbn [fold_left].
    - now left.
    - intros Hin. destruct (IH _ Hin) as [Hacc | (sf' & Hsf' & Hrest)].
      + destruct (reflect.StructField.IsExported sf) eqn:Hexp.
        * apply set_In in Hacc as [[= -> ->] | Hacc]; [|now left].
          right. exists sf. repeat split; auto. now left.
        * now left.
      + right. exists sf'. split; [now right | exact Hrest]. }
  intros Hin. destruct (H [] Hin) as [[] | Hex]. exact Hex.
Qed.

(** What lies directly below a descriptor built by the introspector was
    built by [parseFieldMetadataRecursive] with [isInput = true]. *)
Lemma child_built_as_input field isInput :
  (forall i,
      core.FieldMetadata.Item
        (core.parseFieldMetadataRecursive field isInput) = Some i ->
      exists elem,
        i = core.parseFieldMetadataRecursive
              (reflect.mkStructField (reflect.Name elem) "" elem []) true)
  /\ (forall props k p,
         core.FieldMetadata.Properties
           (core.parseFieldMetadataRecursive field isInput) = Some props ->
         In (k, p) props ->
         exists sf, p = core.parseFieldMetadataRecursive sf true).
Proof.
  rewrite parseFieldMetadataRecursive_unfold.
  cbn [core.FieldMetadata.Item core.FieldMetadata.Properties]. split.
  - intros i.
    destruct (String.eqb _ core.FieldTypeArray); [|discriminate].
    unfold core.parseArrayElement.
    destruct (reflect.Elem _) as [elem|]; [|discriminate].
    intros [= <-]. now exists elem.
  - intros props k p.
    destruct (String.eqb _ core.FieldTypeObject); [|discriminate].
    intros [= <-] Hin.
    apply parseObjectProperties_In in Hin as (sf & _ & _ & -> & _).
    now exists sf.
Qed.

Lemma nested_built_as_input d m :
  nestedIn d m ->
  (exists field isInput, m = core.parseFieldMetadataRecursive field isInput) ->
  exists sf, d = core.parseFieldMetadataRecursive sf true.
Proof.
  induction 1 as [m i Hi | m props k p Hp Hin | d c m _ IHd _ IHc];
    intros (field & isInput & ->).
  - destruct (proj1 (child_built_as_input field isInput) i Hi) as [e ->].
    eauto.
  - exact (proj2 (child_built_as_input field isInput) props k p Hp Hin).
  - destruct IHc as [sf ->]; eauto.
Qed.

Lemma input_defaults sf :
  core.FieldMetadata.Prefix (core.parseFieldMetadataRecursive sf true)
  = reflect.Get (reflect.StructField.Tag sf) "prefix"
  /\ core.FieldMetadata.Required (core.parseFieldMetadataRecursive sf true)
     = core.tagRequired (reflect.StructField.Tag sf).
Proof.
  rewrite parseFieldMetadataRecursive_unfold.
  cbn [core.FieldMetadata.Prefix core.FieldMetadata.Required].
  split; [|reflexivity].
  unfold core.tagPrefix.
  destruct (String.eqb (reflect.Get _ "prefix") "") eqn:E; [|reflexivity].
  apply String.eqb_eq in E. now rewrite E.
Qed.

(** The [dspy] directive and the required flag the parser reads off it. *)
Lemma tagRequired_markedRequired tag :
  core.tagRequired tag = true <-> markedRequired tag.
Proof.
  unfold core.tagRequired, markedRequired.
  destruct (String.eqb_spec (reflect.Get tag "dspy") "") as [E | E].
  - rewrite E. split; [discriminate|]. intros (opt & [] & _).
  - rewrite existsb_exists. split.
    + intros (opt & Hin & Heq). apply String.eqb_eq in Heq. eauto.
    + intros (opt & Hin & Heq). exists opt. split; [exact Hin|].
      now apply String.eqb_eq.
Qed.

(** What lies directly below a descriptor the introspector built. *)
Lemma children_of_described field isInput :
  (forall i,
      core.FieldMetadata.Item
        (core.parseFieldMetadataRecursive field isInput) = Some i ->
      exists elem,
        reflect.Elem (reflect.StructField.Type_ field) = Some elem
        /\ i = core.parseFieldMetadataRecursive
                 (reflect.mkStructField (reflect.Name elem) "" elem []) true
        /\ core.FieldMetadata.GoType i = elem
        /\ core.FieldMetadata.GoFieldName i = reflect.Name elem
        /\ core.FieldMetadata.Prefix i = ""
        /\ core.FieldMetadata.Required i = false)
  /\ (forall props k p,
         core.FieldMetadata.Properties
           (core.parseFieldMetadataRecursive field isInput) = Some props ->
         In (k, p) props ->
         exists sf,
           In sf (reflect.Fields
                    (reflect.derefOnce (reflect.StructField.Type_ field)))
           /\ reflect.StructField.IsExported sf = true
           /\ p = core.parseFieldMetadataRecursive sf true
           /\ core.FieldMetadata.GoFieldName p = reflect.StructField.Name sf
           /\ core.FieldMetadata.GoType p = reflect.StructField.Type_ sf
           /\ core.FieldMetadata.Prefix p
              = reflect.Get (reflect.StructField.Tag sf) "prefix"
           /\ (core.FieldMetadata.Required p = true
               <-> markedRequired (reflect.StructField.Tag sf))).
Proof.
  rewrite parseFieldMetadataRecursive_unfold.
  cbn [core.FieldMetadata.Item core.FieldMetadata.Properties]. split.
  - intros i.
    destruct (String.eqb _ core.FieldTypeArray); [|discriminate].
    unfold core.parseArrayElement.
    destruct (reflect.Elem _) as [elem|]; [|discriminate].
    intros [= <-]. exists elem. split; [reflexivity|].
    split; [reflexivity|].
    rewrite parseFieldMetadataRecursive_unfold. now cbn.
  - intros props k p.
    destruct (String.eqb _ core.FieldTypeObject); [|discriminate].
    intros [= <-] Hin.
    apply parseObjectProperties_In in Hin as (sf & Hsf & Hexp & -> & _).
    exists sf. destruct (input_defaults sf) as [Hp Hr].
    split; [exact Hsf|]. split; [exact Hexp|]. split; [reflexivity|].
    split; [|split; [|split; [exact Hp|]]].
    + rewrite parseFieldMetadataRecursive_unfold. reflexivity.
    + rewrite parseFieldMetadataRecursive_unfold. reflexivity.
    + rewrite Hr. apply tagRequired_markedRequired.
Qed.

(** C10: below every descriptor the introspector builds for a field, at
    any depth and whether the field is an input or an output.  The [Item]
    of an array descriptor describes the element type of the descriptor's
    Go type under the element type's name, with an empty prefix and not
    required.  Each entry of the [Properties] of an object descriptor
    describes an exported field [sf] of the struct behind the descriptor's
    Go type: its prefix is the [prefix] directive of [sf], hence empty
    without one and never [<name>:]; it is required exactly when the
    [dspy] directive of [sf] lists [required] after the name, hence not
    without a directive.  The descriptor of the field itself, by contrast,
    has without a [prefix] directive the prefix [<name>:] as an output and
    the empty prefix as an input. *)
Theorem C10_nested_descriptors_use_input_defaults
        (field : reflect.StructField) (isInput : bool)
        (m : core.FieldMetadata.t) :
  m = core.parseFieldMetadataRecursive field isInput
  \/ nestedIn m (core.parseFieldMetadataRecursive field isInput) ->
  (forall i,
      core.FieldMetadata.Item m = Some i ->
      exists elem,
        reflect.Elem (core.FieldMetadata.GoType m) = Some elem
        /\ core.FieldMetadata.GoType i = elem
        /\ core.FieldMetadata.GoFieldName i = reflect.Name elem
        /\ core.FieldMetadata.Prefix i = ""
        /\ core.FieldMetadata.Required i = false)
  /\ (forall props k p,
         core.FieldMetadata.Properties m = Some props ->
         In (k, p) props ->
         exists sf,
           In sf (reflect.Fields
                    (reflect.derefOnce (core.FieldMetadata.GoType m)))
           /\ reflect.StructField.IsExported sf = true
           /\ core.FieldMetadata.GoFieldName p = reflect.StructField.Name sf
           /\ core.FieldMetadata.GoType p = reflect.StructField.Type_ sf
           /\ core.FieldMetadata.Prefix p
              = reflect.Get (reflect.StructField.Tag sf) "prefix"
           /\ (core.FieldMetadata.Required p = true
               <-> markedRequired (reflect.StructField.Tag sf))
           /\ (reflect.Get (reflect.StructField.Tag sf) "prefix" = ""
               -> core.FieldMetadata.Prefix p = "")
           /\ (reflect.Get (reflect.StructField.Tag sf) "dspy" = ""
               -> core.FieldMetadata.Required p = false))
  /\ (reflect.Get (reflect.StructField.Tag field) "prefix" = "" ->
      core.FieldMetadata.Prefix
        (core.parseFieldMetadataRecursive field false)
      = core.FieldMetadata.Name
          (core.parseFieldMetadataRecursive field false) ++ ":"
      /\ core.FieldMetadata.Prefix
           (core.parseFieldMetadataRecursive field true) = "").
Proof.
  intros Hm.
  assert (exists f b, m = core.parseFieldMetadataRecursive f b)
    as (f & b & ->).
  { destruct Hm as [-> | Hnested]; [eauto|].
    destruct (nested_built_as_input m _ Hnested) as [sf ->]; eauto. }
  clear Hm.
  assert (core.FieldMetadata.GoType (core.parseFieldMetadataRecursive f b)
          = reflect.StructField.Type_ f) as ->
      by (rewrite parseFieldMetadataRecursive_unfold; reflexivity).
  destruct (children_of_described f b) as [Hitem Hprops].
  split; [|split].
  - intros i Hi.
    destruct (Hitem i Hi) as (elem & He & _ & Hrest). now exists elem.
  - intros props k p Hp Hin.
    destruct (Hprops props k p Hp Hin)
      as (sf & Hsf & Hexp & _ & Hn & Ht & Hpre & Hreq).
    exists sf. repeat (split; [assumption|]). split.
    + intros E. now rewrite Hpre.
    + intros E. destruct (core.FieldMetadata.Required p) eqn:R;
        [|reflexivity].
      destruct (proj1 Hreq eq_refl) as (opt & Hopt & _).
      rewrite E in Hopt. destruct Hopt.
  - intros E. rewrite !parseFieldMetadataRecursive_unfold.
    cbn [core.FieldMetadata.Prefix core.FieldMetadata.Name].
    unfold core.tagPrefix. rewrite E. split; reflexivity.
Qed.

Lemma C10_nested_descriptors_use_input_defaults_witness :
  exists sf,
    In sf (reflect.Fields
             (reflect.derefOnce
                (core.FieldMetadata.GoType
                   (core.parseFieldMetadataRecursive
                      (reflect.mkStructField "A" "" tMiddle
                                             [("dspy", "a,required")])
                      false))))
    /\ reflect.StructField.IsExported sf = true
    /\ core.FieldMetadata.GoFieldName
         (core.parseFieldMetadataRecursive
            (reflect.mkStructField "B" "" tInner [("dspy", "b,required")])
            true)
       = reflect.StructField.Name sf
    /\ core.FieldMetadata.GoType
         (core.parseFieldMetadataRecursive
            (reflect.mkStructField "B" "" tInner [("dspy", "b,required")])
            true)
       = reflect.StructField.Type_ sf
    /\ core.FieldMetadata.Prefix
         (core.parseFieldMetadataRecursive
            (reflect.mkStructField "B" "" tInner [("dspy", "b,required")])
            true)
       = reflect.Get (reflect.StructField.Tag sf) "prefix"
    /\ (core.FieldMetadata.Required
          (core.parseFieldMetadataRecursive
             (reflect.mkStructField "B" "" tInner [("dspy", "b,required")])
             true) = true
        <-> markedRequired (reflect.StructField.Tag sf))
    /\ (reflect.Get (reflect.StructField.Tag sf) "prefix" = ""
        -> core.FieldMetadata.Prefix
             (core.parseFieldMetadataRecursive
                (reflect.mkStructField "B" "" tInner
                                       [("dspy", "b,required")])
                true) = "")
    /\ (reflect.Get (reflect.StructField.Tag sf) "dspy" = ""
        -> core.FieldMetadata.Required
             (core.parseFieldMetadataRecursive
                (reflect.mkStructField "B" "" tInner
                                       [("dspy", "b,required")])
                true) = false).
Proof.
  apply (proj1 (proj2 (C10_nested_descriptors_use_input_defaults
                         (reflect.mkStructField "A" "" tMiddle
                                                [("dspy", "a,required")])
                         false _ (or_introl eq_refl)))
               (core.parseObjectProperties tMiddle) "b").
  - reflexivity.
  - left. reflexivity.
Defined.

(* ================================================================== *)
(** * The validator *)
(* ================================================================== *)

(** Induction on descriptor trees. *)
Section DescriptorInduction.

Variable P : core.FieldMetadata.t -> Prop.

Hypothesis below :
  forall m,
    (forall i, core.FieldMetadata.Item m = Some i -> P i) ->
    (forall props k p,
        core.FieldMetadata.Properties m = Some props ->
        In (k, p) props -> P p) ->
    P m.

Lemma descriptor_ind : forall m, P m.
Proof.
  fix IH 1. intros [n g r d px ty gt item props]. apply below.
  - cbn. destruct item as [i|]; intros i' [= <-]. apply IH.
  - cbn. destruct props as [l|]; intros l' k p [= <-].
    induction l as [|[k0 p0] l IHl]; [intros [] | intros [E|Hin]].
    + injection E as _ <-. apply IH.
    + now apply IHl.
Qed.

End DescriptorInduction.

Lemma validateFields_values v path (props : gomap.t core.FieldMetadata.t) :
  (fix loop (props : gomap.t core.FieldMetadata.t) : core.outcome :=
     match props with
     | [] => core.Ok
     | (_, p) :: rest =>
         match core.validateField v path p with
         | core.Ok => loop rest
         | r => r
         end
     end) props
  = core.validateFields v path (gomap.values props).
Proof.
  induction props as [|[k p] rest IH]; cbn [gomap.values map snd
                                             core.validateFields].
  - reflexivity.
  - destruct (core.validateField v path p); [exact IH | reflexivity ..].
Qed.

Lemma validateStruct_structBehind value expected fieldType :
  core.validateStruct value expected fieldType
  = match value with
    | None => core.Err (core.EmptyValue fieldType)
    | Some _ =>
        match structBehind value with
        | Some fs =>
            core.validateFields (reflect.VStruct fs) fieldType expected
        | None => core.Err (core.NotAStruct fieldType)
        end
    end.
Proof.
  destruct value as [[| | | |[[]|]| | | | | | | |]|]; reflexivity.
Qed.

(** One round of the loop with the nested call folded back into
    [validateStruct] on the field's value, the flattened properties and
    the extended path; the lookup, which has no effect of its own in this
    model, is shown where its result is used. *)
Lemma validateField_unfold v fieldType f :
  core.validateField v fieldType f
  = if negb (core.FieldMetadata.Required f) then core.Ok
    else
      match reflect.FieldByName v (core.FieldMetadata.GoFieldName f) with
      | None =>
          core.Err (core.RequiredFieldMissing fieldType
                      (core.FieldMetadata.Name f))
      | Some (exported, field) =>
          if reflect.IsZero field then
            core.Err (core.RequiredFieldMissing fieldType
                        (core.FieldMetadata.Name f))
          else if String.eqb (core.FieldMetadata.Type_ f)
                             core.FieldTypeObject
          then
            if negb exported then core.Panic
            else core.validateStruct
                   (reflect.Interface field)
                   (core.flatten (core.FieldMetadata.Properties f))
                   (fieldType ++ "." ++ core.FieldMetadata.Name f)
          else core.Ok
      end.
Proof.
  destruct f as [n g r d px ty gt item props].
  cbn [core.validateField core.FieldMetadata.Required
       core.FieldMetadata.GoFieldName core.FieldMetadata.Name
       core.FieldMetadata.Type_ core.FieldMetadata.Properties].
  destruct (negb r); [reflexivity|].
  destruct (reflect.FieldByName v g) as [[exported field]|]; [|reflexivity].
  destruct (reflect.IsZero field); [reflexivity|].
  destruct (String.eqb ty core.FieldTypeObject); [|reflexivity].
  destruct (negb exported); [reflexivity|].
  rewrite validateStruct_structBehind.
  destruct (reflect.Interface field) as [value|]; [|reflexivity].
  destruct value as [| | | |[[]|]| | | | | | | |]; try reflexivity;
    cbn [structBehind]; destruct props as [props|]; cbn [core.flatten];
    try reflexivity; apply validateFields_values.
Qed.

Lemma flatten_In m p :
  In p (core.flatten (core.FieldMetadata.Properties m)) ->
  exists props k,
    core.FieldMetadata.Properties m = Some props /\ In (k, p) props.
Proof.
  destruct (core.FieldMetadata.Properties m) as [props|]; cbn; [|intros []].
  unfold gomap.values. intros H.
  apply in_map_iff in H as [[k p'] [<- H]]. now exists props, k.
Qed.

(** The loop returns nil exactly when every round does. *)
Lemma validateFields_Ok v fieldType expected :
  core.validateFields v fieldType expected = core.Ok
  <-> forall f, In f expected -> core.validateField v fieldType f = core.Ok.
Proof.
  induction expected as [|f rest IH]; cbn [core.validateFields].
  - split; [intros _ f [] | reflexivity].
  - destruct (core.validateField v fieldType f) eqn:E.
    + rewrite IH. split.
      * intros H f' [<-|Hin]; auto.
      * intros H f' Hin. apply H. now right.
    + split; [discriminate|]. intros H.
      rewrite (H f (or_introl eq_refl)) in E. discriminate.
    + split; [discriminate|]. intros H.
      rewrite (H f (or_introl eq_refl)) in E. discriminate.
Qed.



Lemma length_append (a b : string) :
  String.length (a ++ b) = String.length a + String.length b.
Proof. induction a as [|c a IH]; cbn; [reflexivity | now rewrite IH]. Qed.

(** An error of one round names its field at the path of the call, or
    comes from a nested call and reports a longer path. *)
Lemma validateField_error_path f :
  forall v fieldType e,
    core.validateField v fieldType f = core.Err e ->
    e = core.RequiredFieldMissing fieldType (core.FieldMetadata.Name f)
    \/ String.length fieldType < String.length (errorPath e).
Proof.
  induction f as [f _ IHprops] using descriptor_ind.
  intros v fieldType e. rewrite validateField_unfold.
  destruct (negb (core.FieldMetadata.Required f)); [discriminate|].
  destruct (reflect.FieldByName v (core.FieldMetadata.GoFieldName f))
    as [[exported field]|]; [|intros [= <-]; now left].
  destruct (reflect.IsZero field); [intros [= <-]; now left|].
  destruct (String.eqb (core.FieldMetadata.Type_ f) core.FieldTypeObject);
    [|discriminate].
  destruct (negb exported); [discriminate|].
  set (path := fieldType ++ "." ++ core.FieldMetadata.Name f).
  assert (String.length fieldType < String.length path) as Hpath.
  { unfold path. rewrite !length_append. cbn. lia. }
  rewrite validateStruct_structBehind.
  destruct (reflect.Interface field) as [value|];
    [|intros [= <-]; now right].
  destruct (structBehind (Some value)) as [fs|];
    [|intros [= <-]; now right].
  generalize (fun p Hp => flatten_In f p Hp).
  generalize (core.flatten (core.FieldMetadata.Properties f)) as l.
  induction l as [|p l IHl]; intros Hl; cbn [core.validateFields];
    [discriminate|].
  destruct (core.validateField (reflect.VStruct fs) path p) eqn:Hp.
  - apply IHl. intros q Hq. apply Hl. now right.
  - intros [= <-]. right.
    destruct (Hl p (or_introl eq_refl)) as (props & k & Hprops & Hin).
    destruct (IHprops props k p Hprops Hin _ _ _ Hp) as [-> | Hlt];
      cbn [errorPath]; lia.
  - discriminate.
Qed.

Lemma validateFields_error_path v fieldType expected e :
  core.validateFields v fieldType expected = core.Err e ->
  (exists name, e = core.RequiredFieldMissing fieldType name)
  \/ String.length fieldType < String.length (errorPath e).
Proof.
  induction expected as [|f rest IH]; cbn [core.validateFields];
    [discriminate|].
  destruct (core.validateField v fieldType f) eqn:Hf.
  - exact IH.
  - intros [= <-].
    destruct (validateField_error_path f _ _ _ Hf) as [-> | Hlt]; eauto.
  - discriminate.
Qed.

(** [flatten] ranges over a Go map, whose order of visit is unspecified.
    Whether the loop returns nil does not depend on the order of the
    descriptors; which error it returns does. *)
Lemma validateFields_Ok_Permutation v fieldType expected expected' :
  Permutation expected expected' ->
  core.validateFields v fieldType expected = core.Ok
  <-> core.validateFields v fieldType expected' = core.Ok.
Proof.
  intros Hperm. rewrite !validateFields_Ok. split; intros H f Hf; apply H.
  - now apply (Permutation_in f (Permutation_sym Hperm)).
  - now apply (Permutation_in f Hperm).
Qed.

Lemma first_error_follows_the_order :
  core.validateFields bothEmpty "input.a" [descX; descY]
  = core.Err (core.RequiredFieldMissing "input.a" "x")
  /\ core.validateFields bothEmpty "input.a" [descY; descX]
     = core.Err (core.RequiredFieldMissing "input.a" "y").
Proof. split; reflexivity. Qed.

(** C8: [validateStruct] returns the error [EmptyValue] of its own path
    exactly when the value is nil, and the error [NotAStruct] of its own
    path exactly when the value is not nil and is not a struct after one
    pointer dereference; in both cases the result is that error whatever
    the expected fields are (none of them is examined), and it is a
    returned error, not a panic. *)
Theorem C8_validate_nil_and_non_struct
        (value : option reflect.Value)
        (expected : list core.FieldMetadata.t) (fieldType : string) :
  (core.validateStruct value expected fieldType
   = core.Err (core.EmptyValue fieldType)
   <-> value = None)
  /\ (core.validateStruct value expected fieldType
      = core.Err (core.NotAStruct fieldType)
      <-> value <> None /\ structBehind value = None)
  /\ (structBehind value = None ->
      forall expected',
        core.validateStruct value expected' fieldType
        = core.validateStruct value expected fieldType)
  /\ (structBehind value = None ->
      core.validateStruct value expected fieldType <> core.Panic).
Proof.
  assert (forall fs e,
             core.validateFields (reflect.VStruct fs) fieldType expected
             = core.Err e ->
             e <> core.EmptyValue fieldType
             /\ e <> core.NotAStruct fieldType) as Hnested.
  { intros fs e He.
    destruct (validateFields_error_path _ _ _ _ He) as [[name ->] | Hlt].
    - split; discriminate.
    - split; intros ->; cbn [errorPath] in Hlt; lia. }
  repeat split.
  - rewrite validateStruct_structBehind.
    destruct value as [v|]; [|reflexivity].
    destruct (structBehind (Some v)) as [fs|]; [|discriminate].
    intros He. now destruct (Hnested fs _ He).
  - intros ->. reflexivity.
  - rewrite validateStruct_structBehind in H.
    destruct value as [v|]; discriminate.
  - rewrite validateStruct_structBehind in H.
    destruct value as [v|]; [|reflexivity].
    destruct (structBehind (Some v)) as [fs|]; [|reflexivity].
    now destruct (Hnested fs _ H).
  - intros [Hsome Hnone]. rewrite validateStruct_structBehind.
    destruct value as [v|]; [|congruence]. now rewrite Hnone.
  - intros Hnone expected'. rewrite !validateStruct_structBehind.
    destruct value as [v|]; [|reflexivity]. now rewrite Hnone.
  - intros Hnone. rewrite validateStruct_structBehind.
    destruct value as [v|]; [|discriminate]. rewrite Hnone. discriminate.
Qed.

(** ** Values of a type *)

(** The fields of a struct value and of its type, side by side. *)
Lemma hasType_struct fs n tfs :
  reflect.hasType (reflect.VStruct fs) (reflect.StructOf n tfs) = true ->
  reflect.exportedNamesOnce tfs = true
  /\ Forall2 (fun (f : string * bool * reflect.Value) tf =>
                fst (fst f) = reflect.StructField.Name tf
                /\ snd (fst f) = reflect.StructField.IsExported tf
                /\ reflect.hasType (snd f) (reflect.StructField.Type_ tf)
                   = true) fs tfs.
Proof.
  cbn [reflect.hasType]. rewrite andb_true_iff. intros [Honce H].
  split; [exact Honce|]. clear Honce. revert tfs H.
  induction fs as [|[[fn ex] fv] fs IH]; intros [|tf tfs] H;
    try discriminate; constructor.
  - apply andb_true_iff in H as [H _].
    apply andb_true_iff in H as [H Ht].
    apply andb_true_iff in H as [Hn He].
    apply String.eqb_eq in Hn. apply Bool.eqb_prop in He. now cbn.
  - apply IH. now apply andb_true_iff in H as [_ H].
Qed.

(** Looking up the name of a field of the type that shares its name with
    no other field gives the value of that field. *)
Lemma lookupField_typed fs tfs tf :
  Forall2 (fun (f : string * bool * reflect.Value) tf =>
             fst (fst f) = reflect.StructField.Name tf
             /\ snd (fst f) = reflect.StructField.IsExported tf
             /\ reflect.hasType (snd f) (reflect.StructField.Type_ tf)
                = true) fs tfs ->
  In tf tfs ->
  count_occ string_dec (List.map reflect.StructField.Name tfs)
            (reflect.StructField.Name tf) = 1 ->
  exists fv,
    reflect.lookupField fs (reflect.StructField.Name tf)
    = Some (reflect.StructField.IsExported tf, fv)
    /\ reflect.hasType fv (reflect.StructField.Type_ tf) = true.
Proof.
  induction 1 as [|[[fn ex] fv] tf0 fs tfs (Hn & He & Ht) _ IH];
    intros Hin Hcount; [destruct Hin|].
  cbn [fst snd] in Hn, He, Ht. subst fn ex.
  cbn [reflect.lookupField List.map count_occ] in *.
  destruct (string_dec (reflect.StructField.Name tf0)
                       (reflect.StructField.Name tf)) as [E | E].
  - rewrite (proj2 (String.eqb_eq _ _) E).
    assert (tf0 = tf) as <-.
    { destruct Hin as [Hin | Hin]; [exact Hin|]. exfalso.
      assert (In (reflect.StructField.Name tf)
                 (List.map reflect.StructField.Name tfs)) as Hname
          by (apply in_map_iff; now exists tf).
      apply (count_occ_In string_dec) in Hname. lia. }
    now exists fv.
  - rewrite (proj2 (String.eqb_neq _ _) E).
    destruct Hin as [-> | Hin]; [congruence|]. now apply IH.
Qed.

(** The struct behind a value of a type is a value of the struct type
    behind that type. *)
Lemma structBehind_typed v T fs n tfs :
  reflect.hasType v T = true ->
  structBehind (Some v) = Some fs ->
  reflect.derefOnce T = reflect.StructOf n tfs ->
  reflect.hasType (reflect.VStruct fs) (reflect.StructOf n tfs) = true.
Proof.
  intros Ht Hs HT.
  destruct T as [| | | | | | |pn e| | | | |sn sfs]; cbn in HT;
    try discriminate.
  - subst e. destruct v as [| | | |[[]|]| | | | | | | |]; cbn in Hs;
      try discriminate; injection Hs as <-; exact Ht.
  - injection HT as -> ->.
    destruct v as [| | | |[[]|]| | | | | | | |]; cbn in Hs;
      try discriminate; injection Hs as <-; exact Ht.
Qed.

(** Every descriptor of a type names an exported field of the type, and
    the lookup of that name in a value of the type finds that field's
    value. *)
Lemma described_field_located fs n tfs isInput f :
  reflect.hasType (reflect.VStruct fs) (reflect.StructOf n tfs) = true ->
  In f (core.parseStructFields (Some (reflect.StructOf n tfs)) isInput) ->
  exists sf fv,
    In sf tfs
    /\ reflect.StructField.IsExported sf = true
    /\ f = core.parseFieldMetadataRecursive sf isInput
    /\ reflect.FieldByName (reflect.VStruct fs)
                           (core.FieldMetadata.GoFieldName f)
       = Some (true, fv)
    /\ reflect.hasType fv (reflect.StructField.Type_ sf) = true.
Proof.
  intros Ht Hf. apply hasType_struct in Ht as [Honce Hfs].
  cbn [core.parseStructFields] in Hf.
  apply in_map_iff in Hf as (sf & <- & Hsf).
  apply filter_In in Hsf as [Hsf Hexp].
  unfold reflect.exportedNamesOnce in Honce.
  rewrite forallb_forall in Honce. specialize (Honce sf Hsf).
  rewrite Hexp in Honce. cbn [negb orb] in Honce.
  apply Nat.eqb_eq in Honce.
  destruct (lookupField_typed fs tfs sf Hfs Hsf Honce) as (fv & Hl & Hv).
  exists sf, fv. rewrite Hexp in Hl.
  rewrite parseFieldMetadataRecursive_unfold.
  cbn [core.FieldMetadata.GoFieldName reflect.FieldByName]. auto.
Qed.




(** A required field of map type is classified as an object, and a non-nil
    map is then refused as not being a struct. *)
Lemma required_map_is_refused :
  core.validateStruct (Some taggedValue)
                      (core.parseStructFields (Some tTagged) true) "input"
  = core.Err (core.NotAStruct "input.meta").
Proof. reflexivity. Qed.

(* ================================================================== *)
(** * The schema synthesizer *)
(* ================================================================== *)

(** Induction on type declarations. *)
Section TypeInduction.

Variable P : reflect.Type_ -> Prop.

Hypothesis leaf :
  forall t, reflect.Elem t = None -> reflect.Fields t = [] -> P t.
Hypothesis pointer : forall n e, P e -> P (reflect.PointerTo n e).
Hypothesis slice : forall n e, P e -> P (reflect.SliceOf n e).
Hypothesis array : forall n len e, P e -> P (reflect.ArrayOf n len e).
Hypothesis chan : forall n e, P e -> P (reflect.ChanOf n e).
Hypothesis map : forall n k e, P k -> P e -> P (reflect.MapOf n k e).
Hypothesis struct :
  forall n fields,
    Forall (fun f => P (reflect.StructField.Type_ f)) fields ->
    P (reflect.StructOf n fields).

Lemma type_ind : forall t, P t.
Proof.
  fix IH 1. intros [n|n i|n f|n|n|n|n|n e|n e|n len e|n e|n k e|n fields];
    try (apply leaf; reflexivity).
  - apply pointer, IH.
  - apply slice, IH.
  - apply array, IH.
  - apply chan, IH.
  - apply map; apply IH.
  - apply struct. induction fields as [|[fn fp ft fg] fields IHf].
    + constructor.
    + constructor; [apply IH | exact IHf].
Qed.

End TypeInduction.

Lemma existsb_eqb_In (r : string) (l : list string) :
  existsb (String.eqb r) l = true <-> In r l.
Proof.
  rewrite existsb_exists. split.
  - intros [x [Hin E]]. apply String.eqb_eq in E. now subst.
  - intros Hin. exists r. split; [exact Hin | apply String.eqb_refl].
Qed.

Lemma setProperty_mk ty m items req k c :
  utils.setProperty (utils.TypeSchema.mk ty (Some m) items req) k c
  = utils.TypeSchema.mk ty (Some (gomap.set m k c)) items req.
Proof. reflexivity. Qed.

Lemma appendRequired_mk ty p items req k :
  utils.appendRequired (utils.TypeSchema.mk ty p items req) k
  = utils.TypeSchema.mk ty p items (req ++ [k])%list.
Proof. reflexivity. Qed.

Lemma fieldsLoop_closed fields :
  forall ty m items req,
    fold_left
      (fun s f =>
         if negb (String.eqb (reflect.StructField.PkgPath f) "")
         then s
         else
           let fieldSchema :=
             utils.buildSchemaFromType
               (utils.baseType (reflect.StructField.Type_ f)) in
           let s := utils.setProperty s (utils.fieldName f) fieldSchema in
           if negb (utils.isOmitempty f)
           then utils.appendRequired s (utils.fieldName f)
           else s)
      fields (utils.TypeSchema.mk ty (Some m) items req)
    = utils.TypeSchema.mk
        ty (Some (propertiesLoop (visible fields) m)) items
        (req ++ List.map utils.fieldName (notOptional fields))%list.
Proof.
  unfold notOptional, visible, propertiesLoop.
  induction fields as [|f fields IH]; intros ty m items req;
    cbn [fold_left filter List.map].
  - now rewrite app_nil_r.
  - destruct (String.eqb (reflect.StructField.PkgPath f) "");
      cbn [negb fold_left filter]; [|apply IH].
    cbv zeta.
    destruct (negb (utils.isOmitempty f)); cbn [List.map];
      rewrite setProperty_mk, ?appendRequired_mk, IH; [|reflexivity].
    now rewrite <- app_assoc.
Qed.

Lemma buildSchemaFromType_struct n fields :
  utils.buildSchemaFromType (reflect.StructOf n fields)
  = utils.TypeSchema.mk
      utils.TypeObject (Some (propertiesLoop (visible fields) [])) None
      (List.map utils.fieldName (notOptional fields)).
Proof.
  change (utils.buildSchemaFromType (reflect.StructOf n fields))
    with (fold_left
            (fun s f =>
               if negb (String.eqb (reflect.StructField.PkgPath f) "")
               then s
               else
                 let fieldSchema :=
                   utils.buildSchemaFromType
                     (utils.baseType (reflect.StructField.Type_ f)) in
                 let s :=
                   utils.setProperty s (utils.fieldName f) fieldSchema in
                 if negb (utils.isOmitempty f)
                 then utils.appendRequired s (utils.fieldName f)
                 else s)
            fields
            (utils.TypeSchema.mk utils.TypeObject (Some []) None [])).
  apply fieldsLoop_closed.
Qed.

Lemma propertiesLoop_keys fields :
  forall m k,
    In k (gomap.keys (propertiesLoop fields m))
    <-> In k (gomap.keys m)
        \/ exists f, In f fields /\ utils.fieldName f = k.
Proof.
  unfold propertiesLoop.
  induction fields as [|f fields IH]; intros m k; cbn [fold_left].
  - split; [now left | intros [H | (f & [] & _)]; exact H].
  - rewrite IH, keys_set. split.
    + intros [[-> | H] | (g & Hg & Hname)].
      * right. exists f. split; [now left | reflexivity].
      * now left.
      * right. exists g. split; [now right | exact Hname].
    + intros [H | (g & [<- | Hg] & Hname)].
      * left. now right.
      * left. left. now symmetry.
      * right. now exists g.
Qed.

Lemma propertiesLoop_entries fields :
  forall m k c,
    In (k, c) (propertiesLoop fields m) ->
    In (k, c) m
    \/ exists f,
        In f fields
        /\ k = utils.fieldName f
        /\ c = utils.buildSchemaFromType
                 (utils.baseType (reflect.StructField.Type_ f)).
Proof.
  unfold propertiesLoop.
  induction fields as [|f fields IH]; intros m k c; cbn [fold_left].
  - now left.
  - intros H. apply IH in H as [H | (g & Hg & Hrest)].
    + apply set_In in H as [[= -> ->] | H]; [right | now left].
      exists f. repeat split. now left.
    + right. exists g. split; [now right | exact Hrest].
Qed.

(** The synthesizer's schemas keep [Required] within the keys of
    [Properties], at every level. *)
Lemma buildSchemaFromType_requiredDeclared t :
  utils.requiredDeclared (utils.buildSchemaFromType t) = true
  /\ utils.requiredDeclared (utils.buildSchemaFromType (utils.baseType t))
     = true.
Proof.
  induction t as [t He Hf | n e [IH IHb] | n e [IH IHb] | n len e [IH IHb]
                 | n e _ | n k e _ _ | n fields IH] using type_ind.
  - destruct t as [| ?[]| ?[]| | | | | | | | | |]; try discriminate;
      try (split; reflexivity).
    cbn in Hf. subst. split; reflexivity.
  - split; [reflexivity | exact IHb].
  - cbn [utils.baseType utils.buildSchemaFromType utils.requiredDeclared
         utils.TypeSchema.Properties utils.TypeSchema.Items
         utils.TypeSchema.Required].
    now rewrite IHb.
  - cbn [utils.baseType utils.buildSchemaFromType utils.requiredDeclared
         utils.TypeSchema.Properties utils.TypeSchema.Items
         utils.TypeSchema.Required].
    now rewrite IHb.
  - split; reflexivity.
  - split; reflexivity.
  - cbn [utils.baseType]. rewrite buildSchemaFromType_struct.
    assert (utils.requiredDeclared
              (utils.TypeSchema.mk
                 utils.TypeObject
                 (Some (propertiesLoop (visible fields) [])) None
                 (List.map utils.fieldName (notOptional fields))) = true)
      as H; [|now split].
    cbn [utils.requiredDeclared utils.TypeSchema.Properties
         utils.TypeSchema.Items utils.TypeSchema.Required].
    rewrite andb_true_r. apply andb_true_iff. split.
    + apply forallb_forall. intros r Hr. apply existsb_eqb_In.
      apply propertiesLoop_keys. right.
      apply in_map_iff in Hr as (f & <- & Hf).
      exists f. split; [|reflexivity].
      unfold notOptional in Hf. now apply filter_In in Hf.
    + apply forallb_forall. intros [k c] Hkc. cbn [snd].
      apply propertiesLoop_entries in Hkc as [[] | (f & Hf & _ & ->)].
      unfold visible in Hf. apply filter_In in Hf as [Hf _].
      rewrite Forall_forall in IH. exact (proj2 (IH f Hf)).
Qed.

(** C6, for the schemas the synthesizer derives: in every node of
    [buildSchemaFromType t], at every nesting level, each name of
    [Required] is a key of [Properties]. *)
Theorem C6_synthesized_required_within_properties (t : reflect.Type_) :
  utils.requiredDeclared (utils.BuildSchemaFromStruct t) = true.
Proof. apply buildSchemaFromType_requiredDeclared. Qed.

(** Against C6 as stated: the document
    [{"type": "OBJECT", "required": ["x"]}] decodes without error into a
    node whose [Required] names [x] although it has no properties. *)
Lemma C6_counterexample :
  utils.BuildSchemaFromJson strayRequired
  = utils.Decoded (utils.TypeSchema.mk "OBJECT" None None ["x"])
  /\ utils.requiredDeclared (utils.TypeSchema.mk "OBJECT" None None ["x"])
     = false.
Proof. split; reflexivity. Qed.










(** C2, where the two classifiers agree: for a field type that is, after
    at most one pointer, a string, a boolean, a signed integer, a struct or
    a slice of non-byte elements, the tag of the schema the synthesizer
    builds for the field goes with the semantic type the introspector
    infers (String with STRING, Bool with BOOLEAN, Int with INTEGER, Array
    with ARRAY, Object with OBJECT). *)
Theorem C2_classifiers_agree_on_common_kinds (t : reflect.Type_) :
  commonRule t = true ->
  corresponds (core.inferFieldType t)
              (utils.TypeSchema.Type_
                 (utils.buildSchemaFromType (utils.baseType t))).
Proof.
  assert (forall u,
             commonRule u = true -> reflect.derefOnce u = u ->
             utils.baseType u = u
             /\ corresponds (core.inferFieldType u)
                  (utils.TypeSchema.Type_ (utils.buildSchemaFromType u)))
    as Hdirect.
  { intros u Hu Hd. unfold commonRule, core.inferFieldType in *.
    rewrite Hd in *.
    destruct u as [n|n []|n f|n|n|n|n|n e|n e|n len e|n e|n k e|n fields];
      try discriminate; try (split; [reflexivity|]);
      try rewrite buildSchemaFromType_struct;
      unfold corresponds; cbn; try tauto.
    destruct (reflect.Kind.eqb (reflect.Kind e) _); [discriminate|].
    cbn; tauto. }
  intros Hc.
  destruct t as [n|n i|n f|n|n|n|n|n e|n e|n len e|n e|n k e|n fields];
    try (apply Hdirect; [exact Hc | reflexivity]).
  assert (commonRule e = true /\ reflect.derefOnce e = e) as [He Hd].
  { unfold commonRule in *. cbn [reflect.derefOnce] in Hc.
    destruct e; try discriminate; split; solve [reflexivity | exact Hc]. }
  destruct (Hdirect e He Hd) as [Hb Hcorr].
  cbn [utils.baseType]. rewrite Hb.
  unfold core.inferFieldType in *. cbn [reflect.derefOnce].
  now rewrite Hd in Hcorr.
Qed.

Lemma C2_classifiers_agree_on_common_kinds_witness :
  corresponds
    (core.inferFieldType (reflect.PointerTo "" tStrings))
    (utils.TypeSchema.Type_
       (utils.buildSchemaFromType
          (utils.baseType (reflect.PointerTo "" tStrings)))).
Proof.
  apply (C2_classifiers_agree_on_common_kinds (reflect.PointerTo "" tStrings)).
  reflexivity.
Defined.

(** Against C2 as stated: the introspector tells a byte slice (Image) from
    a string slice (Array) while the synthesizer gives both the tag ARRAY
    with STRING items, having no rule for bytes; and behind two pointers
    the introspector gives up (Text for both [**int] and [**string]) while
    the synthesizer unwraps every level (INTEGER and STRING). *)
Lemma C2_counterexample :
  (core.inferFieldType tBytes = core.FieldTypeImage
   /\ core.inferFieldType tStrings = core.FieldTypeArray
   /\ utils.buildSchemaFromType (utils.baseType tBytes)
      = utils.buildSchemaFromType (utils.baseType tStrings)
   /\ utils.TypeSchema.Type_ (utils.buildSchemaFromType (utils.baseType tBytes))
      = utils.TypeArray)
  /\ (core.inferFieldType tIntPtrPtr = core.FieldTypeText
      /\ core.inferFieldType tStringPtrPtr = core.FieldTypeText
      /\ utils.TypeSchema.Type_
           (utils.buildSchemaFromType (utils.baseType tIntPtrPtr))
         = utils.TypeInteger
      /\ utils.TypeSchema.Type_
           (utils.buildSchemaFromType (utils.baseType tStringPtrPtr))
         = utils.TypeString).
Proof. repeat split. Qed.

(* ================================================================== *)
(** * The signature registry *)
(* ================================================================== *)

Lemma Type_eq_dec : forall a b : reflect.Type_, {a = b} + {a <> b}
with StructField_eq_dec :
  forall f g : reflect.StructField, {f = g} + {f <> g}.
Proof.
  - decide equality; try apply string_dec; try apply Nat.eq_dec;
      try (decide equality).
  - decide equality; try apply string_dec.
    apply list_eq_dec. decide equality; apply string_dec.
Defined.

Lemma key_eq_dec (a b : core.signatureCacheKey) : {a = b} + {a <> b}.
Proof.
  assert (forall x y : option reflect.Type_, {x = y} + {x <> y}) as Hopt
      by (decide equality; apply Type_eq_dec).
  decide equality.
Defined.

(** A [sync.Map] holds an entry for a key or it does not. *)
Lemma cached_or_absent (m : core.cache) (key : core.signatureCacheKey) :
  (exists x, In (key, x) m) \/ core.absent m key.
Proof.
  induction m as [|[k x] m [[y Hy] | Habs]].
  - right. intros x [].
  - left. exists y. now right.
  - destruct (key_eq_dec k key) as [-> | Hne].
    + left. exists x. now left.
    + right. intros y [[= E _] | Hy]; [congruence | exact (Habs y Hy)].
Qed.

Section Registry.

Variables TInput TOutput : reflect.Type_.

Lemma registryInv_init m0 n0 N :
  core.absent m0 (core.getReflectTypes TInput TOutput) ->
  registryInv TInput TOutput
    (core.mkWorld m0 n0 (repeat (core.AtLoad TInput TOutput) N)).
Proof.
  intros Habs. unfold registryInv.
  cbn [core.typedSignatureCache core.calls].
  split; [|split].
  - intros x Hx. destruct (Habs x Hx).
  - intros x y Hx. destruct (Habs x Hx).
  - intros c Hc. left. now apply repeat_spec in Hc.
Qed.

Lemma registryInv_step w w' :
  registryInv TInput TOutput w -> core.step w w' ->
  registryInv TInput TOutput w'.
Proof.
  intros (Hbuilt & Hone & Hcalls) Hstep.
  destruct Hstep as [m n before c after m' n' c' Hc].
  cbn [core.typedSignatureCache core.calls] in *.
  assert (In c (before ++ c :: after)%list) as Hin
      by (apply in_or_app; right; now left).
  assert (forall c0, In c0 (before ++ c' :: after)%list ->
                     c0 = c' \/ In c0 (before ++ c :: after)%list) as Hothers.
  { intros c0 H0. apply in_app_or in H0 as [H0 | [H0 | H0]].
    - right. apply in_or_app. now left.
    - now left.
    - right. apply in_or_app. right. now right. }
  pose proof (Hcalls c Hin) as Hshape.
  destruct Hc as [m n TI TO cached Hcached Himpl
                 | m n TI TO cached Hcached Himpl
                 | m n TI TO Habs
                 | m n TI TO signature Habs
                 | m n TI TO signature actual Hcached Himpl
                 | m n TI TO signature actual Hcached Himpl];
    destruct Hshape as [E | [(sg & E & Hsg) | (r & E & Hr)]];
    try discriminate; injection E as -> ->; try subst sg.
  - (* Load finds the published instance *)
    unfold registryInv. cbn [core.typedSignatureCache core.calls].
    split; [exact Hbuilt | split; [exact Hone|]].
    intros c0 H0. destruct (Hothers c0 H0) as [-> | H1]; auto.
    right. right. now exists cached.
  - destruct Himpl. exact (proj1 (Hbuilt cached Hcached)).
  - (* Load misses: the call builds an instance *)
    unfold registryInv. cbn [core.typedSignatureCache core.calls].
    split; [exact Hbuilt | split; [exact Hone|]].
    intros c0 H0. destruct (Hothers c0 H0) as [-> | H1]; auto.
    right. left. eexists. split; [reflexivity|]. repeat split.
  - (* LoadOrStore publishes the call's instance *)
    unfold registryInv. cbn [core.typedSignatureCache core.calls].
    split; [|split].
    + intros x [[= <-] | Hx]; [exact Hsg | destruct (Habs x Hx)].
    + intros x y [[= <-] | Hx]; [|destruct (Habs x Hx)].
      intros [[= <-] | Hy]; [reflexivity | destruct (Habs y Hy)].
    + intros c0 H0. destruct (Hothers c0 H0) as [-> | H1].
      * right. right. exists signature. split; [reflexivity | now left].
      * destruct (Hcalls c0 H1) as [E | [(sg & E & Hsg') | (r & E & Hr)]].
        -- now left.
        -- right. left. now exists sg.
        -- right. right. exists r. split; [exact E | now right].
  - (* LoadOrStore finds another call's instance *)
    unfold registryInv. cbn [core.typedSignatureCache core.calls].
    split; [exact Hbuilt | split; [exact Hone|]].
    intros c0 H0. destruct (Hothers c0 H0) as [-> | H1]; auto.
    right. right. now exists actual.
  - destruct Himpl. exact (proj1 (Hbuilt actual Hcached)).
Qed.

Lemma registryInv_steps w w' :
  core.steps w w' -> registryInv TInput TOutput w ->
  registryInv TInput TOutput w'.
Proof.
  induction 1 as [w | w1 w2 w3 H12 _ IH]; intros Hinv; [exact Hinv|].
  apply IH. now apply (registryInv_step w1).
Qed.

(** A call that has not returned can take its next step. *)
Lemma registry_progress w :
  registryInv TInput TOutput w ->
  (exists c, In c (core.calls w) /\ core.running c = true) ->
  exists w', core.step w w'.
Proof.
  intros (Hbuilt & Hone & Hcalls) (c & Hin & Hrun).
  destruct w as [m n cs]. cbn [core.typedSignatureCache core.calls] in *.
  apply in_split in Hin as (before & after & ->).
  assert (In c (before ++ c :: after)%list) as Hin
      by (apply in_or_app; right; now left).
  destruct (Hcalls c Hin) as [-> | [(sg & -> & Hsg) | (r & -> & Hr)]];
    [| |discriminate];
    destruct (cached_or_absent m (core.getReflectTypes TInput TOutput)) as [[x Hx] | Habs].
  - eexists. apply core.StepCall.
    apply (core.LoadHit m n TInput TOutput x Hx), (Hbuilt x Hx).
  - eexists. apply core.StepCall. now apply core.LoadMiss.
  - eexists. apply core.StepCall.
    apply (core.Loaded m n TInput TOutput sg x Hx), (Hbuilt x Hx).
  - eexists. apply core.StepCall. now apply core.Stored.
Qed.

End Registry.

(** Published entries stay. *)
Lemma cache_grows w w' k x :
  core.steps w w' ->
  In (k, x) (core.typedSignatureCache w) ->
  In (k, x) (core.typedSignatureCache w').
Proof.
  induction 1 as [w | w1 w2 w3 H12 _ IH]; intros Hin; [exact Hin|].
  apply IH. destruct H12 as [m n before c after m' n' c' Hc].
  cbn [core.typedSignatureCache] in *.
  destruct Hc; auto. now right.
Qed.

(** Every step uses up one of the steps left. *)
Lemma step_decreases w w' :
  core.step w w' -> stepsLeft w' < stepsLeft w.
Proof.
  intros [m n before c after m' n' c' Hc]. unfold stepsLeft.
  cbn [core.calls].
  rewrite !map_app, !list_sum_app.
  destruct Hc; cbn [List.map list_sum fold_right]; lia.
Qed.

Lemma steps_decrease w w' :
  core.steps w w' -> stepsLeft w' <= stepsLeft w.
Proof.
  induction 1 as [w | w1 w2 w3 H12 _ IH]; [lia|].
  apply step_decreases in H12. lia.
Qed.

Lemma stepsLeft_start m n TInput TOutput N :
  stepsLeft (core.mkWorld m n (repeat (core.AtLoad TInput TOutput) N))
  = 2 * N.
Proof.
  unfold stepsLeft, list_sum. cbn [core.calls].
  induction N as [|N IH]; cbn [repeat List.map fold_right]; lia.
Qed.

(** C7: let any number of calls of [NewTypedSignatureCached] for one pair
    of type parameters run concurrently from a cache that has nothing
    under their key, and stop them anywhere.  No call has panicked; every
    call that has returned returned the instance published under the key,
    whose content is what [NewTypedSignature] builds for the pair; at most
    one instance is published under the key, so all returned instances are
    one and the same; however the calls go on, that instance stays
    published and is what every call returns; a call that has not
    returned can always take its next step, and every step uses up one of
    the at most two steps each call has, so every call returns. *)
Theorem C7_registry_publishes_one_instance
        (TInput TOutput : reflect.Type_) (N : nat)
        (m0 : core.cache) (n0 : nat) (w : core.world) :
  core.absent m0 (core.getReflectTypes TInput TOutput) ->
  core.steps
    (core.mkWorld m0 n0 (repeat (core.AtLoad TInput TOutput) N)) w ->
  (forall c, In c (core.calls w) ->
             core.running c = true
             \/ exists r, c = core.Returned TInput TOutput r)
  /\ (forall r,
         In (core.Returned TInput TOutput r) (core.calls w) ->
         In (core.getReflectTypes TInput TOutput, r)
            (core.typedSignatureCache w)
         /\ core.impl r = core.NewTypedSignature TInput TOutput)
  /\ (forall x y,
         In (core.getReflectTypes TInput TOutput, x)
            (core.typedSignatureCache w) ->
         In (core.getReflectTypes TInput TOutput, y)
            (core.typedSignatureCache w) ->
         x = y)
  /\ (forall r1 r2,
         In (core.Returned TInput TOutput r1) (core.calls w) ->
         In (core.Returned TInput TOutput r2) (core.calls w) ->
         r1 = r2)
  /\ (forall w' x,
         core.steps w w' ->
         In (core.getReflectTypes TInput TOutput, x)
            (core.typedSignatureCache w) ->
         In (core.getReflectTypes TInput TOutput, x)
            (core.typedSignatureCache w')
         /\ forall r,
             In (core.Returned TInput TOutput r) (core.calls w') -> r = x)
  /\ ((exists c, In c (core.calls w) /\ core.running c = true) ->
      exists w', core.step w w')
  /\ (forall w', core.step w w' -> stepsLeft w' < stepsLeft w)
  /\ stepsLeft w <= 2 * N.
Proof.
  intros Habs Hrun.
  pose proof (registryInv_steps TInput TOutput _ _ Hrun
                (registryInv_init TInput TOutput m0 n0 N Habs)) as Hinv.
  assert (forall w1,
             registryInv TInput TOutput w1 ->
             forall r,
               In (core.Returned TInput TOutput r) (core.calls w1) ->
               In (core.getReflectTypes TInput TOutput, r)
                  (core.typedSignatureCache w1)) as Hreturned.
  { intros w1 (_ & _ & Hcalls) r Hr.
    destruct (Hcalls _ Hr) as [E | [(sg & E & _) | (r' & E & Hr')]];
      try discriminate.
    now injection E as ->. }
  pose proof Hinv as (Hbuilt & Hone & Hcalls).
  split; [|split; [|split; [|split; [|split; [|split; [|split]]]]]].
  - intros c Hc.
    destruct (Hcalls c Hc) as [-> | [(sg & -> & _) | (r & -> & _)]].
    + now left.
    + now left.
    + right. now exists r.
  - intros r Hr. pose proof (Hreturned w Hinv r Hr) as Hpub.
    split; [exact Hpub | exact (proj2 (Hbuilt r Hpub))].
  - exact Hone.
  - intros r1 r2 H1 H2.
    apply Hone; now apply (Hreturned w Hinv).
  - intros w' x Hlater Hx.
    pose proof (registryInv_steps TInput TOutput _ _ Hlater Hinv) as Hinv'.
    pose proof (cache_grows _ _ _ _ Hlater Hx) as Hx'.
    split; [exact Hx'|]. intros r Hr.
    pose proof (Hreturned w' Hinv' r Hr) as Hr'.
    destruct Hinv' as (_ & Hone' & _).
    now apply Hone'.
  - now apply (registry_progress TInput TOutput).
  - apply step_decreases.
  - apply steps_decrease in Hrun.
    now rewrite stepsLeft_start in Hrun.
Qed.

(** The race of the sample data, step by step. *)
Lemma race_run : core.steps raceStart raceEnd.
Proof.
  assert (core.absent [] (core.getReflectTypes tArticle tOuter)) as Hempty
      by (intros x []).
  eapply core.StepsCons.
  { apply (core.StepCall [] 0 [] (core.AtLoad tArticle tOuter)
             [core.AtLoad tArticle tOuter]).
    apply core.LoadMiss. exact Hempty. }
  eapply core.StepsCons.
  { apply (core.StepCall [] 1 [_] (core.AtLoad tArticle tOuter) []).
    apply core.LoadMiss. exact Hempty. }
  eapply core.StepsCons.
  { apply (core.StepCall [] 2 [_] (core.AtLoadOrStore tArticle tOuter _) []).
    apply core.Stored. exact Hempty. }
  eapply core.StepsCons.
  { apply (core.StepCall _ 2 [] (core.AtLoadOrStore tArticle tOuter _) [_]).
    apply (core.Loaded _ _ _ _ _ (raceInstance 1)).
    - left. reflexivity.
    - split; reflexivity. }
  apply core.StepsRefl.
Qed.

Lemma C7_registry_publishes_one_instance_witness :
  core.steps raceStart raceEnd
  /\ forall r1 r2,
      In (core.Returned tArticle tOuter r1) (core.calls raceEnd) ->
      In (core.Returned tArticle tOuter r2) (core.calls raceEnd) ->
      r1 = r2.
Proof.
  split; [exact race_run|].
  apply (C7_registry_publishes_one_instance tArticle tOuter 2 [] 0 raceEnd).
  - intros x [].
  - exact race_run.
Defined.

(** Type parameters that differ by a pointer share a key: a call for
    [*Article] that finds the instance a call for [Article] published
    fails its type assertion. *)
Lemma pointer_and_value_parameters_share_a_key :
  core.getReflectTypes (reflect.PointerTo "" tArticle) tOuter
  = core.getReflectTypes tArticle tOuter
  /\ core.callStep
       (core.typedSignatureCache raceEnd) 2
       (core.AtLoad (reflect.PointerTo "" tArticle) tOuter)
       (core.typedSignatureCache raceEnd) 2
       (core.Panicked (reflect.PointerTo "" tArticle) tOuter).
Proof.
  split; [reflexivity|].
  apply (core.LoadHitAssertFails _ _ _ _ (raceInstance 1)).
  - left. reflexivity.
  - intros [H _]. discriminate H.
Qed.

(* ================================================================== *)
(** * More on the shorthand parser *)
(* ================================================================== *)

Section ShorthandPieces.

Import strings.

Lemma string_app_assoc (a b c : string) : (a ++ b) ++ c = a ++ (b ++ c).
Proof. induction a as [|x a IH]; cbn; [reflexivity | now rewrite IH]. Qed.

Lemma string_app_nil_r (a : string) : a ++ "" = a.
Proof. induction a as [|x a IH]; cbn; [reflexivity | now rewrite IH]. Qed.

Lemma occurrences_cons_zero sub c rest :
  occurrences sub (String c rest) = 0 ->
  HasPrefix (String c rest) sub = false /\ occurrences sub rest = 0.
Proof.
  cbn [occurrences].
  destruct (HasPrefix (String c rest) sub); [discriminate|].
  intros H. split; [reflexivity | exact H].
Qed.

(** A text without arrow is one piece. *)
Lemma scan_arrow_free s :
  occurrences "->" s = 0 ->
  forall cur, scan "->" 0 cur s = [cur ++ s].
Proof.
  induction s as [|c rest IH]; intros Hocc cur.
  - cbn. now rewrite string_app_nil_r.
  - apply occurrences_cons_zero in Hocc as [Hp Hrest].
    cbn [scan]. rewrite Hp, (IH Hrest), string_app_assoc. reflexivity.
Qed.

(** The first arrow behind an arrow-free text ends the first piece. *)
Lemma scan_arrow_first l r :
  occurrences "->" l = 0 ->
  forall cur,
    scan "->" 0 cur (l ++ "->" ++ r) = (cur ++ l) :: scan "->" 0 "" r.
Proof.
  induction l as [|c rest IH]; intros Hocc cur.
  - cbn. now rewrite string_app_nil_r.
  - apply occurrences_cons_zero in Hocc as [Hp Hrest].
    cbn [append scan].
    replace (HasPrefix (String c (rest ++ String "-" (String ">" r))) "->")
      with false.
    + rewrite (IH Hrest), string_app_assoc. reflexivity.
    + symmetry. destruct rest as [|d rest'].
      * cbn. destruct (Ascii.eqb c "-"); reflexivity.
      * exact Hp.
Qed.

Lemma Split_at_arrow l r :
  occurrences "->" l = 0 -> occurrences "->" r = 0 ->
  Split (l ++ "->" ++ r) "->" = [l; r].
Proof.
  intros Hl Hr. unfold Split.
  rewrite (scan_arrow_first l r Hl ""), (scan_arrow_free r Hr "").
  reflexivity.
Qed.

(** Splitting at commas, byte by byte. *)
Lemma scan_comma_step c rest cur :
  scan "," 0 cur (String c rest)
  = if isComma c then cur :: scan "," 0 "" rest
    else scan "," 0 (cur ++ String c "") rest.
Proof.
  unfold isComma. cbn [scan HasPrefix String.length Nat.sub].
  destruct (Ascii.eqb c ","); reflexivity.
Qed.

Lemma scan_comma_free s :
  countBytes isComma s = 0 ->
  forall cur, scan "," 0 cur s = [cur ++ s].
Proof.
  induction s as [|c rest IH]; intros Hc cur.
  - cbn. now rewrite string_app_nil_r.
  - rewrite scan_comma_step. cbn [countBytes] in Hc.
    destruct (isComma c); [discriminate|].
    rewrite (IH Hc), string_app_assoc. reflexivity.
Qed.

Lemma scan_comma_first n rest :
  countBytes isComma n = 0 ->
  forall cur,
    scan "," 0 cur (n ++ "," ++ rest) = (cur ++ n) :: scan "," 0 "" rest.
Proof.
  induction n as [|c n IH]; intros Hc cur.
  - cbn [append]. rewrite scan_comma_step. cbn.
    now rewrite string_app_nil_r.
  - cbn [append]. rewrite scan_comma_step. cbn [countBytes] in Hc.
    destruct (isComma c); [discriminate|].
    rewrite (IH Hc), string_app_assoc. reflexivity.
Qed.

(** Joining names with commas and splitting again gives the names back. *)
Lemma Split_concat_comma names :
  names <> [] ->
  Forall (fun n => countBytes isComma n = 0) names ->
  Split (String.concat "," names) "," = names.
Proof.
  unfold Split.
  induction names as [|n [|n' names] IH]; intros Hne Hall.
  - congruence.
  - cbn [String.concat]. inversion Hall; subst.
    now rewrite scan_comma_free.
  - inversion Hall as [|? ? Hn Hrest]; subst.
    change (String.concat "," (n :: n' :: names))
      with (n ++ "," ++ String.concat "," (n' :: names)).
    rewrite (scan_comma_first n _ Hn). cbn [append].
    f_equal. apply IH; [discriminate | exact Hrest].
Qed.

(** Every piece of a split at commas is free of commas. *)
Lemma scan_comma_pieces s :
  forall cur p,
    countBytes isComma cur = 0 ->
    In p (scan "," 0 cur s) -> countBytes isComma p = 0.
Proof.
  assert (forall a b, countBytes isComma (a ++ b)
                      = countBytes isComma a + countBytes isComma b) as Happ.
  { induction a as [|x a IH]; intros b; cbn; [reflexivity|].
    rewrite IH. lia. }
  induction s as [|c rest IH]; intros cur p Hcur.
  - cbn. intros [<- | []]. exact Hcur.
  - rewrite scan_comma_step. destruct (isComma c) eqn:Hc.
    + intros [<- | Hin]; [exact Hcur | now apply (IH "" p)].
    + apply IH. rewrite Happ. cbn. rewrite Hc. lia.
Qed.

Lemma scan_nonempty sep skip cur s : scan sep skip cur s <> [].
Proof.
  revert skip cur. induction s as [|c rest IH]; intros skip cur;
    cbn [scan]; [discriminate|].
  destruct skip; [|apply IH].
  destruct (HasPrefix _ _); [discriminate | apply IH].
Qed.

(** [TrimSpace] leaves no whitespace at either end and adds no byte. *)
Lemma TrimLeft_first s c :
  firstByte (TrimLeft s) = Some c -> isSpace c = false.
Proof.
  induction s as [|x s IH]; cbn; [discriminate|].
  destruct (isSpace x) eqn:Hx; [exact IH|].
  cbn. now intros [= <-].
Qed.

Lemma TrimRight_last s c :
  lastByte (TrimRight s) = Some c -> isSpace c = false.
Proof.
  induction s as [|x s IH]; cbn [TrimRight]; [discriminate|].
  destruct (TrimRight s) as [|y t] eqn:Ht.
  - destruct (isSpace x) eqn:Hx; cbn; [discriminate|].
    now intros [= <-].
  - cbn [lastByte]. exact IH.
Qed.

Lemma TrimRight_first s c :
  firstByte s = Some c -> isSpace c = false ->
  firstByte (TrimRight s) = Some c.
Proof.
  destruct s as [|x s]; cbn [firstByte TrimRight]; [discriminate|].
  intros [= ->] Hc. destruct (TrimRight s); [now rewrite Hc|]; reflexivity.
Qed.

Lemma TrimSpace_ends s :
  (forall c, firstByte (TrimSpace s) = Some c -> isSpace c = false)
  /\ (forall c, lastByte (TrimSpace s) = Some c -> isSpace c = false).
Proof.
  unfold TrimSpace. split; [|apply TrimRight_last].
  intros c Hc.
  destruct (TrimLeft s) as [|x t] eqn:Ht; [discriminate|].
  assert (isSpace x = false) as Hx
      by (apply (TrimLeft_first s); now rewrite Ht).
  rewrite (TrimRight_first (String x t) x eq_refl Hx) in Hc.
  now injection Hc as <-.
Qed.

Lemma TrimSpace_countBytes p s :
  countBytes p (TrimSpace s) <= countBytes p s.
Proof.
  unfold TrimSpace.
  assert (forall t, countBytes p (TrimLeft t) <= countBytes p t) as Hl.
  { induction t as [|x t IH]; cbn; [lia|].
    destruct (isSpace x); cbn; lia. }
  assert (forall t, countBytes p (TrimRight t) <= countBytes p t) as Hr.
  { induction t as [|x t IH]; cbn [TrimRight countBytes]; [lia|].
    destruct (TrimRight t) as [|y u].
    - destruct (isSpace x); cbn in *; lia.
    - cbn [countBytes] in *. lia. }
  specialize (Hl s). specialize (Hr (TrimLeft s)). lia.
Qed.

End ShorthandPieces.

Section ShorthandRoundTrip.

Import strings.

Lemma cleanName_spec n :
  cleanName n = true ->
  n <> ""
  /\ countBytes isComma n = 0
  /\ countBytes isGreater n = 0
  /\ (forall c, firstByte n = Some c -> isSpace c = false)
  /\ (forall c, lastByte n = Some c -> isSpace c = false).
Proof.
  unfold cleanName. intros H.
  repeat (apply andb_true_iff in H as [H ?]).
  repeat split.
  - intros ->. discriminate.
  - now apply Nat.eqb_eq.
  - now apply Nat.eqb_eq.
  - intros c Hc. rewrite Hc in *. now apply negb_true_iff.
  - intros c Hc. rewrite Hc in *. now apply negb_true_iff.
Qed.

Lemma countBytes_app p a b :
  countBytes p (a ++ b) = countBytes p a + countBytes p b.
Proof.
  induction a as [|x a IH]; cbn; [reflexivity|]. rewrite IH. lia.
Qed.

Lemma no_greater_no_arrow s :
  countBytes isGreater s = 0 -> occurrences "->" s = 0.
Proof.
  induction s as [|c rest IH]; [reflexivity|].
  cbn [countBytes occurrences]. intros H.
  assert (countBytes isGreater rest = 0) as Hrest by lia.
  rewrite (IH Hrest).
  destruct (HasPrefix (String c rest) "->") eqn:Hp; [|reflexivity].
  apply HasPrefix_arrow in Hp as [rest' [= -> ->]].
  cbn in Hrest. discriminate.
Qed.

Lemma TrimLeft_id s :
  (forall c, firstByte s = Some c -> isSpace c = false) -> TrimLeft s = s.
Proof.
  destruct s as [|x s]; [reflexivity|]. intros H. cbn.
  now rewrite (H x eq_refl).
Qed.

Lemma TrimRight_id s :
  (forall c, lastByte s = Some c -> isSpace c = false) -> TrimRight s = s.
Proof.
  induction s as [|x s IH]; [reflexivity|]. intros H.
  cbn [TrimRight]. destruct s as [|y t].
  - cbn. now rewrite (H x eq_refl).
  - rewrite IH; [reflexivity|]. intros c Hc. apply H. exact Hc.
Qed.

Lemma TrimRight_space s : TrimRight (s ++ " ") = TrimRight s.
Proof.
  induction s as [|x s IH]; [reflexivity|].
  cbn [append TrimRight]. now rewrite IH.
Qed.

Lemma lastByte_app a b : b <> "" -> lastByte (a ++ b) = lastByte b.
Proof.
  intros Hb. induction a as [|x a IH]; [reflexivity|].
  cbn [append lastByte]. rewrite IH.
  destruct (a ++ b) eqn:E; [|reflexivity].
  destruct a; [cbn in E; congruence | discriminate].
Qed.

Lemma firstByte_app a b : a <> "" -> firstByte (a ++ b) = firstByte a.
Proof. destruct a; [congruence | reflexivity]. Qed.

(** The canonical list of clean names. *)
Lemma concat_clean names :
  names <> [] -> forallb cleanName names = true ->
  let text := String.concat ", " names in
  text <> ""
  /\ countBytes isGreater text = 0
  /\ (forall c, firstByte text = Some c -> isSpace c = false)
  /\ (forall c, lastByte text = Some c -> isSpace c = false).
Proof.
  induction names as [|n [|n' names] IH]; intros Hne Hall; [congruence| |].
  - cbn in Hall. rewrite andb_true_r in Hall.
    destruct (cleanName_spec n Hall) as (H1 & _ & H3 & H4 & H5).
    cbn. auto.
  - cbn [forallb] in Hall. apply andb_true_iff in Hall as [Hn Hrest].
    destruct (cleanName_spec n Hn) as (H1 & _ & H3 & H4 & _).
    destruct (IH ltac:(discriminate) Hrest) as (I1 & I3 & _ & I5).
    change (String.concat ", " (n :: n' :: names))
      with (n ++ ", " ++ String.concat ", " (n' :: names)).
    cbv zeta. repeat split.
    + destruct n; [congruence | discriminate].
    + rewrite !countBytes_app, H3, I3. reflexivity.
    + rewrite firstByte_app by exact H1. exact H4.
    + rewrite lastByte_app.
      * rewrite lastByte_app by exact I1. exact I5.
      * discriminate.
Qed.

Lemma scan_concat_clean names :
  forallb cleanName names = true ->
  forall n cur,
    scan "," 0 cur (String.concat ", " (n :: names))
    = (cur ++ n) :: List.map (fun x => " " ++ x) names
    \/ cleanName n = false.
Proof.
  induction names as [|n' names IH]; intros Hall n cur.
  - destruct (cleanName n) eqn:Hn; [left | now right].
    destruct (cleanName_spec n Hn) as (_ & H2 & _).
    cbn [String.concat List.map]. now apply scan_comma_free.
  - destruct (cleanName n) eqn:Hn; [left | now right].
    destruct (cleanName_spec n Hn) as (_ & H2 & _).
    cbn [forallb] in Hall. apply andb_true_iff in Hall as [Hn' Hrest].
    change (String.concat ", " (n :: n' :: names))
      with (n ++ "," ++ String (" ") (String.concat ", " (n' :: names))).
    rewrite (scan_comma_first n _ H2), scan_comma_step.
    cbn [isComma Ascii.eqb]. cbn [List.map]. f_equal.
    destruct (IH Hrest n' ("" ++ " ")) as [E | E]; [exact E | congruence].
Qed.

Lemma TrimSpace_clean n :
  cleanName n = true ->
  TrimSpace n = n /\ TrimSpace (String " " n) = n.
Proof.
  intros Hn. destruct (cleanName_spec n Hn) as (_ & _ & _ & H4 & H5).
  unfold TrimSpace. cbn [TrimLeft].
  change (isSpace " ") with true. cbv iota.
  rewrite (TrimLeft_id n H4), (TrimRight_id n H5). split; reflexivity.
Qed.

Lemma parse_clean_side names :
  names <> [] -> forallb cleanName names = true ->
  List.map TrimSpace (Split (String.concat ", " names) ",") = names.
Proof.
  intros Hne Hall. destruct names as [|n names]; [congruence|].
  cbn [forallb] in Hall. apply andb_true_iff in Hall as [Hn Hrest].
  unfold Split.
  destruct (scan_concat_clean names Hrest n "") as [-> | E]; [|congruence].
  cbn [List.map append]. rewrite (proj1 (TrimSpace_clean n Hn)). f_equal.
  rewrite map_map. clear Hne Hn.
  induction names as [|n' names IH]; [reflexivity|].
  cbn [forallb] in Hrest. apply andb_true_iff in Hrest as [Hn' Hrest].
  cbn [List.map append].
  rewrite (proj2 (TrimSpace_clean n' Hn')), (IH Hrest).
  reflexivity.
Qed.

End ShorthandRoundTrip.

(** X1: a text with exactly one arrow, written as an arrow-free left part,
    the arrow and an arrow-free right part, parses into the fields of the
    trimmed left part as inputs and those of the trimmed right part as
    outputs, with no instruction. *)
Theorem parse_splits_at_the_arrow (l r : string) :
  strings.occurrences "->" l = 0 ->
  strings.occurrences "->" r = 0 ->
  core.ParseSignature (l ++ "->" ++ r)
  = inl (core.Signature.mk
           (core.parseInputFields (strings.TrimSpace l))
           (core.parseOutputFields (strings.TrimSpace r)) "").
Proof.
  intros Hl Hr. unfold core.ParseSignature.
  now rewrite (Split_at_arrow l r Hl Hr).
Qed.

Lemma parse_splits_at_the_arrow_witness :
  core.ParseSignature (" question , context " ++ "->" ++ " answer")
  = inl (core.Signature.mk
           (core.parseInputFields (strings.TrimSpace " question , context "))
           (core.parseOutputFields (strings.TrimSpace " answer")) "").
Proof.
  apply (parse_splits_at_the_arrow " question , context " " answer");
    reflexivity.
Defined.

(** X2: joining comma-free names with commas and parsing the result as one
    side of a shorthand gives one field per name, in order, each named by
    the trimmed name; in particular a side is never parsed into an empty
    field list. *)
Theorem comma_join_then_parse (names : list string) :
  names <> [] ->
  Forall (fun n => countBytes isComma n = 0) names ->
  core.parseInputFields (String.concat "," names)
  = List.map (fun n => core.InputField.mk
                         (core.Field.named (strings.TrimSpace n))) names
  /\ core.parseOutputFields (String.concat "," names)
     = List.map (fun n => core.OutputField.mk
                            (core.Field.named (strings.TrimSpace n))) names.
Proof.
  intros Hne Hall. unfold core.parseInputFields, core.parseOutputFields.
  rewrite (Split_concat_comma names Hne Hall). split; reflexivity.
Qed.

Lemma comma_join_then_parse_witness :
  core.parseInputFields (String.concat "," ["a"; " b "; ""])
  = List.map (fun n => core.InputField.mk
                         (core.Field.named (strings.TrimSpace n)))
             ["a"; " b "; ""].
Proof.
  apply (comma_join_then_parse ["a"; " b "; ""]).
  - discriminate.
  - repeat constructor.
Defined.

(** X3: the canonical shorthand of clean names (ASCII text, not empty,
    free of commas and of [>], no whitespace at either end), inputs joined
    by [", "], then [" -> "], then the outputs joined by [", "], parses
    back into exactly these names, in order. *)
Theorem shorthand_round_trip (ins outs : list string) :
  ins <> [] -> outs <> [] ->
  forallb cleanName ins = true -> forallb cleanName outs = true ->
  core.ParseSignature
    (String.concat ", " ins ++ " -> " ++ String.concat ", " outs)
  = inl (core.Signature.mk
           (List.map (fun n => core.InputField.mk (core.Field.named n)) ins)
           (List.map (fun n => core.OutputField.mk (core.Field.named n)) outs)
           "").
Proof.
  intros Hi Ho Hci Hco.
  destruct (concat_clean ins Hi Hci) as (Li1 & Li2 & Li3 & Li4).
  destruct (concat_clean outs Ho Hco) as (Lo1 & Lo2 & Lo3 & Lo4).
  set (L := String.concat ", " ins) in *.
  set (R := String.concat ", " outs) in *.
  replace (L ++ " -> " ++ R) with ((L ++ " ") ++ "->" ++ (String " " R))
    by (now rewrite string_app_assoc).
  assert (strings.occurrences "->" (L ++ " ") = 0) as Hl
      by (apply no_greater_no_arrow; rewrite countBytes_app, Li2;
          reflexivity).
  assert (strings.occurrences "->" (String " " R) = 0) as Hr
      by (apply no_greater_no_arrow; cbn [countBytes]; rewrite Lo2;
          reflexivity).
  unfold core.ParseSignature. rewrite (Split_at_arrow _ _ Hl Hr).
  unfold core.NewSignature.
  - assert (strings.TrimSpace (L ++ " ") = L) as ->.
    { unfold strings.TrimSpace. rewrite TrimLeft_id.
      - rewrite TrimRight_space. now apply TrimRight_id.
      - intros c. rewrite firstByte_app by exact Li1. apply Li3. }
    assert (strings.TrimSpace (String " " R) = R) as ->.
    { unfold strings.TrimSpace. cbn [strings.TrimLeft].
      change (strings.isSpace " ") with true. cbv iota.
      rewrite (TrimLeft_id R Lo3). now apply TrimRight_id. }
    unfold core.parseInputFields, core.parseOutputFields.
    rewrite <- (map_map strings.TrimSpace
                  (fun n => core.InputField.mk (core.Field.named n))).
    rewrite <- (map_map strings.TrimSpace
                  (fun n => core.OutputField.mk (core.Field.named n))).
    unfold L, R.
    now rewrite (parse_clean_side ins Hi Hci), (parse_clean_side outs Ho Hco).
Qed.

Lemma shorthand_round_trip_witness :
  core.ParseSignature
    (String.concat ", " ["question"; "chat-history"]
       ++ " -> " ++ String.concat ", " ["answer"])
  = inl (core.Signature.mk
           (List.map (fun n => core.InputField.mk (core.Field.named n))
                     ["question"; "chat-history"])
           (List.map (fun n => core.OutputField.mk (core.Field.named n))
                     ["answer"])
           "").
Proof.
  apply (shorthand_round_trip ["question"; "chat-history"] ["answer"]);
    solve [discriminate | reflexivity].
Defined.

(** X4: whatever text parses, each side yields at least one field, and
    every field name is free of commas and has no whitespace byte at
    either end (it may be empty). *)
Theorem parsed_names_are_trimmed (s : string) (sig : core.Signature.t) :
  core.ParseSignature s = inl sig ->
  core.Signature.Inputs sig <> []
  /\ core.Signature.Outputs sig <> []
  /\ forall n,
      In n (inputNames sig ++ outputNames sig)%list ->
      countBytes isComma n = 0
      /\ (forall c, firstByte n = Some c -> strings.isSpace c = false)
      /\ (forall c, lastByte n = Some c -> strings.isSpace c = false).
Proof.
  unfold core.ParseSignature.
  destruct (strings.Split s "->") as [|p0 [|p1 [|p2 ps]]]; try discriminate.
  intros [= <-].
  unfold inputNames, outputNames, core.NewSignature,
    core.parseInputFields, core.parseOutputFields, strings.Split.
  cbn [core.Signature.Inputs core.Signature.Outputs].
  assert (forall side n,
             In n (List.map strings.TrimSpace
                            (strings.scan "," 0 "" side)) ->
             countBytes isComma n = 0
             /\ (forall c, firstByte n = Some c -> strings.isSpace c = false)
             /\ (forall c, lastByte n = Some c -> strings.isSpace c = false))
    as Hside.
  { intros side n Hn. apply in_map_iff in Hn as (p & <- & Hp).
    split; [|apply TrimSpace_ends].
    pose proof (scan_comma_pieces side "" p eq_refl Hp) as Hc.
    pose proof (TrimSpace_countBytes isComma p). lia. }
  repeat split.
  - intros H. apply map_eq_nil in H. now apply scan_nonempty in H.
  - intros H. apply map_eq_nil in H. now apply scan_nonempty in H.
  - rewrite !map_map in H. cbn in H. apply in_app_or in H as [H|H];
      rewrite <- (map_map strings.TrimSpace (fun x => x)), map_id in H;
      now apply Hside in H.
  - rewrite !map_map in H. cbn in H. apply in_app_or in H as [H|H];
      rewrite <- (map_map strings.TrimSpace (fun x => x)), map_id in H;
      now apply Hside in H.
  - rewrite !map_map in H. cbn in H. apply in_app_or in H as [H|H];
      rewrite <- (map_map strings.TrimSpace (fun x => x)), map_id in H;
      now apply Hside in H.
Qed.

Lemma parsed_names_are_trimmed_witness :
  core.Signature.Inputs
    (core.Signature.mk
       (core.parseInputFields (strings.TrimSpace " a , b "))
       (core.parseOutputFields (strings.TrimSpace " ")) "") <> [].
Proof.
  apply (parsed_names_are_trimmed " a , b -> ").
  reflexivity.
Defined.

(* ================================================================== *)
(** * Field constructors *)
(* ================================================================== *)

Lemma NewField_snoc name opts (opt : core.FieldOption) :
  core.NewField name (opts ++ [opt])%list = opt (core.NewField name opts).
Proof. unfold core.NewField. now rewrite fold_left_app. Qed.

(** X5: the typed constructors apply their own type option after the
    caller's options, so whatever options the caller passes (a
    [WithFieldType] of another type, an arbitrary function), the field's
    type is the constructor's, an array field's [Items] is the given item
    and an object field's [Properties] the given properties. *)
Theorem typed_constructors_decide_the_type
        (name : string) (opts : list core.FieldOption)
        (item : option core.Field.t)
        (props : option (list (string * core.Field.t))) :
  core.Field.Type_ (core.NewIntField name opts) = core.FieldTypeInt
  /\ core.Field.Type_ (core.NewBoolField name opts) = core.FieldTypeBool
  /\ core.Field.Type_ (core.NewStringField name opts) = core.FieldTypeString
  /\ (core.Field.Type_ (core.NewArrayField name item opts)
      = core.FieldTypeArray
      /\ core.Field.Items (core.NewArrayField name item opts) = item)
  /\ (core.Field.Type_ (core.NewObjectField name props opts)
      = core.FieldTypeObject
      /\ core.Field.Properties (core.NewObjectField name props opts)
         = props).
Proof.
  unfold core.NewIntField, core.NewBoolField, core.NewStringField,
    core.NewArrayField, core.NewObjectField.
  rewrite !NewField_snoc. repeat split.
Qed.

(** X6: options taken from the package's own ([WithDescription],
    [WithCustomPrefix], [WithNoPrefix], [WithFieldType], [WithArrayType],
    [WithObjectType]) never change the name: a field built by [NewField] or
    a typed constructor from such options carries the name it was given;
    and without a prefix option its prefix is that name followed by a
    colon. *)
Theorem standard_options_keep_the_name
        (name : string) (opts : list core.FieldOption) :
  Forall standardOption opts ->
  core.Field.Name (core.NewField name opts) = name
  /\ core.Field.Name (core.NewIntField name opts) = name
  /\ core.Field.Name (core.NewBoolField name opts) = name
  /\ core.Field.Name (core.NewStringField name opts) = name
  /\ (Forall (fun opt => forall f, core.Field.Prefix (opt f)
                                   = core.Field.Prefix f) opts ->
      core.Field.Prefix (core.NewField name opts) = name ++ ":").
Proof.
  intros Hstd.
  assert (core.Field.Name (core.NewField name opts) = name) as Hname.
  { unfold core.NewField.
    assert (forall f, core.Field.Name
                        (fold_left (fun f (opt : core.FieldOption) => opt f)
                                   opts f)
                      = core.Field.Name f) as H.
    { induction Hstd as [|opt opts Hopt _ IH]; intros f; [reflexivity|].
      cbn [fold_left]. rewrite IH. now destruct Hopt. }
    now rewrite H. }
  unfold core.NewIntField, core.NewBoolField, core.NewStringField.
  rewrite !NewField_snoc. repeat split; try exact Hname.
  intros Hprefix. unfold core.NewField.
  assert (forall f, core.Field.Prefix
                      (fold_left (fun f (opt : core.FieldOption) => opt f)
                                 opts f)
                    = core.Field.Prefix f) as H.
  { clear Hstd Hname.
    induction Hprefix as [|opt opts Hopt _ IH]; intros f; [reflexivity|].
    cbn [fold_left]. now rewrite IH, Hopt. }
  now rewrite H.
Qed.

Lemma standard_options_keep_the_name_witness :
  core.Field.Name
    (core.NewField "answer"
       [core.WithDescription "the answer";
        core.WithFieldType core.FieldTypeInt;
        core.WithNoPrefix])
  = "answer".
Proof.
  apply (standard_options_keep_the_name "answer"
           [core.WithDescription "the answer";
            core.WithFieldType core.FieldTypeInt;
            core.WithNoPrefix]).
  repeat constructor.
Defined.

(* ================================================================== *)
(** * More on slices, [AppendInput] and [PrependOutput] *)
(* ================================================================== *)

Section SliceInvariants.

Context {A : Type}.
Variable zero : A.
Variable growCap : nat -> nat -> nat.

Local Open Scope list_scope.

Lemma store_length (arr : list A) i xs :
  i + List.length xs <= List.length arr ->
  List.length (slice.store arr i xs) = List.length arr.
Proof.
  intros H. unfold slice.store.
  rewrite !length_app, length_firstn, length_skipn. lia.
Qed.

(** An in-place [append] keeps every slice of the heap well formed. *)
Lemma append_wf_other (h : slice.heap A) s xs s2 :
  slice.wf h s -> slice.wf h s2 ->
  slice.wf (fst (slice.append zero growCap h s xs)) s2.
Proof.
  intros [Hlen Hcap] Hwf2. unfold slice.append.
  destruct (Nat.leb (slice.len s + List.length xs) (slice.cap s)) eqn:Hfit;
    cbn [fst]; [|now apply wf_extend].
  apply Nat.leb_le in Hfit. destruct Hwf2 as [Hlen2 Hcap2].
  split; [exact Hlen2|]. rewrite nth_update.
  destruct (Nat.eqb (slice.array s) (slice.array s2)) eqn:Heq;
    [|exact Hcap2].
  apply Nat.eqb_eq in Heq. rewrite <- Heq in Hcap2.
  destruct (Nat.ltb (slice.array s) (List.length h)) eqn:Hin.
  - rewrite store_length; [exact Hcap2 | lia].
  - apply Nat.ltb_ge in Hin.
    now rewrite (nth_overflow h) in Hcap2 by exact Hin.
Qed.

(** The slice [append] returns is well formed when the runtime grows a
    full slice to at least the capacity needed. *)
Lemma append_wf (h : slice.heap A) s xs :
  (forall old needed, needed <= growCap old needed) ->
  slice.wf h s ->
  slice.wf (fst (slice.append zero growCap h s xs))
           (snd (slice.append zero growCap h s xs)).
Proof.
  intros Hgrow Hwf. pose proof Hwf as [Hlen Hcap].
  pose proof (append_wf_other h s xs s Hwf Hwf) as [_ Hcap'].
  unfold slice.append in *.
  destruct (Nat.leb (slice.len s + List.length xs) (slice.cap s)) eqn:Hfit;
    cbn [fst snd] in *.
  - apply Nat.leb_le in Hfit. split; [exact Hfit | exact Hcap'].
  - split; cbn [slice.len slice.cap slice.offset slice.array].
    + apply Hgrow.
    + rewrite nth_middle, !length_app, repeat_length,
        (elems_length h s Hwf).
      pose proof (Hgrow (slice.cap s) (slice.len s + List.length xs)). lia.
Qed.

End SliceInvariants.

Section AppendTwice.

Variable growCap : nat -> nat -> nat.

Local Open Scope list_scope.

Lemma AppendInput_inputs h s name prefix description :
  core.AppendInput growCap h s name prefix description
  = (core.mem.mkHeap
       (fst (slice.append (core.InputField.mk (core.Field.named "")) growCap
               (core.mem.inputArrays h) (core.mem.Inputs s)
               [core.InputField.mk
                  (core.Field.mk name description prefix "" None None)]))
       (core.mem.outputArrays h),
     core.mem.mkSignature
       (snd (slice.append (core.InputField.mk (core.Field.named "")) growCap
               (core.mem.inputArrays h) (core.mem.Inputs s)
               [core.InputField.mk
                  (core.Field.mk name description prefix "" None None)]))
       (core.mem.Outputs s) (core.mem.Instruction s)).
Proof.
  unfold core.AppendInput. now destruct (slice.append _ _ _ _ _).
Qed.

(** X7: the hazard of the shared backing array.  When the receiver's input
    slice has spare capacity, appending to the same receiver a second time
    overwrites the cell the first call wrote: afterwards the signature the
    first call returned reads with the second call's field as its last
    input, not its own.  The receiver itself still reads unchanged. *)
Theorem second_append_overwrites_the_first
        (h : core.mem.Heap) (s : core.mem.Signature)
        (name1 prefix1 description1 name2 prefix2 description2 : string) :
  core.mem.wf h s ->
  slice.len (core.mem.Inputs s) < slice.cap (core.mem.Inputs s) ->
  let first := core.AppendInput growCap h s name1 prefix1 description1 in
  let second :=
    core.AppendInput growCap (fst first) s name2 prefix2 description2 in
  core.Signature.Inputs (core.mem.load (fst first) (snd first))
  = core.Signature.Inputs (core.mem.load h s)
      ++ [core.InputField.mk
            (core.Field.mk name1 description1 prefix1 "" None None)]
  /\ core.Signature.Inputs (core.mem.load (fst second) (snd first))
     = core.Signature.Inputs (core.mem.load h s)
         ++ [core.InputField.mk
               (core.Field.mk name2 description2 prefix2 "" None None)]
  /\ core.mem.load (fst second) s = core.mem.load h s.
Proof.
  intros Hwf Hspare first second.
  pose proof (AppendInput_load growCap h s name1 prefix1 description1 Hwf)
    as [Hfirst Hkeep1].
  fold first in Hfirst, Hkeep1.
  assert (core.mem.wf (fst first) s) as Hwf1.
  { destruct Hwf as [Hin Hout]. unfold first.
    rewrite AppendInput_inputs. cbn [fst]. split; cbn; [|exact Hout].
    now apply append_wf_other. }
  pose proof (AppendInput_load growCap (fst first) s
                name2 prefix2 description2 Hwf1) as [Hsecond Hkeep2].
  fold second in Hsecond, Hkeep2.
  assert (snd second = snd first) as Hsame.
  { unfold second, first. rewrite !AppendInput_inputs. cbn [fst snd].
    unfold slice.append. cbn [List.length slice.len slice.cap].
    assert (Nat.leb (slice.len (core.mem.Inputs s) + 1)
                    (slice.cap (core.mem.Inputs s)) = true) as ->
        by (apply Nat.leb_le; lia).
    reflexivity. }
  split; [|split].
  - now rewrite Hfirst.
  - rewrite <- Hsame, Hsecond. cbn [core.Signature.Inputs].
    now rewrite Hkeep1.
  - now rewrite Hkeep2, Hkeep1.
Qed.

End AppendTwice.

Lemma second_append_overwrites_the_first_witness :
  core.Signature.Inputs
    (core.mem.load
       (fst (core.AppendInput
               (fun _ needed => needed)
               (fst (core.AppendInput (fun _ needed => needed)
                       sharedHeap sharedSignature "context" "" "facts"))
               sharedSignature "history" "" "turns"))
       (snd (core.AppendInput (fun _ needed => needed)
               sharedHeap sharedSignature "context" "" "facts")))
  = (core.Signature.Inputs (core.mem.load sharedHeap sharedSignature)
       ++ [core.InputField.mk
             (core.Field.mk "history" "turns" "" "" None None)])%list.
Proof.
  apply (second_append_overwrites_the_first
           (fun _ needed => needed)
           sharedHeap sharedSignature "context" "" "facts"
           "history" "" "turns").
  - unfold core.mem.wf, slice.wf; simpl; lia.
  - simpl; lia.
Defined.

Section AppendThenPrepend.

Variable growCap : nat -> nat -> nat.

Hypothesis grows : forall old needed, needed <= growCap old needed.

Local Open Scope list_scope.

Lemma PrependOutput_outputs h s name prefix description :
  core.PrependOutput growCap h s name prefix description
  = (core.mem.mkHeap
       (core.mem.inputArrays h)
       (fst (slice.append
               (core.OutputField.mk (core.Field.named "")) growCap
               (fst (slice.literal (core.mem.outputArrays h)
                       [core.OutputField.mk
                          (core.Field.mk name description prefix ""
                                         None None)]))
               (snd (slice.literal (core.mem.outputArrays h)
                       [core.OutputField.mk
                          (core.Field.mk name description prefix ""
                                         None None)]))
               (slice.elems (core.mem.outputArrays h) (core.mem.Outputs s)))),
     core.mem.mkSignature
       (core.mem.Inputs s)
       (snd (slice.append
               (core.OutputField.mk (core.Field.named "")) growCap
               (fst (slice.literal (core.mem.outputArrays h)
                       [core.OutputField.mk
                          (core.Field.mk name description prefix ""
                                         None None)]))
               (snd (slice.literal (core.mem.outputArrays h)
                       [core.OutputField.mk
                          (core.Field.mk name description prefix ""
                                         None None)]))
               (slice.elems (core.mem.outputArrays h) (core.mem.Outputs s))))
       (core.mem.Instruction s)).
Proof.
  unfold core.PrependOutput, slice.literal.
  now destruct (slice.append _ _ _ _ _).
Qed.

Lemma AppendInput_wf h s name prefix description :
  core.mem.wf h s ->
  core.mem.wf (fst (core.AppendInput growCap h s name prefix description))
              (snd (core.AppendInput growCap h s name prefix description)).
Proof.
  intros [Hin Hout]. rewrite AppendInput_inputs. cbn [fst snd].
  split; cbn [core.mem.inputArrays core.mem.outputArrays core.mem.Inputs
              core.mem.Outputs]; [|exact Hout].
  now apply append_wf.
Qed.

Lemma PrependOutput_wf h s name prefix description :
  core.mem.wf h s ->
  core.mem.wf (fst (core.PrependOutput growCap h s name prefix description))
              (snd (core.PrependOutput growCap h s name prefix description)).
Proof.
  intros [Hin Hout]. rewrite PrependOutput_outputs. cbn [fst snd].
  split; cbn [core.mem.inputArrays core.mem.outputArrays core.mem.Inputs
              core.mem.Outputs]; [exact Hin|].
  apply append_wf; [exact grows|].
  unfold slice.literal, slice.wf.
  cbn [fst snd slice.len slice.cap slice.offset slice.array List.length].
  rewrite nth_middle. cbn [List.length]. lia.
Qed.

End AppendThenPrepend.

(** X8: provided the runtime grows a full slice to at least the capacity
    needed, [AppendInput] and [PrependOutput] return well-formed
    signatures, so calls can be chained: appending an input and then
    prepending an output to the result gives a signature that reads as the
    receiver with the one field behind its inputs and the other before its
    outputs, and the receiver still reads unchanged after both calls. *)
Theorem append_then_prepend
        (growCap : nat -> nat -> nat) (h : core.mem.Heap)
        (s : core.mem.Signature)
        (name1 prefix1 description1 name2 prefix2 description2 : string) :
  (forall old needed, needed <= growCap old needed) ->
  core.mem.wf h s ->
  let first := core.AppendInput growCap h s name1 prefix1 description1 in
  let second :=
    core.PrependOutput growCap (fst first) (snd first)
                       name2 prefix2 description2 in
  core.mem.wf (fst first) (snd first)
  /\ core.mem.wf (fst second) (snd second)
  /\ core.mem.load (fst second) (snd second)
     = core.Signature.mk
         (core.Signature.Inputs (core.mem.load h s)
            ++ [core.InputField.mk
                  (core.Field.mk name1 description1 prefix1 "" None None)])%list
         (core.OutputField.mk
            (core.Field.mk name2 description2 prefix2 "" None None)
            :: core.Signature.Outputs (core.mem.load h s))
         (core.Signature.Instruction (core.mem.load h s))
  /\ core.mem.load (fst second) s = core.mem.load h s.
Proof.
  intros Hgrow Hwf first second.
  pose proof (AppendInput_wf growCap Hgrow h s name1 prefix1 description1 Hwf)
    as Hwf1.
  fold first in Hwf1.
  pose proof (PrependOutput_wf growCap Hgrow (fst first) (snd first)
                name2 prefix2 description2 Hwf1) as Hwf2.
  fold second in Hwf2.
  pose proof (AppendInput_load growCap h s name1 prefix1 description1 Hwf)
    as [Hfirst Hkeep1].
  fold first in Hfirst, Hkeep1.
  pose proof (PrependOutput_load growCap (fst first) (snd first)
                name2 prefix2 description2 Hwf1) as [Hsecond Hkeep2].
  fold second in Hsecond, Hkeep2.
  split; [exact Hwf1|]. split; [exact Hwf2|]. split.
  - rewrite Hsecond, Hfirst. reflexivity.
  - assert (core.mem.Outputs (snd first) = core.mem.Outputs s
            /\ core.mem.Instruction (snd first) = core.mem.Instruction s)
      as [Hout Hins]
        by (unfold first; rewrite AppendInput_inputs; split; reflexivity).
    assert (core.mem.inputArrays (fst second)
            = core.mem.inputArrays (fst first)) as Harr
        by (unfold second; rewrite PrependOutput_outputs; reflexivity).
    apply (f_equal core.Signature.Outputs) in Hkeep2.
    apply (f_equal core.Signature.Inputs) in Hkeep1.
    apply (f_equal core.Signature.Outputs) in Hfirst.
    unfold core.mem.load in *.
    cbn [core.Signature.Inputs core.Signature.Outputs] in *.
    rewrite Hout in Hkeep2, Hfirst. rewrite Harr, Hkeep1, Hkeep2, Hfirst.
    reflexivity.
Qed.

Lemma append_then_prepend_witness :
  core.mem.load
    (fst (core.PrependOutput
            (fun old needed => needed + old)
            (fst (core.AppendInput (fun old needed => needed + old)
                    sharedHeap sharedSignature "context" "" "facts"))
            (snd (core.AppendInput (fun old needed => needed + old)
                    sharedHeap sharedSignature "context" "" "facts"))
            "rationale" "" "steps"))
    sharedSignature
  = core.mem.load sharedHeap sharedSignature.
Proof.
  apply (append_then_prepend (fun old needed => needed + old)
           sharedHeap sharedSignature "context" "" "facts"
           "rationale" "" "steps").
  - intros old needed. lia.
  - unfold core.mem.wf, slice.wf; simpl; lia.
Defined.

(* ================================================================== *)
(** * More on the introspector *)
(* ================================================================== *)

Lemma inferFieldType_range t :
  In (core.inferFieldType t)
     [core.FieldTypeString; core.FieldTypeBool; core.FieldTypeInt;
      core.FieldTypeImage; core.FieldTypeArray; core.FieldTypeObject;
      core.FieldTypeText].
Proof.
  unfold core.inferFieldType.
  destruct (reflect.derefOnce t) as [| ?[]| | | | | | |? e| | | |];
    cbn; try tauto.
  destruct (reflect.Kind.eqb _ _); cbn; tauto.
Qed.

(** What the introspector looks at when it infers Array or Object. *)
Lemma inferFieldType_Array t :
  core.inferFieldType t = core.FieldTypeArray ->
  exists n e, reflect.derefOnce t = reflect.SliceOf n e.
Proof.
  unfold core.inferFieldType.
  destruct (reflect.derefOnce t) as [| ?[]| | | | | | |n e| | | |];
    try discriminate.
  eauto.
Qed.

Lemma inferFieldType_Object t :
  core.inferFieldType t = core.FieldTypeObject ->
  (exists n k e, reflect.derefOnce t = reflect.MapOf n k e)
  \/ (exists n fields, reflect.derefOnce t = reflect.StructOf n fields).
Proof.
  unfold core.inferFieldType.
  destruct (reflect.derefOnce t) as [| ?[]| | | | | | |n e| | | |];
    try discriminate; eauto.
  destruct (reflect.Kind.eqb _ _); discriminate.
Qed.

Lemma wellShaped_parse field isInput :
  (core.inferFieldType (reflect.StructField.Type_ field)
   = core.FieldTypeArray ->
   exists i,
     core.parseArrayElement (reflect.StructField.Type_ field) = Some i
     /\ wellShaped i = true) ->
  (core.inferFieldType (reflect.StructField.Type_ field)
   = core.FieldTypeObject ->
   forallb (fun kv =>
              String.eqb (fst kv) (core.FieldMetadata.Name (snd kv))
              && wellShaped (snd kv))
           (core.parseObjectProperties (reflect.StructField.Type_ field))
   = true) ->
  wellShaped (core.parseFieldMetadataRecursive field isInput) = true.
Proof.
  intros Harr Hobj. rewrite parseFieldMetadataRecursive_unfold. cbv zeta.
  pose proof (inferFieldType_range (reflect.StructField.Type_ field)) as Hr.
  cbn [wellShaped core.FieldMetadata.Type_ core.FieldMetadata.Item
       core.FieldMetadata.Properties core.FieldMetadata.Name].
  destruct Hr as [E|[E|[E|[E|[E|[E|[E|[]]]]]]]]; rewrite <- E in *;
    try reflexivity.
  - destruct (Harr eq_refl) as (i & -> & Hi). cbn. now rewrite Hi.
  - cbn. rewrite (Hobj eq_refl). reflexivity.
Qed.

Lemma parseObjectProperties_shaped t :
  (forall sf, In sf (reflect.Fields (reflect.derefOnce t)) ->
              wellShaped (core.parseFieldMetadataRecursive sf true) = true) ->
  forallb (fun kv =>
             String.eqb (fst kv) (core.FieldMetadata.Name (snd kv))
             && wellShaped (snd kv))
          (core.parseObjectProperties t)
  = true.
Proof.
  intros H. apply forallb_forall. intros [k p] Hin.
  apply parseObjectProperties_In in Hin as (sf & Hsf & _ & -> & ->).
  cbn [fst snd]. now rewrite String.eqb_refl, (H sf Hsf).
Qed.

Lemma describe_wellShaped t :
  (forall name pkg tag isInput,
      wellShaped (core.parseFieldMetadataRecursive
                    (reflect.mkStructField name pkg t tag) isInput) = true)
  /\ (forall sf, In sf (reflect.Fields t) ->
                 wellShaped (core.parseFieldMetadataRecursive sf true) = true).
Proof.
  induction t as [t He Hf | n e [IH IHf] | n e [IH IHf] | n len e [IH IHf]
                 | n e [IH IHf] | n k e _ [IH IHf] | n fields IH]
                   using type_ind.
  - split; [|rewrite Hf; intros sf []].
    intros name pkg tag isInput. apply wellShaped_parse;
      cbn [reflect.StructField.Type_].
    + intros E. apply inferFieldType_Array in E as (n & e & E).
      destruct t; try discriminate; cbn in E; discriminate.
    + intros _. apply parseObjectProperties_shaped.
      replace (reflect.Fields (reflect.derefOnce t)) with
        (@nil reflect.StructField); [intros sf []|].
      destruct t; try discriminate; try reflexivity. now rewrite <- Hf.
  - split; [|intros sf []].
    intros name pkg tag isInput. apply wellShaped_parse;
      cbn [reflect.StructField.Type_].
    + intros _. eexists. split; [reflexivity | apply IH].
    + intros _. apply parseObjectProperties_shaped. exact IHf.
  - split; [|intros sf []].
    intros name pkg tag isInput. apply wellShaped_parse;
      cbn [reflect.StructField.Type_].
    + intros _. eexists. split; [reflexivity | apply IH].
    + intros _. apply parseObjectProperties_shaped. intros sf [].
  - split; [|intros sf []].
    intros name pkg tag isInput. apply wellShaped_parse;
      cbn [reflect.StructField.Type_].
    + discriminate.
    + discriminate.
  - split; [|intros sf []].
    intros name pkg tag isInput. apply wellShaped_parse;
      cbn [reflect.StructField.Type_].
    + discriminate.
    + discriminate.
  - split; [|intros sf []].
    intros name pkg tag isInput. apply wellShaped_parse;
      cbn [reflect.StructField.Type_].
    + discriminate.
    + intros _. apply parseObjectProperties_shaped. intros sf [].
  - assert (forall sf, In sf fields ->
                       wellShaped (core.parseFieldMetadataRecursive sf true)
                       = true) as Hfields.
    { intros [fn fp ft fg] Hsf. rewrite Forall_forall in IH.
      exact (proj1 (IH _ Hsf) fn fp fg true). }
    split; [|exact Hfields].
    intros name pkg tag isInput. apply wellShaped_parse;
      cbn [reflect.StructField.Type_].
    + discriminate.
    + intros _. apply parseObjectProperties_shaped. exact Hfields.
Qed.

(** X9: every descriptor the introspector builds, and every descriptor
    below it at any depth, has the shape its type promises: Array exactly
    when there is an [Item], Object exactly when there are [Properties]
    (never both), each property filed under its descriptor's own name, and
    a semantic type among String, Bool, Int, Image, Array, Object and
    Text (never Audio). *)
Theorem described_fields_are_well_shaped
        (t : option reflect.Type_) (isInput : bool) :
  forallb wellShaped (core.parseStructFields t isInput) = true.
Proof.
  apply forallb_forall. intros m Hm.
  destruct t as [[| | | | | | | | | | | |n fields]|]; try destruct Hm.
  cbn [core.parseStructFields] in Hm.
  apply in_map_iff in Hm as ([fn fp ft fg] & <- & _).
  apply (proj1 (describe_wellShaped ft)).
Qed.

Section GoMapLookup.

Context {V : Type}.

Lemma get_set_same (m : gomap.t V) k v : gomap.get (gomap.set m k v) k = Some v.
Proof.
  induction m as [|[k0 v0] m IH]; cbn [gomap.set gomap.get].
  - now rewrite String.eqb_refl.
  - destruct (String.eqb k0 k) eqn:E; cbn [gomap.get].
    + now rewrite String.eqb_refl.
    + now rewrite E.
Qed.

Lemma get_set_other (m : gomap.t V) k v k' :
  k' <> k -> gomap.get (gomap.set m k v) k' = gomap.get m k'.
Proof.
  intros Hne. induction m as [|[k0 v0] m IH]; cbn [gomap.set gomap.get].
  - apply String.eqb_neq in Hne. rewrite String.eqb_sym. now rewrite Hne.
  - destruct (String.eqb k0 k) eqn:E; cbn [gomap.get].
    + apply String.eqb_eq in E. subst k0.
      apply String.eqb_neq in Hne. rewrite String.eqb_sym in Hne.
      now rewrite Hne.
    + destruct (String.eqb k0 k'); [reflexivity | exact IH].
Qed.

End GoMapLookup.

(** X10: the properties of an object descriptor are a map from name to
    descriptor, filled in declaration order: looking up the resolved name
    of an exported field gives that field's descriptor provided no later
    exported field resolves to the same name; when one does, the later
    field's descriptor takes the entry and the earlier field has none. *)
Theorem later_field_wins_the_name
        (t : reflect.Type_) (before after : list reflect.StructField)
        (sf : reflect.StructField) :
  reflect.Fields (reflect.derefOnce t) = (before ++ sf :: after)%list ->
  reflect.StructField.IsExported sf = true ->
  (forall g, In g after ->
             reflect.StructField.IsExported g = true ->
             core.FieldMetadata.Name (core.parseFieldMetadataRecursive g true)
             <> core.FieldMetadata.Name
                  (core.parseFieldMetadataRecursive sf true)) ->
  gomap.get (core.parseObjectProperties t)
            (core.FieldMetadata.Name
               (core.parseFieldMetadataRecursive sf true))
  = Some (core.parseFieldMetadataRecursive sf true).
Proof.
  intros Hfields Hexp Hlater. unfold core.parseObjectProperties.
  rewrite Hfields, fold_left_app. cbn [fold_left]. rewrite Hexp.
  set (k := core.FieldMetadata.Name
              (core.parseFieldMetadataRecursive sf true)) in *.
  generalize (fold_left
                (fun props sf0 =>
                   if reflect.StructField.IsExported sf0
                   then
                     let child :=
                       core.parseFieldMetadataRecursive sf0 true in
                     gomap.set props (core.FieldMetadata.Name child) child
                   else props) before []) as acc.
  intros acc.
  assert (forall m,
             gomap.get m k = Some (core.parseFieldMetadataRecursive sf true) ->
             gomap.get
               (fold_left
                  (fun props sf0 =>
                     if reflect.StructField.IsExported sf0
                     then
                       let child :=
                         core.parseFieldMetadataRecursive sf0 true in
                       gomap.set props (core.FieldMetadata.Name child) child
                     else props) after m) k
             = Some (core.parseFieldMetadataRecursive sf true)) as H.
  { clear Hfields. revert Hlater.
    induction after as [|g after IH]; intros Hlater m Hm; [exact Hm|].
    cbn [fold_left]. apply IH.
    - intros g' Hg'. apply Hlater. now right.
    - destruct (reflect.StructField.IsExported g) eqn:Hg; [|exact Hm].
      cbv zeta. rewrite get_set_other; [exact Hm|].
      intros E. apply (Hlater g (or_introl eq_refl) Hg). now symmetry. }
  apply H. cbv zeta. apply get_set_same.
Qed.

Lemma later_field_wins_the_name_witness :
  gomap.get
    (core.parseObjectProperties
       (reflect.StructOf "Pair"
          [reflect.mkStructField "First" "" (reflect.StringType "string")
             [("dspy", "value")];
           reflect.mkStructField "Second" ""
             (reflect.IntegerType "int" reflect.Kind.Int)
             [("dspy", "value,required")]]))
    (core.FieldMetadata.Name
       (core.parseFieldMetadataRecursive
          (reflect.mkStructField "Second" ""
             (reflect.IntegerType "int" reflect.Kind.Int)
             [("dspy", "value,required")]) true))
  = Some (core.parseFieldMetadataRecursive
            (reflect.mkStructField "Second" ""
               (reflect.IntegerType "int" reflect.Kind.Int)
               [("dspy", "value,required")]) true).
Proof.
  apply (later_field_wins_the_name _
           [reflect.mkStructField "First" "" (reflect.StringType "string")
              [("dspy", "value")]]
           []).
  - reflexivity.
  - reflexivity.
  - intros g [].
Defined.

(* ================================================================== *)
(** * Typed signatures and the legacy bridge *)
(* ================================================================== *)

(** X11: a typed signature whose input parameter is a pointer to [T]
    carries the same types and descriptors as the one whose parameter is
    [T] itself ([T] being neither a pointer nor an interface type); it
    validates a pointer to a value exactly as the other validates the
    value, and refuses the nil pointer with [NotAStruct]. *)
Theorem pointer_and_value_signatures_validate_alike
        (n : string) (T TOutput : reflect.Type_) (v : reflect.Value) :
  reflect.Kind T <> reflect.Kind.Pointer ->
  reflect.Kind T <> reflect.Kind.Interface ->
  reflect.ValueKind v <> reflect.Kind.Pointer ->
  core.NewTypedSignature (reflect.PointerTo n T) TOutput
  = core.NewTypedSignature T TOutput
  /\ core.ValidateInput
       (core.NewTypedSignature (reflect.PointerTo n T) TOutput)
       (Some (reflect.VPointer (Some v)))
     = core.ValidateInput (core.NewTypedSignature T TOutput) (Some v)
  /\ core.ValidateInput
       (core.NewTypedSignature (reflect.PointerTo n T) TOutput)
       (Some (reflect.VPointer None))
     = core.Err (core.NotAStruct "input").
Proof.
  intros HT HI Hv.
  assert (core.NewTypedSignature (reflect.PointerTo n T) TOutput
          = core.NewTypedSignature T TOutput) as Hsame.
  { unfold core.NewTypedSignature, core.getReflectTypes.
    destruct T; cbn in HT, HI; try congruence; reflexivity. }
  rewrite Hsame. repeat split.
  unfold core.ValidateInput, core.validateStruct.
  destruct v; cbn in Hv; try congruence; reflexivity.
Qed.

Lemma pointer_and_value_signatures_validate_alike_witness :
  core.ValidateInput
    (core.NewTypedSignature (reflect.PointerTo "" tArticle) tOuter)
    (Some (reflect.VPointer (Some articleWithoutTags)))
  = core.ValidateInput (core.NewTypedSignature tArticle tOuter)
                       (Some articleWithoutTags).
Proof.
  apply (pointer_and_value_signatures_validate_alike
           "" tArticle tOuter articleWithoutTags); discriminate.
Defined.

Lemma ToLegacySignature_closed ts :
  core.ToLegacySignature ts
  = core.Signature.mk
      (List.map
         (fun f => core.InputField.mk
                     (core.Field.mk (core.FieldMetadata.Name f)
                                    (core.FieldMetadata.Description f) ""
                                    (core.FieldMetadata.Type_ f) None None))
         (core.SignatureMetadata.Inputs (core.typedSignatureImpl.metadata ts)))
      (List.map
         (fun f => core.OutputField.mk
                     (core.Field.mk (core.FieldMetadata.Name f)
                                    (core.FieldMetadata.Description f) ""
                                    (core.FieldMetadata.Type_ f) None None))
         (core.SignatureMetadata.Outputs
            (core.typedSignatureImpl.metadata ts)))
      (core.SignatureMetadata.Instruction
         (core.typedSignatureImpl.metadata ts)).
Proof.
  unfold core.ToLegacySignature, core.NewSignature, core.WithInstruction.
  cbv zeta.
  destruct (String.eqb _ "") eqn:E; [|reflexivity].
  apply String.eqb_eq in E. now rewrite E.
Qed.

(** X12: upgrading an untyped signature and downgrading the result keeps
    the fields in order with their names, descriptions and types, and the
    instruction, and loses the rest (prefix, items, properties); the
    upgraded descriptors are all optional and flat; and a signature that
    is already a downgrade survives the round trip unchanged. *)
Theorem legacy_round_trip
        (sig : core.Signature.t) (ts : core.typedSignatureImpl.t) :
  core.ToLegacySignature (core.FromLegacySignature sig) = eraseSignature sig
  /\ core.ToLegacySignature
       (core.FromLegacySignature (core.ToLegacySignature ts))
     = core.ToLegacySignature ts
  /\ forall m,
      In m (core.SignatureMetadata.Inputs
              (core.typedSignatureImpl.metadata
                 (core.FromLegacySignature sig))
            ++ core.SignatureMetadata.Outputs
                 (core.typedSignatureImpl.metadata
                    (core.FromLegacySignature sig)))%list ->
      core.FieldMetadata.Required m = false
      /\ core.FieldMetadata.Item m = None
      /\ core.FieldMetadata.Properties m = None
      /\ core.FieldMetadata.GoFieldName m = core.FieldMetadata.Name m.
Proof.
  assert (forall s, core.ToLegacySignature (core.FromLegacySignature s)
                    = eraseSignature s) as Hround.
  { intros s. rewrite ToLegacySignature_closed.
    unfold core.FromLegacySignature, eraseSignature, eraseField.
    cbn [core.typedSignatureImpl.metadata core.SignatureMetadata.Inputs
         core.SignatureMetadata.Outputs core.SignatureMetadata.Instruction].
    now rewrite !map_map. }
  split; [apply Hround|]. split.
  - rewrite Hround, ToLegacySignature_closed.
    unfold eraseSignature, eraseField.
    cbn [core.Signature.Inputs core.Signature.Outputs
         core.Signature.Instruction].
    now rewrite !map_map.
  - intros m Hm. unfold core.FromLegacySignature in Hm.
    cbn [core.typedSignatureImpl.metadata core.SignatureMetadata.Inputs
         core.SignatureMetadata.Outputs] in Hm.
    apply in_app_or in Hm as [Hm|Hm];
      apply in_map_iff in Hm as (f & <- & _); repeat split.
Qed.

(* ================================================================== *)
(** * Validation of a value of the signature's type never panics *)
(* ================================================================== *)

(** The struct a field of object type holds is a value of the struct type
    behind the field's type. *)
Lemma nested_struct_typed fv t fs :
  reflect.hasType fv t = true ->
  core.inferFieldType t = core.FieldTypeObject ->
  structBehind (reflect.Interface fv) = Some fs ->
  exists n tfs,
    reflect.derefOnce t = reflect.StructOf n tfs
    /\ reflect.hasType (reflect.VStruct fs) (reflect.StructOf n tfs) = true.
Proof.
  intros Ht Hobj Hs.
  destruct (inferFieldType_Object t Hobj)
    as [(n & k & e & HT) | (n & tfs & HT)].
  - exfalso.
    destruct t as [| | | | | | |pn pe| | | |mn mk me|]; cbn in HT;
      try discriminate.
    + subst pe.
      destruct fv as [| | | |[[]|]| | | | | | | |]; cbn in Ht, Hs;
        discriminate.
    + destruct fv as [| | | |[[]|]|[[]|]| | | | | | |]; cbn in Ht, Hs;
        discriminate.
  - exists n, tfs. split; [exact HT|].
    assert (reflect.Interface fv = Some fv) as Hi
        by (destruct t; cbn in HT; try discriminate;
            destruct fv; cbn in Ht |- *; try discriminate; reflexivity).
    rewrite Hi in Hs. exact (structBehind_typed fv t fs n tfs Ht Hs HT).
Qed.

Lemma typed_field_never_panics f :
  forall sf isInput fs fieldType fv,
    f = core.parseFieldMetadataRecursive sf isInput ->
    reflect.lookupField fs (reflect.StructField.Name sf) = Some (true, fv) ->
    reflect.hasType fv (reflect.StructField.Type_ sf) = true ->
    core.validateField (reflect.VStruct fs) fieldType f <> core.Panic.
Proof.
  induction f as [f _ IHprops] using descriptor_ind.
  intros sf isInput fs fieldType fv Hf Hl Ht.
  assert (core.FieldMetadata.GoFieldName f = reflect.StructField.Name sf
          /\ core.FieldMetadata.Type_ f
             = core.inferFieldType (reflect.StructField.Type_ sf)
          /\ core.FieldMetadata.Properties f
             = if String.eqb (core.inferFieldType
                                (reflect.StructField.Type_ sf))
                             core.FieldTypeObject
               then Some (core.parseObjectProperties
                            (reflect.StructField.Type_ sf))
               else None) as (Hname & Htype & Hprops)
      by (rewrite Hf, parseFieldMetadataRecursive_unfold; now cbn).
  rewrite validateField_unfold, Hname.
  cbn [reflect.FieldByName]. rewrite Hl, Htype.
  destruct (negb (core.FieldMetadata.Required f)); [discriminate|].
  destruct (reflect.IsZero fv); [discriminate|].
  destruct (String.eqb_spec
              (core.inferFieldType (reflect.StructField.Type_ sf))
              core.FieldTypeObject) as [Hobj|]; [|discriminate].
  cbn [negb]. rewrite validateStruct_structBehind.
  destruct (reflect.Interface fv) as [value|] eqn:Hvalue; [|discriminate].
  destruct (structBehind (Some value)) as [fs'|] eqn:Hfs; [|discriminate].
  rewrite <- Hvalue in Hfs.
  destruct (nested_struct_typed fv _ fs' Ht Hobj Hfs)
    as (n & tfs & HT & Hstruct).
  apply hasType_struct in Hstruct as [Honce Hfs'].
  rewrite Hprops. cbn [core.flatten].
  assert (forall p,
             In p (gomap.values
                     (core.parseObjectProperties
                        (reflect.StructField.Type_ sf))) ->
             core.validateField
               (reflect.VStruct fs')
               (fieldType ++ "." ++ core.FieldMetadata.Name f) p
             <> core.Panic) as Hall.
  { intros p Hp. unfold gomap.values in Hp.
    apply in_map_iff in Hp as ([k p'] & Hp' & Hin). cbn in Hp'. subst p'.
    destruct (parseObjectProperties_In _ k p Hin)
      as (sf' & Hsf' & Hexp & Hbuilt & _).
    rewrite HT in Hsf'. cbn [reflect.Fields] in Hsf'.
    unfold reflect.exportedNamesOnce in Honce.
    rewrite forallb_forall in Honce. specialize (Honce sf' Hsf').
    rewrite Hexp in Honce. cbn [negb orb] in Honce.
    apply Nat.eqb_eq in Honce.
    destruct (lookupField_typed fs' tfs sf' Hfs' Hsf' Honce)
      as (fv' & Hl' & Hv').
    rewrite Hexp in Hl'.
    exact (IHprops _ k p Hprops Hin sf' true fs' _ fv' Hbuilt Hl' Hv'). }
  revert Hall.
  generalize (gomap.values
                (core.parseObjectProperties (reflect.StructField.Type_ sf))).
  intros l. induction l as [|p l IHl]; intros Hall;
    cbn [core.validateFields]; [discriminate|].
  destruct (core.validateField (reflect.VStruct fs') _ p) eqn:Hp.
  - apply IHl. intros q Hq. apply Hall. now right.
  - discriminate.
  - destruct (Hall p (or_introl eq_refl) Hp).
Qed.

Lemma typed_struct_never_panics T isInput v fieldType :
  reflect.hasType v T = true ->
  core.validateStruct
    (Some v) (core.parseStructFields (Some (reflect.derefOnce T)) isInput)
    fieldType
  <> core.Panic.
Proof.
  intros Ht. rewrite validateStruct_structBehind.
  destruct (structBehind (Some v)) as [fs|] eqn:Hfs; [|discriminate].
  destruct (reflect.derefOnce T) as [| | | | | | | | | | | |n tfs] eqn:HT;
    try discriminate.
  pose proof (structBehind_typed v T fs n tfs Ht Hfs HT) as Hstruct.
  assert (forall f,
             In f (core.parseStructFields
                     (Some (reflect.StructOf n tfs)) isInput) ->
             core.validateField (reflect.VStruct fs) fieldType f
             <> core.Panic) as Hall.
  { intros f Hf.
    destruct (described_field_located fs n tfs isInput f Hstruct Hf)
      as (sf & fv & _ & _ & Hbuilt & Hl & Hv).
    rewrite Hbuilt, parseFieldMetadataRecursive_unfold in Hl.
    cbn [core.FieldMetadata.GoFieldName reflect.FieldByName] in Hl.
    exact (typed_field_never_panics f sf isInput fs fieldType fv
             Hbuilt Hl Hv). }
  revert Hall.
  generalize (core.parseStructFields (Some (reflect.StructOf n tfs)) isInput).
  intros l. induction l as [|p l IHl]; intros Hall;
    cbn [core.validateFields]; [discriminate|].
  destruct (core.validateField (reflect.VStruct fs) fieldType p) eqn:Hp.
  - apply IHl. intros q Hq. apply Hall. now right.
  - discriminate.
  - destruct (Hall p (or_introl eq_refl) Hp).
Qed.

(** X13: the validators of a typed signature never panic on an argument
    of the signature's own input or output type, whatever the value holds,
    unexported fields included: they return nil or an error.  (The
    descriptors name exported fields of the type only, so
    [Value.Interface] is never called on a field that may not be read.) *)
Theorem typed_validation_never_panics
        (TInput TOutput : reflect.Type_)
        (input output : option reflect.Value) :
  argumentOf input TInput ->
  argumentOf output TOutput ->
  core.ValidateInput (core.NewTypedSignature TInput TOutput) input
  <> core.Panic
  /\ core.ValidateOutput (core.NewTypedSignature TInput TOutput) output
     <> core.Panic.
Proof.
  assert (forall value fieldType,
             core.validateStruct value [] fieldType <> core.Panic) as Hnone.
  { intros value fieldType. rewrite validateStruct_structBehind.
    destruct value; [|discriminate].
    destruct (structBehind _); discriminate. }
  intros Hin Hout.
  unfold core.ValidateInput, core.ValidateOutput, core.NewTypedSignature,
    core.getReflectTypes, core.createTypedSignatureImpl.
  cbn [core.typedSignatureImpl.metadata core.SignatureMetadata.Inputs
       core.SignatureMetadata.Outputs].
  split.
  - destruct TInput; cbn [core.typeOfZero option_map];
      try apply Hnone; destruct Hin as (v & -> & Hv);
        exact (typed_struct_never_panics _ true v "input" Hv).
  - destruct TOutput; cbn [core.typeOfZero option_map];
      try apply Hnone; destruct Hout as (v & -> & Hv);
        exact (typed_struct_never_panics _ false v "output" Hv).
Qed.

Lemma typed_validation_never_panics_witness :
  core.ValidateInput (core.NewTypedSignature tGuarded tOuter)
                     (Some guardedValue)
  <> core.Panic.
Proof.
  apply (typed_validation_never_panics tGuarded tOuter
           (Some guardedValue) (Some (outerValue ""))).
  - exists guardedValue. split; reflexivity.
  - exists (outerValue ""). split; reflexivity.
Defined.

(* ================================================================== *)
(** * More on the signature registry *)
(* ================================================================== *)

(** X14: once an instance is published under a key, a call whose type
    parameters it implements returns it in its first step: the step builds
    nothing, allocates nothing and leaves the cache as it is. *)
Theorem published_instance_is_returned_at_once
        (m : core.cache) (n : nat) (TInput TOutput : reflect.Type_)
        (x : core.instance) (m' : core.cache) (n' : nat) (c' : core.call) :
  In (core.getReflectTypes TInput TOutput, x) m ->
  (forall y, In (core.getReflectTypes TInput TOutput, y) m -> y = x) ->
  core.implements x TInput TOutput ->
  core.callStep m n (core.AtLoad TInput TOutput) m' n' c' ->
  m' = m /\ n' = n /\ c' = core.Returned TInput TOutput x.
Proof.
  intros Hx Hone Himpl Hstep.
  inversion Hstep as [? ? ? ? cached Hc Hi | ? ? ? ? cached Hc Hi
                     | ? ? ? ? Habs | | |]; subst.
  - now rewrite (Hone cached Hc).
  - rewrite (Hone cached Hc) in Hi. contradiction.
  - destruct (Habs x Hx).
Qed.

Lemma published_instance_is_returned_at_once_witness :
  core.typedSignatureCache raceEnd = core.typedSignatureCache raceEnd
  /\ 2 = 2
  /\ core.Returned tArticle tOuter (raceInstance 1)
     = core.Returned tArticle tOuter (raceInstance 1).
Proof.
  apply (published_instance_is_returned_at_once
           (core.typedSignatureCache raceEnd) 2 tArticle tOuter
           (raceInstance 1)).
  - left. reflexivity.
  - intros y [[= <-] | []]. reflexivity.
  - split; reflexivity.
  - apply core.LoadHit; [left; reflexivity | split; reflexivity].
Defined.

Section RegistryAll.

Variable P : reflect.Type_ -> reflect.Type_ -> Prop.

Hypothesis compatible : keyCompatible P.

Lemma registryInvAll_implements w a b x :
  registryInvAll P w -> P a b ->
  In (core.getReflectTypes a b, x) (core.typedSignatureCache w) ->
  built a b x.
Proof.
  intros (Hpub & _ & _) Hab Hx.
  destruct (Hpub _ _ Hx) as (Hp & Hk & Hi).
  destruct (compatible _ _ _ _ Hab Hp Hk) as [-> ->].
  repeat split. exact Hi.
Qed.

Lemma registryInvAll_step w w' :
  registryInvAll P w -> core.step w w' -> registryInvAll P w'.
Proof.
  intros Hinv Hstep. pose proof Hinv as (Hpub & Hone & Hcalls).
  destruct Hstep as [m n before c after m' n' c' Hc].
  cbn [core.typedSignatureCache core.calls] in *.
  assert (In c (before ++ c :: after)%list) as Hin
      by (apply in_or_app; right; now left).
  assert (forall c0, In c0 (before ++ c' :: after)%list ->
                     c0 = c' \/ In c0 (before ++ c :: after)%list) as Hothers.
  { intros c0 H0. apply in_app_or in H0 as [H0 | [H0 | H0]].
    - right. apply in_or_app. now left.
    - now left.
    - right. apply in_or_app. right. now right. }
  pose proof (Hcalls c Hin) as Hshape.
  destruct Hc as [m n TI TO cached Hcached Himpl
                 | m n TI TO cached Hcached Himpl
                 | m n TI TO Habs
                 | m n TI TO signature Habs
                 | m n TI TO signature actual Hcached Himpl
                 | m n TI TO signature actual Hcached Himpl];
    cbn in Hshape.
  - split; [exact Hpub | split; [exact Hone|]].
    intros c0 H0. cbn [core.typedSignatureCache core.calls] in *.
    destruct (Hothers c0 H0) as [-> | H1]; [|exact (Hcalls c0 H1)].
    cbn [core.typedSignatureCache].
    split; [exact Hshape | split; [exact Hcached|]].
    exact (registryInvAll_implements _ _ _ _ Hinv Hshape Hcached).
  - destruct Himpl.
    exact (proj1 (registryInvAll_implements _ _ _ _ Hinv Hshape Hcached)).
  - split; [exact Hpub | split; [exact Hone|]].
    intros c0 H0. cbn [core.typedSignatureCache core.calls] in *.
    destruct (Hothers c0 H0) as [-> | H1]; [|exact (Hcalls c0 H1)].
    split; [exact Hshape | repeat split].
  - destruct Hshape as (Hp & (Hti & Hto) & Himpl).
    split; [|split]; cbn [core.typedSignatureCache core.calls].
    + intros k x [[= <- <-] | Hx]; [|exact (Hpub k x Hx)].
      rewrite Hti, Hto. now repeat split.
    + intros k x y [Ex | Hx] [Ey | Hy].
      * congruence.
      * injection Ex as <- <-. destruct (Habs y Hy).
      * injection Ey as <- <-. destruct (Habs x Hx).
      * exact (Hone k x y Hx Hy).
    + intros c0 H0. destruct (Hothers c0 H0) as [-> | H1].
      * split; [exact Hp | split; [now left | now repeat split]].
      * specialize (Hcalls c0 H1).
        destruct c0 as [a b | a b sg | a b r | a b]; auto.
        destruct Hcalls as (Hp0 & Hr & Hb).
        split; [exact Hp0 | split; [now right | exact Hb]].
  - destruct Hshape as (Hp & _).
    split; [exact Hpub | split; [exact Hone|]].
    intros c0 H0. cbn [core.typedSignatureCache core.calls] in *.
    destruct (Hothers c0 H0) as [-> | H1]; [|exact (Hcalls c0 H1)].
    cbn [core.typedSignatureCache].
    split; [exact Hp | split; [exact Hcached|]].
    exact (registryInvAll_implements _ _ _ _ Hinv Hp Hcached).
  - destruct Hshape as (Hp & _). destruct Himpl.
    exact (proj1 (registryInvAll_implements _ _ _ _ Hinv Hp Hcached)).
Qed.

Lemma registryInvAll_steps w w' :
  core.steps w w' -> registryInvAll P w -> registryInvAll P w'.
Proof.
  induction 1 as [w | w1 w2 w3 H12 _ IH]; intros Hinv; [exact Hinv|].
  apply IH. now apply (registryInvAll_step w1).
Qed.

Lemma registryAll_progress w :
  registryInvAll P w ->
  (exists c, In c (core.calls w) /\ core.running c = true) ->
  exists w', core.step w w'.
Proof.
  intros Hinv (c & Hin & Hrun). pose proof Hinv as (_ & _ & Hcalls).
  destruct w as [m n cs]. cbn [core.typedSignatureCache core.calls] in *.
  pose proof (Hcalls c Hin) as Hshape.
  apply in_split in Hin as (before & after & ->).
  destruct c as [a b | a b sg | a b r | a b]; try discriminate;
    cbn in Hshape;
    destruct (cached_or_absent m (core.getReflectTypes a b))
      as [[x Hx] | Habs].
  - eexists. apply core.StepCall. apply (core.LoadHit m n a b x Hx).
    exact (proj1 (registryInvAll_implements _ _ _ _ Hinv Hshape Hx)).
  - eexists. apply core.StepCall. now apply core.LoadMiss.
  - eexists. apply core.StepCall. apply (core.Loaded m n a b sg x Hx).
    exact (proj1 (registryInvAll_implements _ _ _ _ Hinv (proj1 Hshape) Hx)).
  - eexists. apply core.StepCall. now apply core.Stored.
Qed.

End RegistryAll.

(** X15: concurrent calls for several pairs of type parameters do not
    disturb one another, provided no two of the pairs share a key.  From an
    empty cache and any interleaving: no call panics; a call that has
    returned returned the instance published under its own key, which
    implements its type parameters and holds what [NewTypedSignature]
    builds for them; a key has at most one instance; a call that has not
    returned can take its next step, and the calls take at most two steps
    each. *)
Theorem unrelated_keys_do_not_interfere
        (calls0 : list core.call) (n0 : nat) (w : core.world) :
  Forall (fun c => exists a b, c = core.AtLoad a b) calls0 ->
  keyCompatible (fun a b => In (core.AtLoad a b) calls0) ->
  core.steps (core.mkWorld [] n0 calls0) w ->
  (forall c, In c (core.calls w) ->
             match c with
             | core.Returned a b r =>
                 In (core.getReflectTypes a b, r)
                    (core.typedSignatureCache w)
                 /\ core.implements r a b
                 /\ core.impl r = core.NewTypedSignature a b
             | core.Panicked _ _ => False
             | _ => True
             end)
  /\ (forall k x y,
         In (k, x) (core.typedSignatureCache w) ->
         In (k, y) (core.typedSignatureCache w) -> x = y)
  /\ ((exists c, In c (core.calls w) /\ core.running c = true) ->
      exists w', core.step w w')
  /\ stepsLeft w <= 2 * List.length calls0.
Proof.
  intros Hloads Hcompat Hrun.
  assert (registryInvAll (fun a b => In (core.AtLoad a b) calls0)
                         (core.mkWorld [] n0 calls0)) as Hinit.
  { split; [|split]; cbn [core.typedSignatureCache core.calls].
    - intros k x [].
    - intros k x y [].
    - intros c Hc. rewrite Forall_forall in Hloads.
      destruct (Hloads c Hc) as (a & b & ->). exact Hc. }
  pose proof (registryInvAll_steps _ Hcompat _ _ Hrun Hinit) as Hinv.
  pose proof Hinv as (_ & Hone & Hcalls).
  split; [|split; [exact Hone | split]].
  - intros c Hc. specialize (Hcalls c Hc).
    destruct c as [a b | a b sg | a b r | a b]; auto.
    destruct Hcalls as (_ & Hr & Hi & Hb). auto.
  - now apply (registryAll_progress _ Hcompat).
  - apply steps_decrease in Hrun.
    assert (stepsLeft (core.mkWorld [] n0 calls0) = 2 * List.length calls0)
      as E; [|lia].
    unfold stepsLeft, list_sum. cbn [core.calls]. clear - Hloads.
    induction Hloads as [|c cs (a & b & ->) _ IH];
      cbn [List.map fold_right List.length]; lia.
Qed.

Lemma unrelated_keys_do_not_interfere_witness :
  stepsLeft (core.mkWorld [] 0 mixedCalls) <= 2 * List.length mixedCalls.
Proof.
  apply (unrelated_keys_do_not_interfere mixedCalls 0
           (core.mkWorld [] 0 mixedCalls)).
  - repeat constructor; eexists; eexists; reflexivity.
  - intros a b c d Hab Hcd Hkey.
    destruct Hab as [[= <- <-] | [[= <- <-] | [[= <- <-] | []]]];
      destruct Hcd as [[= <- <-] | [[= <- <-] | [[= <- <-] | []]]];
      try (split; reflexivity); discriminate Hkey.
  - apply core.StepsRefl.
Defined.

(* ================================================================== *)
(** * More on the schema synthesizer *)
(* ================================================================== *)

Lemma buildSchemaFromType_shaped t :
  schemaShaped (utils.buildSchemaFromType t) = true
  /\ schemaShaped (utils.buildSchemaFromType (utils.baseType t)) = true.
Proof.
  induction t as [t He Hf | n e [IH IHb] | n e [IH IHb] | n len e [IH IHb]
                 | n e _ | n k e _ _ | n fields IH] using type_ind.
  - destruct t as [| ?[]| ?[]| | | | | | | | | |]; try discriminate;
      try (split; reflexivity).
    cbn in Hf. subst. split; reflexivity.
  - split; [reflexivity | exact IHb].
  - cbn [utils.baseType utils.buildSchemaFromType schemaShaped
         utils.TypeSchema.Properties utils.TypeSchema.Items
         utils.TypeSchema.Required utils.TypeSchema.Type_].
    now rewrite IHb.
  - cbn [utils.baseType utils.buildSchemaFromType schemaShaped
         utils.TypeSchema.Properties utils.TypeSchema.Items
         utils.TypeSchema.Required utils.TypeSchema.Type_].
    now rewrite IHb.
  - split; reflexivity.
  - split; reflexivity.
  - cbn [utils.baseType]. rewrite buildSchemaFromType_struct.
    cbn [schemaShaped utils.TypeSchema.Properties utils.TypeSchema.Items
         utils.TypeSchema.Type_].
    rewrite andb_true_r.
    assert (forallb (fun kv => schemaShaped (snd kv))
                    (propertiesLoop (visible fields) []) = true) as H;
      [|now rewrite H].
    apply forallb_forall. intros [k c] Hkc. cbn [snd].
    apply propertiesLoop_entries in Hkc as [[] | (f & Hf & _ & ->)].
    unfold visible in Hf. apply filter_In in Hf as [Hf _].
    rewrite Forall_forall in IH. exact (proj2 (IH f Hf)).
Qed.

(** X16: every node of a synthesized schema, at every level, is an OBJECT
    with properties and no items, or an ARRAY with items and neither
    properties nor required names, or a STRING, INTEGER, NUMBER or BOOLEAN
    with none of the three; the type tag is never empty. *)
Theorem synthesized_schema_is_well_shaped (t : reflect.Type_) :
  schemaShaped (utils.BuildSchemaFromStruct t) = true.
Proof. apply buildSchemaFromType_shaped. Qed.

Lemma baseType_pointers k t : utils.baseType (pointers k t) = utils.baseType t.
Proof. induction k as [|k IH]; [reflexivity | exact IH]. Qed.

(** X17: the synthesizer looks through any number of pointer levels around
    the type of a field or of an element, so a field of type [T], [*T] or
    [**T] gets the same schema; the type handed to [BuildSchemaFromStruct]
    itself is not unwrapped, and a pointer there yields a bare STRING
    node. *)
Theorem schema_ignores_pointer_depth
        (k : nat) (n name : string) (t : reflect.Type_)
        (before after : list reflect.StructField)
        (pkg : string) (tag : reflect.StructTag) :
  utils.buildSchemaFromType
    (reflect.StructOf n
       (before ++ reflect.mkStructField name pkg (pointers k t) tag
               :: after)%list)
  = utils.buildSchemaFromType
      (reflect.StructOf n
         (before ++ reflect.mkStructField name pkg t tag :: after)%list)
  /\ utils.buildSchemaFromType (reflect.SliceOf n (pointers k t))
     = utils.buildSchemaFromType (reflect.SliceOf n t)
  /\ utils.BuildSchemaFromStruct (reflect.PointerTo n t)
     = utils.TypeSchema.mk utils.TypeString None None [].
Proof.
  split; [|split; [|reflexivity]].
  - cbn [utils.buildSchemaFromType]. rewrite !fold_left_app.
    cbn [fold_left reflect.StructField.PkgPath reflect.StructField.Type_].
    unfold utils.fieldName, utils.isOmitempty.
    cbn [reflect.StructField.Tag reflect.StructField.Name].
    now rewrite baseType_pointers.
  - cbn [utils.buildSchemaFromType]. now rewrite baseType_pointers.
Qed.

(* ================================================================== *)
(** * Rendering *)
(* ================================================================== *)

Lemma countBytes_concat p (x : string) (xs : list string) :
  countBytes p (String.concat "" (x :: xs))
  = countBytes p x + countBytes p (String.concat "" xs).
Proof.
  destruct xs as [|y ys].
  - cbn [String.concat countBytes]. lia.
  - change (String.concat "" (x :: y :: ys))
      with (x ++ "" ++ String.concat "" (y :: ys)).
    rewrite countBytes_app. reflexivity.
Qed.

Lemma fieldLine_newlines (f : core.Field.t) :
  oneLine f = true -> countBytes isNewline (core.fieldLine f) = 1.
Proof.
  unfold oneLine. rewrite !andb_true_iff, !Nat.eqb_eq.
  intros [[Hn Ht] Hd]. unfold core.fieldLine.
  destruct (String.eqb (core.Field.Type_ f) core.FieldTypeText);
    cbn -[countBytes];
    repeat (rewrite countBytes_app || cbn [countBytes]);
    rewrite ?Hn, ?Ht, ?Hd; reflexivity.
Qed.

Lemma lines_newlines {A : Type} (proj : A -> core.Field.t) (xs : list A) :
  forallb (fun x => oneLine (proj x)) xs = true ->
  countBytes isNewline
             (String.concat "" (List.map (fun x => core.fieldLine (proj x)) xs))
  = List.length xs.
Proof.
  induction xs as [|x xs IH]; [reflexivity|].
  cbn [forallb List.map List.length]. rewrite andb_true_iff. intros [Hx Hxs].
  rewrite countBytes_concat, fieldLine_newlines, IH by assumption.
  reflexivity.
Qed.

(** X18: the text [Signature.String] renders has one line for the header
    of each block, one line per input and per output field, and one more
    line exactly when an instruction is set, provided no name, type,
    description or instruction holds a line break itself. *)
Theorem render_has_one_line_per_field (s : core.Signature.t)
        (Hin : forallb (fun i => oneLine (core.InputField.Field i))
                       (core.Signature.Inputs s) = true)
        (Hout : forallb (fun o => oneLine (core.OutputField.Field o))
                        (core.Signature.Outputs s) = true)
        (Hinstr : countBytes isNewline (core.Signature.Instruction s) = 0) :
  countBytes isNewline (core.String_ s)
  = 2 + List.length (core.Signature.Inputs s)
      + List.length (core.Signature.Outputs s)
      + (if String.eqb (core.Signature.Instruction s) "" then 0 else 1).
Proof.
  unfold core.String_.
  rewrite <- (lines_newlines core.InputField.Field _ Hin).
  rewrite <- (lines_newlines core.OutputField.Field _ Hout).
  generalize (String.concat ""
                (List.map (fun x => core.fieldLine (core.InputField.Field x))
                          (core.Signature.Inputs s))).
  generalize (String.concat ""
                (List.map (fun x => core.fieldLine (core.OutputField.Field x))
                          (core.Signature.Outputs s))).
  intros outs ins.
  destruct (String.eqb (core.Signature.Instruction s) "");
    cbn [String.append countBytes];
    rewrite !countBytes_app; cbn [String.append countBytes];
    rewrite ?countBytes_app, ?Hinstr; cbn;
    rewrite ?countBytes_app, ?Hinstr; cbn; lia.
Qed.

Lemma render_has_one_line_per_field_witness :
  countBytes isNewline
             (core.String_
                (core.WithInstruction
                   (core.NewSignature
                      [core.InputField.mk (core.NewField "question" []);
                       core.InputField.mk (core.NewIntField "limit" [])]
                      [core.OutputField.mk (core.Field.named "answer")])
                   "Answer briefly."))
  = 6.
Proof.
  exact (render_has_one_line_per_field
           (core.WithInstruction
              (core.NewSignature
                 [core.InputField.mk (core.NewField "question" []);
                  core.InputField.mk (core.NewIntField "limit" [])]
                 [core.OutputField.mk (core.Field.named "answer")])
              "Answer briefly.")
           eq_refl eq_refl eq_refl).
Defined.

(* ================================================================== *)
(** * Validation without required fields *)
(* ================================================================== *)

Lemma validateFields_optional v fieldType expected :
  (forall f, In f expected -> core.FieldMetadata.Required f = false) ->
  core.validateFields v fieldType expected = core.Ok.
Proof.
  induction expected as [|f rest IH]; intros H; [reflexivity|].
  cbn [core.validateFields].
  rewrite validateField_unfold, (H f (or_introl eq_refl)).
  cbn [negb]. apply IH. intros g Hg. apply H. now right.
Qed.

Lemma validateStruct_optional value expected fieldType :
  (forall f, In f expected -> core.FieldMetadata.Required f = false) ->
  core.validateStruct value expected fieldType
  = match value with
    | None => core.Err (core.EmptyValue fieldType)
    | Some _ =>
        match structBehind value with
        | Some _ => core.Ok
        | None => core.Err (core.NotAStruct fieldType)
        end
    end.
Proof.
  intros H. destruct value as [[| | | |[[]|]| | | | | | | |]|];
    cbn [core.validateStruct structBehind];
    try reflexivity; apply validateFields_optional, H.
Qed.

(** X19: validation is opt-in.  When no field of the input type carries
    the [required] option in its [dspy] tag, [ValidateInput] of the
    signature described from it accepts every struct, and every pointer to
    a struct, whatever its fields hold; the zero value in particular. *)
Theorem untagged_types_accept_every_struct
        (TInput TOutput : reflect.Type_) (value : option reflect.Value)
        (fs : list (string * bool * reflect.Value))
        (Hnone : forall sf,
            In sf (reflect.Fields (reflect.derefOnce TInput)) ->
            core.tagRequired (reflect.StructField.Tag sf) = false)
        (Hvalue : structBehind value = Some fs) :
  core.ValidateInput (core.NewTypedSignature TInput TOutput) value = core.Ok.
Proof.
  unfold core.ValidateInput. rewrite validateStruct_optional.
  - rewrite Hvalue. destruct value; [reflexivity | discriminate].
  - intros f Hf. cbn in Hf.
    assert (exists sf, In sf (reflect.Fields (reflect.derefOnce TInput))
                       /\ f = core.parseFieldMetadataRecursive sf true)
      as (sf & Hsf & ->).
    { unfold core.parseStructFields in Hf.
      destruct TInput as [| | | | | | | n e | | | | |]; cbn in Hf |- *;
        try contradiction;
        try (apply in_map_iff in Hf as (sf & <- & Hsf);
             apply filter_In in Hsf as [Hsf _]; now eauto).
      destruct e; cbn in Hf |- *; try contradiction.
      apply in_map_iff in Hf as (sf & <- & Hsf).
      apply filter_In in Hsf as [Hsf _]; eauto. }
    rewrite parseFieldMetadataRecursive_unfold. cbn. exact (Hnone sf Hsf).
Qed.

Lemma untagged_types_accept_every_struct_witness :
  core.ValidateInput (core.NewTypedSignature tPlain tArticle)
                     (Some plainZero) = core.Ok.
Proof.
  apply (untagged_types_accept_every_struct tPlain tArticle (Some plainZero)
           [("Question", true, reflect.VString "");
            ("Hits", true, reflect.VSlice None)]).
  - intros sf [<- | [<- | []]]; reflexivity.
  - reflexivity.
Defined.


(* ================================================================== *)
(** * The instruction of a typed signature *)
(* ================================================================== *)

(** X21: setting the instruction of a typed signature and downgrading
    commute, although [ToLegacySignature] calls [WithInstruction] only for
    a non-empty instruction; the last instruction set wins, the empty one
    clears it; and the rendered text differs from the text without
    instruction by the trailing instruction line only. *)
Theorem instruction_commutes_with_downgrade
        (ts : core.typedSignatureImpl.t) (a b : string) :
  core.ToLegacySignature (core.WithInstructionTyped ts a)
  = core.WithInstruction (core.ToLegacySignature ts) a
  /\ core.WithInstructionTyped (core.WithInstructionTyped ts a) b
     = core.WithInstructionTyped ts b
  /\ core.String_ (core.ToLegacySignature (core.WithInstructionTyped ts a))
     = core.String_ (core.ToLegacySignature (core.WithInstructionTyped ts ""))
         ++ (if String.eqb a "" then ""
             else "Instruction: " ++ a ++ String (ascii_of_nat 10) "").
Proof.
  split; [|split; [reflexivity|]].
  - unfold core.ToLegacySignature, core.WithInstructionTyped.
    cbn [core.typedSignatureImpl.metadata core.SignatureMetadata.Inputs
         core.SignatureMetadata.Outputs core.SignatureMetadata.Instruction].
    destruct (String.eqb_spec a "") as [-> |];
      destruct (String.eqb (core.SignatureMetadata.Instruction
                              (core.typedSignatureImpl.metadata ts)) "");
      reflexivity.
  - unfold core.ToLegacySignature, core.WithInstructionTyped.
    cbn [core.typedSignatureImpl.metadata core.SignatureMetadata.Inputs
         core.SignatureMetadata.Outputs core.SignatureMetadata.Instruction].
    rewrite String.eqb_refl.
    destruct (String.eqb_spec a "") as [-> | Ha].
    + now rewrite string_app_nil_r.
    + unfold core.String_, core.WithInstruction, core.NewSignature.
      cbn [core.Signature.Inputs core.Signature.Outputs
           core.Signature.Instruction].
      rewrite String.eqb_refl.
      destruct (String.eqb_spec a "") as [| _]; [contradiction|].
      rewrite (string_app_nil_r (String.concat "" _)).
      now rewrite !string_app_assoc.
Qed.

(* ================================================================== *)
(** * The two field parsers *)
(* ================================================================== *)

Lemma required_loop_existsb (parts : list string) (required : bool) :
  fold_left
    (fun required part =>
       if String.eqb (strings.TrimSpace part) "required" then true
       else required)
    parts required
  = required
    || existsb (fun p => String.eqb (strings.TrimSpace p) "required") parts.
Proof.
  revert required. induction parts as [|p parts IH]; intros required.
  - cbn. now rewrite orb_false_r.
  - cbn [fold_left existsb]. rewrite IH.
    destruct (String.eqb (strings.TrimSpace p) "required");
      destruct required; reflexivity.
Qed.

Lemma parseArrayElement_Array t :
  core.inferFieldType t = core.FieldTypeArray ->
  core.parseArrayElement t <> None.
Proof.
  intros H. destruct (inferFieldType_Array t H) as (n & e & He).
  unfold core.parseArrayElement.
  destruct t; cbn in He |- *; discriminate.
Qed.

(** X22: the parser without nesting, [parseFieldMetadata], computes what
    [parseFieldMetadataRecursive] computes with [Item] and [Properties]
    left nil: name, Go field name, required flag, description, prefix,
    type and Go type agree for every field, read as an input or as an
    output; and the two results are equal exactly when the field's type is
    neither Array nor Object. *)
Theorem flat_parser_is_the_recursive_one_without_nesting
        (field : reflect.StructField) (isInput : bool) :
  core.parseFieldMetadata field isInput
  = withoutNesting (core.parseFieldMetadataRecursive field isInput)
  /\ (core.parseFieldMetadata field isInput
      = core.parseFieldMetadataRecursive field isInput
      <-> core.inferFieldType (reflect.StructField.Type_ field)
          <> core.FieldTypeArray
          /\ core.inferFieldType (reflect.StructField.Type_ field)
             <> core.FieldTypeObject).
Proof.
  assert (core.parseFieldMetadata field isInput
          = withoutNesting (core.parseFieldMetadataRecursive field isInput))
    as Hflat.
  { rewrite parseFieldMetadataRecursive_unfold.
    unfold core.parseFieldMetadata, withoutNesting, core.tagName,
      core.tagRequired, core.tagDescription, core.tagPrefix.
    cbv zeta.
    cbn [core.FieldMetadata.Name core.FieldMetadata.GoFieldName
         core.FieldMetadata.Required core.FieldMetadata.Description
         core.FieldMetadata.Prefix core.FieldMetadata.Type_
         core.FieldMetadata.GoType].
    rewrite required_loop_existsb. cbn [orb].
    destruct (String.eqb (reflect.Get (reflect.StructField.Tag field) "dspy")
                         ""); [reflexivity|].
    destruct (strings.Split (reflect.Get (reflect.StructField.Tag field)
                                         "dspy") ",") as [|p0 ps];
      [reflexivity|].
    cbn [List.length hd tl Nat.ltb Nat.leb andb].
    destruct (String.eqb p0 ""); reflexivity. }
  split; [exact Hflat|]. rewrite Hflat.
  rewrite parseFieldMetadataRecursive_unfold. unfold withoutNesting.
  cbv zeta.
  cbn [core.FieldMetadata.Name core.FieldMetadata.GoFieldName
       core.FieldMetadata.Required core.FieldMetadata.Description
       core.FieldMetadata.Prefix core.FieldMetadata.Type_
       core.FieldMetadata.GoType].
  pose proof (parseArrayElement_Array (reflect.StructField.Type_ field))
    as Harr.
  destruct (String.eqb_spec
              (core.inferFieldType (reflect.StructField.Type_ field))
              core.FieldTypeArray) as [Ea | Ea];
    destruct (String.eqb_spec
                (core.inferFieldType (reflect.StructField.Type_ field))
                core.FieldTypeObject) as [Eo | Eo].
  - rewrite Ea in Eo. discriminate.
  - split; [|tauto]. intros H. injection H as H. symmetry in H.
    now apply Harr in H.
  - split; [|tauto]. intros H. injection H as H. discriminate.
  - split; [tauto | reflexivity].
Qed.
